(** * wxFileName and wxLocaleIdent: a shallow embedding

    This development embeds the path-splitting and path-normalisation code of
    [src/common/filename.cpp] and the locale-tag code of
    [src/common/uilocale.cpp] and proves properties of them.

    Conventions of the embedding.
    - A [wxString] is a list of 8-bit characters; case conversion is that of
      the "C" locale (only the letters A-Z and a-z are mapped).
    - [size_t] positions are natural numbers, and a search result is an
      [option nat], [None] standing for [wxString::npos].
    - Methods that modify the object are functions returning the new object.
    - What the code asks of the operating system or of files that are not
      part of the sources at hand (the working directory, the language
      database, the CLDR tables, the string tokenizer) is a field of an
      environment record, so the theorems hold for all of them; the members
      of wxString and wxSplit are written after their documentation. *)

From Stdlib Require Import Ascii String ZArith Lia Bool Arith List.
Import ListNotations.

Local Open Scope list_scope.
Local Open Scope bool_scope.

(* ------------------------------------------------------------------------- *)
(** ** wxString *)
(* ------------------------------------------------------------------------- *)

Definition wxString := list ascii.

(** A string literal, as the [wxS("...")] macro of the sources. *)
Definition wxS (s : string) : wxString := list_ascii_of_string s.

Definition wxUniChar_NUL : ascii := Ascii.zero.

(** [s[n]]; reading past the end (which the sources never rely on) gives NUL. *)
Definition at_ (s : wxString) (n : nat) : ascii := nth n s wxUniChar_NUL.

Definition empty (s : wxString) : bool :=
  match s with [] => true | _ :: _ => false end.

Fixpoint wxString_eqb (a b : wxString) : bool :=
  match a, b with
  | [], [] => true
  | x :: a', y :: b' => Ascii.eqb x y && wxString_eqb a' b'
  | _, _ => false
  end.

(** [chars.Find(ch) != wxNOT_FOUND]. *)
Definition Find (chars : wxString) (ch : ascii) : bool :=
  existsb (Ascii.eqb ch) chars.

(** [find_first_of], scanning [s] whose first character has index [i]. *)
Fixpoint find_first_of_at (s chars : wxString) (i : nat) : option nat :=
  match s with
  | [] => None
  | c :: s' => if Find chars c then Some i else find_first_of_at s' chars (S i)
  end.

Definition find_first_of (s chars : wxString) (nStart : nat) : option nat :=
  find_first_of_at (skipn nStart s) chars nStart.

(** [find(ch, nStart)]. *)
Definition find (s : wxString) (ch : ascii) (nStart : nat) : option nat :=
  find_first_of s [ch] nStart.

Fixpoint find_first_not_of_at (s chars : wxString) (i : nat) : option nat :=
  match s with
  | [] => None
  | c :: s' =>
      if Find chars c then find_first_not_of_at s' chars (S i) else Some i
  end.

Definition find_first_not_of (s chars : wxString) : option nat :=
  find_first_not_of_at s chars 0.

Fixpoint find_last_of_at (s chars : wxString) (i : nat) : option nat :=
  match s with
  | [] => None
  | c :: s' =>
      match find_last_of_at s' chars (S i) with
      | Some j => Some j
      | None => if Find chars c then Some i else None
      end
  end.

Definition find_last_of (s chars : wxString) : option nat :=
  find_last_of_at s chars 0.

(** [Mid(first, count)]; [count = None] is the default [npos]. *)
Definition Mid (s : wxString) (first : nat) (count : option nat) : wxString :=
  match count with
  | None => skipn first s
  | Some n => firstn n (skipn first s)
  end.

Definition Left (s : wxString) (count : nat) : wxString := firstn count s.

Fixpoint StartsWith (s prefix : wxString) : bool :=
  match prefix, s with
  | [], _ => true
  | p :: prefix', c :: s' => Ascii.eqb p c && StartsWith s' prefix'
  | _ :: _, [] => false
  end.

(** [BeforeFirst(ch, &rest)]: the part before the first [ch] and the part
    after it; the whole string and an empty rest when [ch] does not occur. *)
Definition BeforeFirst (s : wxString) (ch : ascii) : wxString * wxString :=
  match find s ch 0 with
  | Some i => (firstn i s, skipn (S i) s)
  | None => (s, [])
  end.

(** [BeforeLast(ch, &rest)]: the part before the last [ch] and the part after
    it; the empty string and a copy of the string when [ch] does not occur. *)
Definition BeforeLast (s : wxString) (ch : ascii) : wxString * wxString :=
  match find_last_of s [ch] with
  | Some i => (firstn i s, skipn (S i) s)
  | None => ([], s)
  end.

Definition is_upper (c : ascii) : bool :=
  (65 <=? nat_of_ascii c) && (nat_of_ascii c <=? 90).

Definition is_lower (c : ascii) : bool :=
  (97 <=? nat_of_ascii c) && (nat_of_ascii c <=? 122).

Definition isdigit (c : ascii) : bool :=
  (48 <=? nat_of_ascii c) && (nat_of_ascii c <=? 57).

Definition wxTolower (c : ascii) : ascii :=
  if is_upper c then ascii_of_nat (nat_of_ascii c + 32) else c.

Definition wxToupper (c : ascii) : ascii :=
  if is_lower c then ascii_of_nat (nat_of_ascii c - 32) else c.

Definition Lower (s : wxString) : wxString := map wxTolower s.
Definition Upper (s : wxString) : wxString := map wxToupper s.

(** First character in upper case, the subsequent ones in lower case. *)
Definition Capitalize (s : wxString) : wxString :=
  match s with
  | [] => []
  | c :: s' => wxToupper c :: Lower s'
  end.

(** [CmpNoCase]: [strcmp] on the lower-cased characters. *)
Fixpoint CmpNoCase (a b : wxString) : Z :=
  match a, b with
  | [], [] => 0%Z
  | [], _ :: _ => (-1)%Z
  | _ :: _, [] => 1%Z
  | x :: a', y :: b' =>
      let nx := nat_of_ascii (wxTolower x) in
      let ny := nat_of_ascii (wxTolower y) in
      if nx <? ny then (-1)%Z
      else if ny <? nx then 1%Z
      else CmpNoCase a' b'
  end.

Definition IsSameAs (a b : wxString) (caseSensitive : bool) : bool :=
  if caseSensitive then wxString_eqb a b else Z.eqb (CmpNoCase a b) 0.

(** [Replace(strOld, strNew)], all occurrences, scanning from the left;
    [skip] counts the characters of a match still to be dropped. *)
Fixpoint Replace_from (skip : nat) (s strOld strNew : wxString) : wxString :=
  match s with
  | [] => []
  | c :: s' =>
      match skip with
      | S k => Replace_from k s' strOld strNew
      | O =>
          if negb (empty strOld) && StartsWith s strOld
          then strNew ++ Replace_from (length strOld - 1) s' strOld strNew
          else c :: Replace_from 0 s' strOld strNew
      end
  end.

Definition Replace (s strOld strNew : wxString) : wxString :=
  Replace_from 0 s strOld strNew.

(** Cutting a string at every occurrence of [sep], empty fields kept.
    [fields sep s cur] has [cur] as the (reversed) field being read. *)
Fixpoint fields (sep : ascii) (s : wxString) (cur : wxString) : list wxString :=
  match s with
  | [] => [rev cur]
  | c :: s' =>
      if Ascii.eqb c sep then rev cur :: fields sep s' []
      else fields sep s' (c :: cur)
  end.

(** [wxSplit(str, sep, '\0')].  Its definition (src/common/arrstr.cpp) is not
    among the sources at hand; by its documentation, with a NUL escape
    character the string is cut at every separator, adjacent separators give
    empty fields, and the empty string gives the empty array (the case
    [it == parts.end()] that [FromTag] tests for). *)
Definition wxSplit (str : wxString) (sep : ascii) : list wxString :=
  match str with
  | [] => []
  | _ :: _ => fields sep str []
  end.

(** The operators [<<] and [+=] used to build strings. *)
Definition join_with (sep : wxString) (parts : list wxString) : wxString :=
  match parts with
  | [] => []
  | p :: ps => fold_left (fun acc q => acc ++ sep ++ q) ps p
  end.

(* ------------------------------------------------------------------------- *)
(** ** Path formats and separators (filename.cpp) *)
(* ------------------------------------------------------------------------- *)

Inductive wxPathFormat : Type :=
  | wxPATH_NATIVE
  | wxPATH_UNIX
  | wxPATH_MAC
  | wxPATH_DOS
  | wxPATH_VMS
  | wxPATH_MAX.

Definition wxPathFormat_eqb (a b : wxPathFormat) : bool :=
  match a, b with
  | wxPATH_NATIVE, wxPATH_NATIVE | wxPATH_UNIX, wxPATH_UNIX
  | wxPATH_MAC, wxPATH_MAC | wxPATH_DOS, wxPATH_DOS
  | wxPATH_VMS, wxPATH_VMS | wxPATH_MAX, wxPATH_MAX => true
  | _, _ => false
  end.

(** The platform the library is compiled for: which of [__WINDOWS__] and
    [__VMS] the preprocessor sees. *)
Inductive wxPlatform : Type :=
  | Platform_WINDOWS
  | Platform_VMS
  | Platform_UNIX.

(** The separator characters.  Their definitions (include/wx/filefn.h) are
    not among the sources at hand; the values are those the comments and the
    literals of filename.cpp show (a dot before the extension, a colon after
    the volume, backslash, slash, colon and dot between directories). *)
Definition wxFILE_SEP_EXT : ascii := "."%char.
Definition wxFILE_SEP_DSK : ascii := ":"%char.
Definition wxFILE_SEP_PATH_DOS : ascii := "\"%char.
Definition wxFILE_SEP_PATH_UNIX : ascii := "/"%char.
Definition wxFILE_SEP_PATH_MAC : ascii := ":"%char.
Definition wxFILE_SEP_PATH_VMS : ascii := "."%char.

(** Prefix of MSW extended-length paths: backslash, backslash, question mark,
    backslash. *)
Definition wxMSW_EXTENDED_PATH_PREFIX : wxString := wxS "\\?\".
Definition wxMSW_EXTENDED_PATH_PREFIX_LEN : nat :=
  length wxMSW_EXTENDED_PATH_PREFIX.

Definition GetFormat (p : wxPlatform) (format : wxPathFormat) : wxPathFormat :=
  match format with
  | wxPATH_NATIVE =>
      match p with
      | Platform_WINDOWS => wxPATH_DOS
      | Platform_VMS => wxPATH_VMS
      | Platform_UNIX => wxPATH_UNIX
      end
  | _ => format
  end.

Definition GetVolumeSeparator (p : wxPlatform) (format : wxPathFormat) : wxString :=
  match GetFormat p format with
  | wxPATH_DOS | wxPATH_VMS => [wxFILE_SEP_DSK]
  | _ => []
  end.

Definition GetPathSeparators (p : wxPlatform) (format : wxPathFormat) : wxString :=
  match GetFormat p format with
  | wxPATH_DOS => [wxFILE_SEP_PATH_DOS; wxFILE_SEP_PATH_UNIX]
  | wxPATH_MAC => [wxFILE_SEP_PATH_MAC]
  | wxPATH_VMS => [wxFILE_SEP_PATH_VMS]
  | _ => [wxFILE_SEP_PATH_UNIX]
  end.

(** [GetPathSeparator(format)] is [GetPathSeparators(format)[0u]]. *)
Definition GetPathSeparator (p : wxPlatform) (format : wxPathFormat) : ascii :=
  at_ (GetPathSeparators p format) 0.

Definition GetPathTerminators (p : wxPlatform) (format : wxPathFormat) : wxString :=
  match GetFormat p format with
  | wxPATH_VMS => ["]"%char]
  | f => GetPathSeparators p f
  end.

Definition IsPathSeparator (p : wxPlatform) (ch : ascii) (format : wxPathFormat) : bool :=
  negb (Ascii.eqb ch wxUniChar_NUL) && Find (GetPathSeparators p format) ch.

Definition IsCaseSensitive (p : wxPlatform) (format : wxPathFormat) : bool :=
  wxPathFormat_eqb (GetFormat p format) wxPATH_UNIX.

Definition IsDOSPathSep (ch : ascii) : bool :=
  Ascii.eqb ch wxFILE_SEP_PATH_DOS || Ascii.eqb ch wxFILE_SEP_PATH_UNIX.

Definition IsUNCPath (path : wxString) : bool :=
  (3 <=? length path) &&
  IsDOSPathSep (at_ path 0) && IsDOSPathSep (at_ path 1) &&
  negb (IsDOSPathSep (at_ path 2)).

Definition wxGetVolumeString (p : wxPlatform) (volume : wxString)
    (format : wxPathFormat) : wxString :=
  if empty volume then []
  else
    match GetFormat p format with
    | wxPATH_DOS =>
        if length volume =? 1 then volume ++ GetVolumeSeparator p wxPATH_DOS
        else volume
    | wxPATH_VMS => volume ++ GetVolumeSeparator p wxPATH_VMS
    | _ => []
    end.

(* ------------------------------------------------------------------------- *)
(** ** SplitVolume and SplitPath *)
(* ------------------------------------------------------------------------- *)

(** Overwrites the first two characters of the volume with backslashes, the
    canonical separators of UNC paths. *)
Definition set_leading_backslashes (v : wxString) : wxString :=
  match v with
  | _ :: _ :: v' => wxFILE_SEP_PATH_DOS :: wxFILE_SEP_PATH_DOS :: v'
  | _ => v
  end.

(** The volume/path split shared by the DOS fall-through and the VMS case. *)
Definition SplitVolume_colon (p : wxPlatform) (fullpath : wxString)
    (format : wxPathFormat) : wxString * wxString :=
  match find_first_of fullpath (GetVolumeSeparator p format) 0 with
  | Some (S k) => (Left fullpath (S k), Mid fullpath (S k + 1) None)
  | _ => ([], fullpath)
  end.

(** [SplitVolume(fullpath, &volume, &path, format)] as the pair
    [(volume, path)]; a volume that the code does not assign is the empty
    string its callers start with.  The last case is the one the code marks
    unreachable, where nothing is assigned. *)
Definition SplitVolume (p : wxPlatform) (fullpath : wxString)
    (format : wxPathFormat) : wxString * wxString :=
  match GetFormat p format with
  | wxPATH_DOS =>
      if StartsWith fullpath wxMSW_EXTENDED_PATH_PREFIX then
        match find fullpath wxFILE_SEP_PATH_DOS wxMSW_EXTENDED_PATH_PREFIX_LEN with
        | Some posNextSep =>
            (Mid fullpath 0 (Some posNextSep), Mid fullpath posNextSep None)
        | None => (Mid fullpath 0 None, [wxFILE_SEP_PATH_DOS])
        end
      else if IsUNCPath fullpath then
        match find_first_of fullpath (GetPathTerminators p wxPATH_DOS) 3 with
        | Some posFirstSlash =>
            (set_leading_backslashes (Left fullpath posFirstSlash),
             Mid fullpath posFirstSlash None)
        | None => (set_leading_backslashes fullpath, [])
        end
      else SplitVolume_colon p fullpath wxPATH_DOS
  | wxPATH_VMS => SplitVolume_colon p fullpath wxPATH_VMS
  | wxPATH_MAC | wxPATH_UNIX => ([], fullpath)
  | wxPATH_NATIVE | wxPATH_MAX => ([], [])
  end.

(** The five out-parameters of [SplitPath]. *)
Record SplitPathResult : Type := mkSplit {
  sp_volume : wxString;
  sp_path : wxString;
  sp_name : wxString;
  sp_ext : wxString;
  sp_hasExt : bool
}.

(** The position of the dot that starts the extension, after the two checks
    of SplitPath (a dot at the very beginning of a path component, a dot that
    lies in the directory part).  The first check calls [IsPathSeparator]
    without a format, that is with [wxPATH_NATIVE]. *)
Definition SplitPath_posLastDot (p : wxPlatform) (fullpath : wxString)
    (format : wxPathFormat) (posLastSlash : option nat) : option nat :=
  let posLastDot := find_last_of fullpath [wxFILE_SEP_EXT] in
  let posLastDot :=
    match posLastDot with
    | Some d =>
        if (d =? 0)
           || IsPathSeparator p (at_ fullpath (d - 1)) wxPATH_NATIVE
           || (wxPathFormat_eqb format wxPATH_VMS
               && Ascii.eqb (at_ fullpath (d - 1)) "]"%char)
        then None else Some d
    | None => None
    end in
  match posLastDot, posLastSlash with
  | Some d, Some s => if d <? s then None else Some d
  | _, _ => posLastDot
  end.

Definition SplitPath (p : wxPlatform) (fullpathWithVolume : wxString)
    (format0 : wxPathFormat) : SplitPathResult :=
  let format := GetFormat p format0 in
  let '(volume, fullpath) := SplitVolume p fullpathWithVolume format in
  let posLastSlash := find_last_of fullpath (GetPathTerminators p format) in
  let posLastDot := SplitPath_posLastDot p fullpath format posLastSlash in
  let path :=
    match posLastSlash with
    | None => []
    | Some s =>
        let len :=
          if (s =? 0) && negb (wxPathFormat_eqb format wxPATH_MAC)
          then S s else s in
        let path := Left fullpath len in
        if wxPathFormat_eqb format wxPATH_VMS
           && Ascii.eqb (at_ path 0) "["%char
        then skipn 1 path else path
    end in
  let nStart := match posLastSlash with None => 0 | Some s => s + 1 end in
  let count :=
    match posLastDot, posLastSlash with
    | None, _ => None
    | Some d, None => Some d
    | Some d, Some s => Some (d - s - 1)
    end in
  let name := Mid fullpath nStart count in
  match posLastDot with
  | None => mkSplit volume path name [] false
  | Some d => mkSplit volume path name (Mid fullpath (d + 1) None) true
  end.

(* ------------------------------------------------------------------------- *)
(** ** The wxFileName object and its environment *)
(* ------------------------------------------------------------------------- *)

Record wxFileName : Type := mkFileName {
  m_volume : wxString;
  m_dirs : list wxString;
  m_name : wxString;
  m_ext : wxString;
  m_relative : bool;
  m_hasExt : bool;
  m_dontFollowLinks : bool
}.

(** What filename.cpp takes from outside: the platform it is compiled for,
    the operating system, and helpers whose definitions are not among the
    sources at hand. *)
Record wxEnv : Type := mkEnv {
  env_platform : wxPlatform;
  (** the tokens [wxStringTokenizer tn(str, delims)] yields, in order *)
  wxStringTokenizer : wxString -> wxString -> list wxString;
  (** [wxEndsWithPathSeparator] of filefn *)
  wxEndsWithPathSeparator : wxString -> bool;
  (** [wxGetCwd()] *)
  wxGetCwd : wxString;
  (** [wxGetCwd()] after [SetCwd(dir)] *)
  wxGetCwd_after_SetCwd : wxString -> wxString;
  (** [wxGetUserHome(user)] *)
  wxGetUserHome : wxString -> wxString;
  (** [wxExpandEnvVars(str)] *)
  wxExpandEnvVars : wxString -> wxString;
  (** [GetShortcutTarget(path, target)] of the Windows build with OLE:
      the target when the call succeeds *)
  os_GetShortcutTarget : wxString -> option wxString;
  (** [GetLongPath()] of the Windows build, which asks the file system *)
  os_GetLongPath : wxFileName -> wxString
}.

(** Bits of [wxPathNormalize] and of the [wxPATH_GET_XXX] flags
    (include/wx/filename.h). *)
Definition wxPATH_NORM_ENV_VARS : Z := 1.
Definition wxPATH_NORM_DOTS : Z := 2.
Definition wxPATH_NORM_TILDE : Z := 4.
Definition wxPATH_NORM_CASE : Z := 8.
Definition wxPATH_NORM_ABSOLUTE : Z := 16.
Definition wxPATH_NORM_LONG : Z := 32.
Definition wxPATH_NORM_SHORTCUT : Z := 64.
Definition wxPATH_GET_VOLUME : Z := 1.
Definition wxPATH_GET_SEPARATOR : Z := 2.

(** [flags & bit] as a condition. *)
Definition has_flag (flags bit : Z) : bool := negb (Z.eqb (Z.land flags bit) 0).

(** [SetPath_PathOnly] and [SetPath_MayHaveVolume]. *)
Inductive SetPathFlags : Type := SetPath_PathOnly | SetPath_MayHaveVolume.

(** [Clear()], which is also the state of a default-constructed object. *)
Definition Clear : wxFileName := mkFileName [] [] [] [] true false false.

Definition set_dirs (fn : wxFileName) (dirs : list wxString) : wxFileName :=
  mkFileName (m_volume fn) dirs (m_name fn) (m_ext fn) (m_relative fn)
             (m_hasExt fn) (m_dontFollowLinks fn).

Definition set_relative (fn : wxFileName) (r : bool) : wxFileName :=
  mkFileName (m_volume fn) (m_dirs fn) (m_name fn) (m_ext fn) r
             (m_hasExt fn) (m_dontFollowLinks fn).

Definition SetVolume (fn : wxFileName) (v : wxString) : wxFileName :=
  mkFileName v (m_dirs fn) (m_name fn) (m_ext fn) (m_relative fn)
             (m_hasExt fn) (m_dontFollowLinks fn).

(** Accessors defined inline in include/wx/filename.h. *)
Definition HasVolume (fn : wxFileName) : bool := negb (empty (m_volume fn)).
Definition IsDir (fn : wxFileName) : bool := empty (m_name fn) && empty (m_ext fn).
Definition IsOk (fn : wxFileName) : bool :=
  negb (length (m_dirs fn) =? 0) || negb (empty (m_name fn))
  || negb (m_relative fn) || negb (empty (m_ext fn)) || m_hasExt fn.

(** The loop of DoSetPath over the tokens: an empty token is a [..] under
    wxPATH_MAC and is ignored otherwise. *)
Fixpoint DoSetPath_tokens (format : wxPathFormat) (tokens : list wxString)
    (dirs : list wxString) : list wxString :=
  match tokens with
  | [] => dirs
  | token :: rest =>
      if empty token then
        if wxPathFormat_eqb format wxPATH_MAC
        then DoSetPath_tokens format rest (dirs ++ [wxS ".."])
        else DoSetPath_tokens format rest dirs
      else DoSetPath_tokens format rest (dirs ++ [token])
  end.

Definition DoSetPath (env : wxEnv) (fn : wxFileName) (pathOrig : wxString)
    (format0 : wxPathFormat) (flags : SetPathFlags) : wxFileName :=
  let fn := set_dirs fn [] in
  if empty pathOrig then set_relative fn true
  else
    let p := env_platform env in
    let format := GetFormat p format0 in
    (* 0) the volume part; [None] is the early return "we had only the volume" *)
    let '(fn, path) :=
      match flags with
      | SetPath_MayHaveVolume =>
          let '(volume, path) := SplitVolume p pathOrig format in
          let fn := if negb (empty volume)
                    then SetVolume (set_relative fn false) volume else fn in
          (fn, if empty path then None else Some path)
      | SetPath_PathOnly => (fn, Some pathOrig)
      end in
    match path with
    | None => fn
    | Some path =>
        (* 1) relative or absolute *)
        let leadingChar := at_ path 0 in
        let '(relative, path) :=
          match format with
          | wxPATH_MAC =>
              let r := Ascii.eqb leadingChar ":"%char in
              (r, if r then skipn 1 path else path)
          | wxPATH_VMS => (false, path)
          | wxPATH_DOS => (negb (IsPathSeparator p leadingChar format), path)
          | _ => (negb (Ascii.eqb leadingChar "/"%char), path)
          end in
        (* 2) the members *)
        let tokens := wxStringTokenizer env path (GetPathSeparators p format) in
        set_dirs (set_relative fn relative) (DoSetPath_tokens format tokens [])
    end.

Definition SetPath (env : wxEnv) (fn : wxFileName) (path : wxString)
    (format : wxPathFormat) : wxFileName :=
  DoSetPath env fn path format SetPath_MayHaveVolume.

(** [Assign(volume, path, name, ext, hasExt, format)]. *)
Definition Assign_parts (env : wxEnv) (fn : wxFileName)
    (volume path name ext : wxString) (hasExt : bool)
    (format : wxPathFormat) : wxFileName :=
  let fn := DoSetPath env fn path format SetPath_PathOnly in
  mkFileName volume (m_dirs fn) name ext (m_relative fn) hasExt
             (m_dontFollowLinks fn).

(** [Assign(fullpath, format)]. *)
Definition Assign (env : wxEnv) (fn : wxFileName) (fullpath : wxString)
    (format : wxPathFormat) : wxFileName :=
  let r := SplitPath (env_platform env) fullpath format in
  Assign_parts env fn (sp_volume r) (sp_path r) (sp_name r) (sp_ext r)
               (sp_hasExt r) format.

(** [Assign(fullpathOrig, fullname, format)]. *)
Definition Assign_dir_name (env : wxEnv) (fn : wxFileName)
    (fullpathOrig fullname : wxString) (format : wxPathFormat) : wxFileName :=
  let p := env_platform env in
  let fullpath :=
    if negb (empty fullpathOrig) && negb (wxEndsWithPathSeparator env fullpathOrig)
    then fullpathOrig ++ [GetPathSeparator p format] else fullpathOrig in
  let rn := SplitPath p fullname format in
  let rp := SplitPath p fullpath format in
  Assign_parts env fn (sp_volume rp) (sp_path rp) (sp_name rn) (sp_ext rn)
               (sp_hasExt rn) format.

Definition AssignDir (env : wxEnv) (fn : wxFileName) (dir : wxString)
    (format : wxPathFormat) : wxFileName :=
  Assign_dir_name env fn dir [] format.

Definition DirName (env : wxEnv) (dir : wxString) (format : wxPathFormat)
  : wxFileName :=
  AssignDir env Clear dir format.

(** The static [GetCwd(volume)]. *)
Definition GetCwd (env : wxEnv) (volume : wxString) : wxString :=
  if negb (empty volume)
  then wxGetCwd_after_SetCwd env
         (volume ++ GetVolumeSeparator (env_platform env) wxPATH_NATIVE)
  else wxGetCwd env.

Definition AssignCwd (env : wxEnv) (fn : wxFileName) (volume : wxString)
  : wxFileName :=
  AssignDir env fn (GetCwd env volume) wxPATH_NATIVE.

Definition IsAbsolute (env : wxEnv) (fn : wxFileName) (format : wxPathFormat)
  : bool :=
  if wxPathFormat_eqb format wxPATH_UNIX
     && match m_dirs fn with
        | dir :: _ => negb (empty dir) && Ascii.eqb (at_ dir 0) "~"%char
        | [] => false
        end
  then true
  else if m_relative fn then false
  else if negb (empty (GetVolumeSeparator (env_platform env) format))
          && empty (m_volume fn)
  then false
  else true.

(* ------------------------------------------------------------------------- *)
(** ** Normalize *)
(* ------------------------------------------------------------------------- *)

(** The loop "now deal with [.], [..] and the rest": [dirs] are the
    components still to be read and [out] is [m_dirs] so far. *)
Fixpoint Normalize_dirs (flags : Z) (relative : bool) (dirs : list wxString)
    (out : list wxString) : list wxString :=
  match dirs with
  | [] => out
  | dir :: rest =>
      if has_flag flags wxPATH_NORM_DOTS && wxString_eqb dir (wxS ".")
      then Normalize_dirs flags relative rest out
      else if has_flag flags wxPATH_NORM_DOTS && wxString_eqb dir (wxS "..")
      then
        if length out =? 0 then
          if negb relative then Normalize_dirs flags relative rest out
          else Normalize_dirs flags relative rest (out ++ [dir])
        else if negb (wxString_eqb (last out []) (wxS ".."))
        then Normalize_dirs flags relative rest (removelast out)
        else Normalize_dirs flags relative rest (out ++ [dir])
      else Normalize_dirs flags relative rest (out ++ [dir])
  end.

(** Normalize from "the existing path components" down to the end of the
    loop over them: the part that the flags wxPATH_NORM_ABSOLUTE,
    wxPATH_NORM_TILDE and wxPATH_NORM_DOTS control. *)
Definition Normalize_paths (env : wxEnv) (fn : wxFileName) (flags : Z)
    (cwd : wxString) (format0 : wxPathFormat) : wxFileName :=
  let dirs := m_dirs fn in
  let curDir := Clear in
  let format := GetFormat (env_platform env) format0 in
  let curDir :=
    if has_flag flags wxPATH_NORM_ABSOLUTE && negb (IsAbsolute env fn format)
    then if empty cwd then AssignCwd env curDir (m_volume fn)
         else AssignDir env curDir cwd wxPATH_NATIVE
    else curDir in
  let '(curDir, dirs) :=
    if wxPathFormat_eqb format wxPATH_UNIX
       && has_flag flags wxPATH_NORM_TILDE && m_relative fn
    then
      match dirs with
      | dir :: rest =>
          if negb (empty dir) && Ascii.eqb (at_ dir 0) "~"%char
          then (AssignDir env curDir (wxGetUserHome env (skipn 1 dir))
                          wxPATH_NATIVE, rest)
          else (curDir, dirs)
      | [] => (curDir, dirs)
      end
    else (curDir, dirs) in
  let '(fn, dirs) :=
    if IsOk curDir then
      let '(fn, curDir) :=
        if negb (HasVolume fn) && HasVolume curDir then
          let fn' := SetVolume fn (m_volume curDir) in
          (fn', if negb (m_relative fn') then Clear else curDir)
        else (fn, curDir) in
      let dirs := m_dirs curDir ++ dirs in
      let fn := if negb (m_relative curDir) then set_relative fn false else fn in
      (fn, dirs)
    else (fn, dirs) in
  set_dirs fn (Normalize_dirs flags (m_relative fn) dirs []).

Definition GetFullName (fn : wxFileName) : wxString :=
  if m_hasExt fn then m_name fn ++ [wxFILE_SEP_EXT] ++ m_ext fn else m_name fn.

(** The loop of DoGetPath over the directories. *)
Fixpoint DoGetPath_dirs (p : wxPlatform) (format : wxPathFormat)
    (withSep : bool) (dirs : list wxString) : wxString :=
  match dirs with
  | [] => []
  | dir :: rest =>
      let sep :=
        if withSep || negb (length rest =? 0)
        then [GetPathSeparator p format] else [] in
      match format with
      | wxPATH_MAC =>
          if wxString_eqb dir (wxS ".")
          then DoGetPath_dirs p format withSep rest
          else (if negb (IsSameAs dir (wxS "..") true) then dir else [])
               ++ sep ++ DoGetPath_dirs p format withSep rest
      | wxPATH_VMS =>
          (if negb (IsSameAs dir (wxS "..") true) then dir else [])
          ++ sep ++ DoGetPath_dirs p format withSep rest
      | _ => dir ++ sep ++ DoGetPath_dirs p format withSep rest
      end
  end.

Definition DoGetPath (p : wxPlatform) (fn : wxFileName) (flags : Z)
    (format0 : wxPathFormat) : wxString :=
  let format := GetFormat p format0 in
  let fullpath :=
    if has_flag flags wxPATH_GET_VOLUME
    then wxGetVolumeString p (m_volume fn) format else [] in
  let fullpath :=
    match format with
    | wxPATH_MAC =>
        if m_relative fn then fullpath ++ [wxFILE_SEP_PATH_MAC] else fullpath
    | wxPATH_DOS =>
        if negb (m_relative fn) then fullpath ++ [wxFILE_SEP_PATH_DOS] else fullpath
    | wxPATH_VMS => fullpath
    | _ =>
        if negb (m_relative fn) then fullpath ++ [wxFILE_SEP_PATH_UNIX] else fullpath
    end in
  let withSep :=
    match format with
    | wxPATH_VMS => false
    | _ => has_flag flags wxPATH_GET_SEPARATOR
    end in
  match m_dirs fn with
  | [] => fullpath
  | _ :: _ =>
      let body := DoGetPath_dirs p format withSep (m_dirs fn) in
      if wxPathFormat_eqb format wxPATH_VMS
      then fullpath ++ ["["%char] ++ body ++ ["]"%char]
      else fullpath ++ body
  end.

(** [MakeAbsolute()] as GetPath calls it: Normalize with the flags
    DOTS, ABSOLUTE and TILDE, an empty cwd and the native format. *)
Definition MakeAbsolute_flags : Z :=
  Z.lor wxPATH_NORM_DOTS (Z.lor wxPATH_NORM_ABSOLUTE wxPATH_NORM_TILDE).

Definition GetPath (env : wxEnv) (fn : wxFileName) (flags : Z)
    (format : wxPathFormat) : wxString :=
  let p := env_platform env in
  let fullpath := DoGetPath p fn flags format in
  match p with
  | Platform_WINDOWS =>
      if wxPathFormat_eqb (GetFormat p format) wxPATH_DOS
         && has_flag flags wxPATH_GET_VOLUME
      then
        let fnAbs := Normalize_paths env fn MakeAbsolute_flags [] wxPATH_NATIVE in
        let absPath := DoGetPath p fnAbs flags format in
        if length absPath <? 248 then fullpath
        else if wxString_eqb [at_ absPath 1] (GetVolumeSeparator p wxPATH_NATIVE)
        then wxMSW_EXTENDED_PATH_PREFIX ++ absPath
        else if StartsWith absPath (wxS "\\")
                && negb (Ascii.eqb (at_ absPath 2) "?"%char)
        then firstn 1 absPath ++ wxS "\?\UNC" ++ skipn 1 absPath
        else absPath
      else fullpath
  | _ => fullpath
  end.

Definition GetFullPath (env : wxEnv) (fn : wxFileName) (format : wxPathFormat)
  : wxString :=
  GetPath env fn (Z.lor wxPATH_GET_VOLUME wxPATH_GET_SEPARATOR) format
  ++ GetFullName fn.

Definition GetLongPath (env : wxEnv) (fn : wxFileName) : wxString :=
  match env_platform env with
  | Platform_WINDOWS => os_GetLongPath env fn
  | _ => GetFullPath env fn wxPATH_NATIVE
  end.

Definition MakeLower_all (fn : wxFileName) : wxFileName :=
  mkFileName (Lower (m_volume fn)) (map Lower (m_dirs fn)) (Lower (m_name fn))
             (Lower (m_ext fn)) (m_relative fn) (m_hasExt fn)
             (m_dontFollowLinks fn).

(** [Normalize(flags, cwd, format)]; it always returns [true], so only the
    new object is given. *)
Definition Normalize (env : wxEnv) (fn : wxFileName) (flags : Z)
    (cwd : wxString) (format0 : wxPathFormat) : wxFileName :=
  let p := env_platform env in
  let fn :=
    if has_flag flags wxPATH_NORM_ENV_VARS then
      let pathOrig := GetFullPath env fn format0 in
      let path := wxExpandEnvVars env pathOrig in
      if negb (wxString_eqb path pathOrig)
      then Assign env fn path wxPATH_NATIVE else fn
    else fn in
  let fn := Normalize_paths env fn flags cwd format0 in
  let format := GetFormat p format0 in
  let fn :=
    match p with
    | Platform_WINDOWS =>
        let fn :=
          if has_flag flags wxPATH_NORM_SHORTCUT then
            match os_GetShortcutTarget env (GetFullPath env fn format) with
            | Some filename =>
                Assign env (set_relative fn false) filename wxPATH_NATIVE
            | None => fn
            end
          else fn in
        if has_flag flags wxPATH_NORM_LONG && wxPathFormat_eqb format wxPATH_DOS
        then Assign env fn (GetLongPath env fn) wxPATH_NATIVE
        else fn
    | _ => fn
    end in
  if has_flag flags wxPATH_NORM_CASE && negb (IsCaseSensitive p format)
  then MakeLower_all fn else fn.

(** [MakeAbsolute(cwd, format)], inline in include/wx/filename.h. *)
Definition MakeAbsolute (env : wxEnv) (fn : wxFileName) (cwd : wxString)
    (format : wxPathFormat) : wxFileName :=
  Normalize env fn MakeAbsolute_flags cwd format.

(* ------------------------------------------------------------------------- *)
(** ** MakeRelativeTo *)
(* ------------------------------------------------------------------------- *)

(** "remove common directories starting at the top": the two directory
    lists after the loop. *)
Fixpoint remove_common_dirs (withCase : bool) (dirs baseDirs : list wxString)
  : list wxString * list wxString :=
  match dirs, baseDirs with
  | d :: dirs', b :: baseDirs' =>
      if IsSameAs d b withCase then remove_common_dirs withCase dirs' baseDirs'
      else (dirs, baseDirs)
  | _, _ => (dirs, baseDirs)
  end.

(** "add as many [..] as needed": [count] insertions at the front. *)
Fixpoint insert_dotdots (count : nat) (dirs : list wxString) : list wxString :=
  match count with
  | O => dirs
  | S n => insert_dotdots n (wxS ".." :: dirs)
  end.

(** Both paths brought to canonical form, as MakeRelativeTo does first. *)
Definition MakeRelativeTo_canonical (env : wxEnv) (fn : wxFileName)
    (format : wxPathFormat) : wxFileName :=
  let cwd := wxGetCwd env in
  Normalize env (MakeAbsolute env fn cwd format) wxPATH_NORM_LONG cwd format.

(** [MakeRelativeTo(pathBase, format)]: the returned flag and the object
    afterwards. *)
Definition MakeRelativeTo (env : wxEnv) (fn : wxFileName) (pathBase : wxString)
    (format : wxPathFormat) : bool * wxFileName :=
  let p := env_platform env in
  let fnBase := DirName env pathBase format in
  let fn := MakeRelativeTo_canonical env fn format in
  let fnBase := MakeRelativeTo_canonical env fnBase format in
  let withCase := IsCaseSensitive p format in
  if negb (IsSameAs (m_volume fn) (m_volume fnBase) withCase)
  then (false, fn)
  else
    let fn := SetVolume fn [] in
    let '(dirs, baseDirs) :=
      remove_common_dirs withCase (m_dirs fn) (m_dirs fnBase) in
    let dirs := insert_dotdots (length baseDirs) dirs in
    let fn := set_dirs fn dirs in
    let fn :=
      match GetFormat p format with
      | wxPATH_MAC | wxPATH_VMS => fn
      | _ =>
          if (length (m_dirs fn) =? 0) && IsDir fn
          then set_dirs fn (m_dirs fn ++ [wxS "."]) else fn
      end in
    (true, set_relative fn true).

(* ------------------------------------------------------------------------- *)
(** ** A reference environment *)
(* ------------------------------------------------------------------------- *)

Fixpoint fields_of (delims : wxString) (s : wxString) (cur : wxString)
  : list wxString :=
  match s with
  | [] => [rev cur]
  | c :: s' =>
      if Find delims c then rev cur :: fields_of delims s' []
      else fields_of delims s' (c :: cur)
  end.

Fixpoint drop_trailing_empty (l : list wxString) : list wxString :=
  match l with
  | [] => []
  | x :: l' =>
      match drop_trailing_empty l' with
      | [] => if empty x then [] else [x]
      | l'' => x :: l''
      end
  end.

(** A tokenizer for the reference environment, after the documentation of
    the mode wxTOKEN_RET_EMPTY (the default for delimiters that are not white
    space): empty tokens in the middle of the string are returned, trailing
    ones are not, and a non-empty string of delimiters only gives one empty
    token. *)
Definition tokens_RET_EMPTY (str delims : wxString) : list wxString :=
  match str with
  | [] => []
  | _ :: _ =>
      match drop_trailing_empty (fields_of delims str []) with
      | [] => [[]]
      | l => l
      end
  end.

(** A Unix system whose working directory is /home/user, with no
    environment variable to expand. *)
Definition unix_env : wxEnv :=
  mkEnv Platform_UNIX
        tokens_RET_EMPTY
        (fun s => IsPathSeparator Platform_UNIX (last s wxUniChar_NUL) wxPATH_NATIVE)
        (wxS "/home/user")
        (fun _ => wxS "/home/user")
        (fun _ => wxS "/home/user")
        (fun s => s)
        (fun _ => None)
        (fun _ => []).


(* ------------------------------------------------------------------------- *)
(** ** wxLocaleIdent (uilocale.cpp) *)
(* ------------------------------------------------------------------------- *)

Definition validCharsAlpha : wxString :=
  wxS "abcdefghijklmnopqrstuvwxyzABCDEFGHIJKLMNOPQRSTUVWXYZ".
Definition validCharsAlnum : wxString :=
  wxS "abcdefghijklmnopqrstuvwxyzABCDEFGHIJKLMNOPQRSTUVWXYZ0123456789".
Definition validCharsModExt : wxString :=
  wxS "abcdefghijklmnopqrstuvwxyzABCDEFGHIJKLMNOPQRSTUVWXYZ0123456789-".

(** [s.find_first_not_of(chars) == wxString::npos]. *)
Definition only_chars (s chars : wxString) : bool :=
  match find_first_not_of s chars with None => true | Some _ => false end.

Record wxLocaleIdent : Type := mkLocaleIdent {
  m_language : wxString;
  m_region : wxString;
  m_script : wxString;
  m_modifier : wxString;
  m_charset : wxString;
  m_extension : wxString;
  m_sortorder : wxString;
  m_tag : wxString
}.

(** A default-constructed identifier. *)
Definition wxLocaleIdent_empty : wxLocaleIdent :=
  mkLocaleIdent [] [] [] [] [] [] [] [].

(** The fields of an entry of the language database that the code reads. *)
Record wxLanguageInfo : Type := mkLanguageInfo {
  Language_id : Z;
  LocaleTag : wxString;
  CanonicalName : wxString;
  Description : wxString
}.

Inductive wxLocaleTagType : Type :=
  | wxLOCALE_TAGTYPE_DEFAULT
  | wxLOCALE_TAGTYPE_SYSTEM
  | wxLOCALE_TAGTYPE_BCP47
  | wxLOCALE_TAGTYPE_MACOS
  | wxLOCALE_TAGTYPE_POSIX
  | wxLOCALE_TAGTYPE_WINDOWS.

(** The argument [subtagsFavour] of RemoveLikelySubtags; any other integer
    matches no case of its two switches. *)
Inductive wxSubtagsFavour : Type :=
  | wxSubtags_FavourRegion
  | wxSubtags_FavourScript
  | wxSubtags_FavourOther.

(** What uilocale.cpp takes from files that are not among the sources at
    hand: the language database and the tables behind wxUILocaleImpl. *)
Record wxLocaleData : Type := mkLocaleData {
  (** [wxGetLanguageInfos()] once the database has been created *)
  languagesDB : list wxLanguageInfo;
  (** [wxUILocaleImpl::GetScriptNameFromAlias] *)
  GetScriptNameFromAlias : wxString -> wxString;
  (** [wxUILocaleImpl::GetScriptAliasFromName] *)
  GetScriptAliasFromName : wxString -> wxString;
  (** [wxUILocaleImpl::GetLikelySubtags] *)
  GetLikelySubtags : wxString -> wxString;
  (** [wxUILocaleImpl::GetMatchDistance] *)
  GetMatchDistance : wxString -> wxString -> Z;
  (** [wxUILocaleImpl::SameRegionGroup] *)
  SameRegionGroup : wxString -> wxString -> wxString -> bool;
  (** the platform's [wxLocaleIdent::GetName] *)
  GetName : wxLocaleIdent -> wxString
}.

Definition IsDefaultCLocale (locale : wxString) : bool :=
  Z.eqb (CmpNoCase locale (wxS "C")) 0 || Z.eqb (CmpNoCase locale (wxS "POSIX")) 0.

(** [wxStricmp(a, b) == 0]. *)
Definition wxStricmp_eq (a b : wxString) : bool := Z.eqb (CmpNoCase a b) 0.

Definition IsEmpty (locId : wxLocaleIdent) : bool := empty (m_language locId).

Definition set_language (l : wxLocaleIdent) (v : wxString) : wxLocaleIdent :=
  mkLocaleIdent v (m_region l) (m_script l) (m_modifier l) (m_charset l)
                (m_extension l) (m_sortorder l) (m_tag l).
Definition set_region (l : wxLocaleIdent) (v : wxString) : wxLocaleIdent :=
  mkLocaleIdent (m_language l) v (m_script l) (m_modifier l) (m_charset l)
                (m_extension l) (m_sortorder l) (m_tag l).
Definition set_script (l : wxLocaleIdent) (v : wxString) : wxLocaleIdent :=
  mkLocaleIdent (m_language l) (m_region l) v (m_modifier l) (m_charset l)
                (m_extension l) (m_sortorder l) (m_tag l).
Definition set_modifier (l : wxLocaleIdent) (v : wxString) : wxLocaleIdent :=
  mkLocaleIdent (m_language l) (m_region l) (m_script l) v (m_charset l)
                (m_extension l) (m_sortorder l) (m_tag l).
Definition set_charset (l : wxLocaleIdent) (v : wxString) : wxLocaleIdent :=
  mkLocaleIdent (m_language l) (m_region l) (m_script l) (m_modifier l) v
                (m_extension l) (m_sortorder l) (m_tag l).
Definition set_extension (l : wxLocaleIdent) (v : wxString) : wxLocaleIdent :=
  mkLocaleIdent (m_language l) (m_region l) (m_script l) (m_modifier l)
                (m_charset l) v (m_sortorder l) (m_tag l).
Definition set_sortorder (l : wxLocaleIdent) (v : wxString) : wxLocaleIdent :=
  mkLocaleIdent (m_language l) (m_region l) (m_script l) (m_modifier l)
                (m_charset l) (m_extension l) v (m_tag l).
Definition set_tag (l : wxLocaleIdent) (v : wxString) : wxLocaleIdent :=
  mkLocaleIdent (m_language l) (m_region l) (m_script l) (m_modifier l)
                (m_charset l) (m_extension l) (m_sortorder l) v.

(** *** The setters *)

Definition Language (l : wxLocaleIdent) (language : wxString) : wxLocaleIdent :=
  if IsDefaultCLocale language then set_language l (Upper language)
  else if ((length language =? 2) || (length language =? 3))
          && only_chars language validCharsAlpha
  then set_language l (Lower language)
  else set_language l [].

Definition Region (l : wxLocaleIdent) (region : wxString) : wxLocaleIdent :=
  if ((length region =? 2) || (length region =? 3))
     && only_chars region validCharsAlnum
  then set_region l (Upper region)
  else set_region l [].

Definition Script (d : wxLocaleData) (l : wxLocaleIdent) (script : wxString)
  : wxLocaleIdent :=
  if (length script =? 4) && only_chars script validCharsAlpha
  then set_script l (Capitalize script)
  else if negb (empty script)
  then set_script l (GetScriptNameFromAlias d (Lower script))
  else set_script l [].

Definition Charset (l : wxLocaleIdent) (charset : wxString) : wxLocaleIdent :=
  if only_chars charset validCharsModExt then set_charset l charset
  else set_charset l [].

Definition Modifier (l : wxLocaleIdent) (modifier : wxString) : wxLocaleIdent :=
  if only_chars modifier validCharsModExt then set_modifier l modifier
  else set_modifier l [].

Definition Extension (l : wxLocaleIdent) (extension : wxString) : wxLocaleIdent :=
  if only_chars extension validCharsModExt then set_extension l extension else l.

Definition SortOrder (l : wxLocaleIdent) (sortorder : wxString) : wxLocaleIdent :=
  if (4 <? length sortorder) && only_chars sortorder validCharsAlpha
  then set_sortorder l sortorder else l.

Definition CheckLanguageVariant (locId : wxLocaleIdent) : wxLocaleIdent :=
  if IsSameAs (m_modifier locId) (wxS "valencia") true
  then Extension locId (m_modifier locId)
  else if IsSameAs (m_extension locId) (wxS "valencia") true
          && empty (m_modifier locId)
  then Modifier locId (m_extension locId)
  else locId.

(** *** FindLanguageInfo(const wxString&) *)

Fixpoint FindLanguageInfo_loop (locale language languageOnly : wxString)
    (db : list wxLanguageInfo) (infoRet : option wxLanguageInfo)
  : option wxLanguageInfo :=
  match db with
  | [] => infoRet
  | info :: db' =>
      if wxStricmp_eq locale (CanonicalName info)
         || wxStricmp_eq language (Description info)
      then Some info
      else
        let infoRet :=
          if wxStricmp_eq locale (fst (BeforeFirst (CanonicalName info) "_"%char))
             || wxStricmp_eq languageOnly (Description info)
          then match infoRet with None => Some info | Some _ => infoRet end
          else infoRet in
        FindLanguageInfo_loop locale language languageOnly db' infoRet
  end.

Definition FindLanguageInfo (d : wxLocaleData) (localeOrig : wxString)
  : option wxLanguageInfo :=
  if empty localeOrig then None
  else
    let locale := if IsDefaultCLocale localeOrig then wxS "en_US" else localeOrig in
    let '(languageOnly, region) :=
      BeforeFirst (fst (BeforeFirst locale "."%char)) "_"%char in
    let language :=
      if negb (empty region) then languageOnly ++ wxS " (" ++ region ++ wxS ")"
      else languageOnly in
    FindLanguageInfo_loop locale language languageOnly (languagesDB d) None.

(** *** FromTag *)

(** "Skip extlangs that are 3 letters long, in contrast to 3 digit region
    codes": the subtags from the first one that is not skipped. *)
Fixpoint FromTag_skip_extlangs (parts : list wxString) : list wxString :=
  match parts with
  | [] => []
  | part :: rest =>
      if (length part =? 3) && negb (isdigit (at_ part 0))
      then FromTag_skip_extlangs rest
      else parts
  end.

(** FromTag from "Advance to the next component we know about" on; [parts]
    are the subtags after the language, of which there is at least one. *)
Definition FromTag_subtags (locId : wxLocaleIdent) (parts : list wxString)
  : wxLocaleIdent :=
  if negb ((length (m_language locId) =? 2) || (length (m_language locId) =? 3))
  then locId
  else
    match FromTag_skip_extlangs parts with
    | [] => locId
    | part :: rest =>
        let parsed :=
          if (length part =? 2) || (length part =? 3)
          then Some (set_region locId (Upper part))
          else if length part =? 4
          then Some (set_script locId (Capitalize part))
          else None in
        match parsed with
        | None => wxLocaleIdent_empty
        | Some locId =>
            match rest with
            | [] => CheckLanguageVariant locId
            | part2 :: rest2 =>
                let '(locId, rest) :=
                  if empty (m_region locId)
                     && ((length part2 =? 2) || (length part2 =? 3))
                  then (set_region locId (Upper part2), rest2)
                  else (locId, rest) in
                let locId :=
                  match rest with
                  | [] => locId
                  | _ :: _ => set_extension locId (join_with (wxS "-") rest)
                  end in
                CheckLanguageVariant locId
            end
        end
    end.

Definition FromTag (d : wxLocaleData) (tag : wxString) : wxLocaleIdent :=
  let locId := wxLocaleIdent_empty in
  (* 0. the special locale identifiers *)
  if IsDefaultCLocale tag then Language locId tag
  else
    (* 1a. modifier in a POSIX tag *)
    let '(tagMain, tagRest) := BeforeFirst tag "@"%char in
    let locId :=
      if negb (empty tagRest) then
        let script := GetScriptNameFromAlias d tagRest in
        if negb (empty script) then Script d locId script
        else Modifier locId tagRest
      else locId in
    (* 1b. charset in a POSIX tag *)
    let '(tagMain, tagRest) := BeforeFirst tagMain "."%char in
    let locId := if negb (empty tagRest) then Charset locId tagRest else locId in
    (* 1c. Windows CRT language and region names *)
    let tagMain :=
      let '(tagTemp, tagRest) := BeforeFirst tagMain "_"%char in
      if (3 <? length tagTemp) && (empty tagRest || (3 <? length tagRest))
      then match FindLanguageInfo d tagMain with
           | Some info => LocaleTag info
           | None => tagMain
           end
      else tagMain in
    (* 1d. sort order in a Windows tag *)
    let '(locId, tagMain) :=
      let '(tagTemp, tagRest) := BeforeLast tagMain "_"%char in
      if negb (empty tagTemp) && (4 <? length tagRest)
         && empty (m_modifier locId) && empty (m_charset locId)
      then (SortOrder locId tagRest, tagTemp)
      else (locId, tagMain) in
    (* 2. the rest is BCP47-like *)
    let tagMain := Replace tagMain (wxS "_") (wxS "-") in
    match wxSplit tagMain "-"%char with
    | [] => wxLocaleIdent_empty
    | part :: rest =>
        let locId := set_tag (set_language locId (Lower part)) tag in
        match rest with
        | [] => locId
        | _ :: _ => FromTag_subtags locId rest
        end
    end.

(** *** AddLikelySubtags and RemoveLikelySubtags *)

Definition AddLikelySubtags (d : wxLocaleData) (localeIdent : wxLocaleIdent)
  : wxLocaleIdent :=
  let language := m_language localeIdent in
  let script := m_script localeIdent in
  let region := m_region localeIdent in
  let locId := localeIdent in
  if empty language then wxLocaleIdent_empty
  else if IsDefaultCLocale language then localeIdent
  else
    let script := if IsSameAs script (wxS "Zzzz") true then [] else script in
    let region := if IsSameAs region (wxS "ZZ") true then [] else region in
    if negb (empty script) && negb (empty region) then localeIdent
    else
      let toTag :=
        if negb (empty script)
        then GetLikelySubtags d (language ++ wxS "-" ++ script) else [] in
      let toTag :=
        if empty toTag && negb (empty region)
        then GetLikelySubtags d (language ++ wxS "-" ++ region) else toTag in
      let toTag := if empty toTag then GetLikelySubtags d language else toTag in
      if empty toTag then wxLocaleIdent_empty
      else
        let subtags := wxSplit toTag "-"%char in
        let locId := set_tag locId [] in
        let locId :=
          if empty script then Script d locId (nth 1 subtags []) else locId in
        let locId :=
          if empty region then Region locId (nth 2 subtags []) else locId in
        locId.

Definition RemoveLikelySubtags (d : wxLocaleData) (localeIdent : wxLocaleIdent)
    (subtagsFavour : wxSubtagsFavour) : wxLocaleIdent :=
  let locId := AddLikelySubtags d localeIdent in
  if IsEmpty locId then locId
  else
    let language := m_language locId in
    let script := m_script locId in
    let region := m_region locId in
    let same l := IsSameAs script (m_script l) true
                  && IsSameAs region (m_region l) true in
    let trial := Region (Script d (Language localeIdent language) []) [] in
    if same (AddLikelySubtags d trial) then trial
    else
      let trial :=
        match subtagsFavour with
        | wxSubtags_FavourRegion => Region trial region
        | wxSubtags_FavourScript => Script d trial script
        | wxSubtags_FavourOther => trial
        end in
      if same (AddLikelySubtags d trial) then trial
      else
        let trial :=
          match subtagsFavour with
          | wxSubtags_FavourScript => Region trial region
          | wxSubtags_FavourRegion => Script d trial script
          | wxSubtags_FavourOther => trial
          end in
        let locId := AddLikelySubtags d trial in
        if same locId then trial else locId.

(** *** GetTag *)

Definition tag_part (sep : ascii) (part : wxString) : wxString :=
  if negb (empty part) then sep :: part else [].

Definition GetTag (d : wxLocaleData) (l : wxLocaleIdent)
    (tagType : wxLocaleTagType) : wxString :=
  match tagType, empty (m_tag l) with
  | wxLOCALE_TAGTYPE_DEFAULT, false => m_tag l
  | _, _ =>
      let tag := m_language l in
      match tagType with
      | wxLOCALE_TAGTYPE_BCP47 =>
          tag ++ tag_part "-" (m_script l) ++ tag_part "-" (m_region l)
              ++ tag_part "-" (m_extension l)
      | wxLOCALE_TAGTYPE_MACOS =>
          tag ++ tag_part "-" (m_script l) ++ tag_part "_" (m_region l)
      | wxLOCALE_TAGTYPE_POSIX =>
          let maxTag := AddLikelySubtags d l in
          let minTag := RemoveLikelySubtags d l wxSubtags_FavourRegion in
          let tag :=
            if negb (empty (m_region l)) then tag ++ "_"%char :: m_region l
            else tag ++ tag_part "_" (m_region maxTag) in
          let tag := tag ++ tag_part "." (m_charset l) in
          if negb (empty (m_script minTag))
          then tag ++ tag_part "@" (GetScriptAliasFromName d (m_script l))
          else tag ++ tag_part "@" (m_modifier l)
      | wxLOCALE_TAGTYPE_WINDOWS =>
          tag ++ tag_part "-" (m_script l) ++ tag_part "-" (m_region l)
              ++ tag_part "-" (m_extension l) ++ tag_part "-" (m_sortorder l)
      | _ => GetName d l
      end
  end.

(** *** GetBestMatch *)

(** The distances are [int] in the source; they are integers here, the sums
    of a few table entries being far from the range of [int]. *)
Definition DISTANCE_INFINITY : Z := 1000.

Definition defaultLanguageDistance (d : wxLocaleData) : Z :=
  GetMatchDistance d (wxS "*") (wxS "*").
Definition defaultScriptDistance (d : wxLocaleData) : Z :=
  GetMatchDistance d (wxS "*-*") (wxS "*-*").
Definition defaultRegionDistance (d : wxLocaleData) : Z :=
  (GetMatchDistance d (wxS "*-*-*") (wxS "*-*-*") + 1)%Z.
Definition defaultRegionGroupDistance (d : wxLocaleData) : Z :=
  GetMatchDistance d (wxS "*-*-*") (wxS "*-*-*").
Definition defaultDemotion (d : wxLocaleData) : Z :=
  (GetMatchDistance d (wxS "en-*-*") (wxS "en-*-*") + 1)%Z.
Definition threshold (d : wxLocaleData) : Z := defaultScriptDistance d.

(** The variables of GetBestMatch that live across iterations. *)
Record MatchState : Type := mkMatchState {
  supportedLocalesIn : list wxLocaleIdent;
  supportedLocalesMax : list wxLocaleIdent;
  supportedLocalesMinDistance : list Z;
  bestDesired : Z;
  bestSupported : Z;
  bestDistance : Z;
  bestMinDistance : Z;
  directMatch : bool
}.

Definition MatchState_init : MatchState :=
  mkMatchState [] [] [] (-1) (-1) DISTANCE_INFINITY DISTANCE_INFINITY false.

Definition set_best (st : MatchState) (j k : nat) (distance minDistance : Z)
  : MatchState :=
  mkMatchState (supportedLocalesIn st) (supportedLocalesMax st)
               (supportedLocalesMinDistance st)
               (Z.of_nat j) (Z.of_nat k) distance minDistance (directMatch st).

Definition set_directMatch (st : MatchState) : MatchState :=
  mkMatchState (supportedLocalesIn st) (supportedLocalesMax st)
               (supportedLocalesMinDistance st)
               (bestDesired st) (bestSupported st) (bestDistance st)
               (bestMinDistance st) true.

(** "Determine maximized supported locale identifiers", done while [j == 0].
    RemoveLikelySubtags is called without its second argument; its default is
    declared in include/wx/uilocale.h, which is not among the sources at
    hand, and is taken to be wxSubtags_FavourRegion (here and in GetTag).
    It only enters the minimal distance that breaks ties. *)
Definition push_supported (d : wxLocaleData) (st : MatchState)
    (supported_k : wxString) : MatchState :=
  let supportedLocaleIn := FromTag d supported_k in
  let supportedLocaleMin :=
    RemoveLikelySubtags d supportedLocaleIn wxSubtags_FavourRegion in
  let minDistance := 0%Z in
  let minDistance :=
    if negb (empty (m_script supportedLocaleMin))
    then (minDistance + 1)%Z else minDistance in
  let minDistance :=
    if negb (empty (m_region supportedLocaleMin))
    then (minDistance + 1)%Z else minDistance in
  mkMatchState (supportedLocalesIn st ++ [supportedLocaleIn])
               (supportedLocalesMax st ++ [AddLikelySubtags d supportedLocaleIn])
               (supportedLocalesMinDistance st ++ [minDistance])
               (bestDesired st) (bestSupported st) (bestDistance st)
               (bestMinDistance st) (directMatch st).

(** The distance added when there is no direct match, and the minimal
    distance of the supported locale, as the body of the inner loop computes
    them from the maximized identifiers. *)
Definition match_distance (d : wxLocaleData)
    (desiredLocaleIn desiredLocaleMax supportedIn supportedMax : wxLocaleIdent)
    (distance supportedMinDistance : Z) : Z * Z :=
  let desiredLanguage := m_language desiredLocaleMax in
  let desiredScript := m_script desiredLocaleMax in
  let desiredRegion := m_region desiredLocaleMax in
  let supportedLanguage := m_language supportedMax in
  let supportedScript := m_script supportedMax in
  let supportedRegion := m_region supportedMax in
  let scriptDistance :=
    GetMatchDistance d (desiredLanguage ++ wxS "-" ++ desiredScript)
                       (supportedLanguage ++ wxS "-" ++ supportedScript) in
  let addScript (distance : Z) :=
    if negb (Z.eqb (CmpNoCase supportedScript desiredScript) 0)
    then (distance + (if (0 <=? scriptDistance)%Z then scriptDistance
                      else defaultScriptDistance d))%Z
    else distance in
  if negb (empty desiredLanguage) && negb (empty supportedLanguage) then
    if Z.eqb (CmpNoCase supportedLanguage desiredLanguage) 0 then
      let distance := addScript distance in
      let distance :=
        if negb (Z.eqb (CmpNoCase supportedRegion desiredRegion) 0)
        then (distance +
              (if SameRegionGroup d desiredLanguage desiredRegion supportedRegion
               then defaultRegionGroupDistance d else defaultRegionDistance d))%Z
        else distance in
      let supportedMinDistance :=
        if negb (Z.eqb (CmpNoCase (m_script desiredLocaleIn) (m_script supportedIn)) 0)
        then (supportedMinDistance + 1)%Z else supportedMinDistance in
      let supportedMinDistance :=
        if negb (Z.eqb (CmpNoCase (m_region desiredLocaleIn) (m_region supportedIn)) 0)
        then (supportedMinDistance + 1)%Z else supportedMinDistance in
      (distance, supportedMinDistance)
    else
      let languageDistance :=
        GetMatchDistance d desiredLanguage supportedLanguage in
      let distance :=
        (distance + (if (0 <=? languageDistance)%Z then languageDistance
                     else defaultLanguageDistance d))%Z in
      let distance := addScript distance in
      let distance :=
        if negb (Z.eqb (CmpNoCase supportedRegion desiredRegion) 0)
        then (distance + defaultRegionDistance d)%Z else distance in
      (distance, supportedMinDistance)
  else
    ((distance + (defaultLanguageDistance d + defaultScriptDistance d
                  + defaultRegionDistance d))%Z,
     supportedMinDistance).

(** One iteration of the loop over the supported languages. *)
Definition GetBestMatch_body (d : wxLocaleData) (j : nat) (desired_j : wxString)
    (desiredLocaleIn desiredLocaleMax : wxLocaleIdent)
    (k : nat) (supported_k : wxString) (st : MatchState) : MatchState :=
  let distance := (Z.of_nat j * defaultDemotion d)%Z in
  if Z.eqb (CmpNoCase desired_j supported_k) 0 then
    let st :=
      if (distance <? bestDistance st)%Z
      then set_best st j k distance (bestMinDistance st) else st in
    set_directMatch st
  else
    let distance := (distance + 1)%Z in
    let st := if j =? 0 then push_supported d st supported_k else st in
    let supportedIn := nth k (supportedLocalesIn st) wxLocaleIdent_empty in
    let supportedMax := nth k (supportedLocalesMax st) wxLocaleIdent_empty in
    let supportedMinDistance := nth k (supportedLocalesMinDistance st) 0%Z in
    let '(distance, supportedMinDistance) :=
      match_distance d desiredLocaleIn desiredLocaleMax supportedIn supportedMax
                     distance supportedMinDistance in
    if (distance <? threshold d)%Z
       && ((distance <? bestDistance st)%Z
           || ((distance =? bestDistance st)%Z
               && (supportedMinDistance <? bestMinDistance st)%Z))
    then set_best st j k distance supportedMinDistance
    else st.

(** The loop over the supported languages from index [k] on. *)
Fixpoint GetBestMatch_supported (d : wxLocaleData) (j : nat)
    (desired_j : wxString) (desiredLocaleIn desiredLocaleMax : wxLocaleIdent)
    (k : nat) (supported : list wxString) (st : MatchState) : MatchState :=
  match supported with
  | [] => st
  | supported_k :: rest =>
      if directMatch st then st
      else GetBestMatch_supported d j desired_j desiredLocaleIn desiredLocaleMax
             (S k) rest
             (GetBestMatch_body d j desired_j desiredLocaleIn desiredLocaleMax
                                k supported_k st)
  end.

(** The loop over the desired languages from index [j] on. *)
Fixpoint GetBestMatch_desired (d : wxLocaleData) (j : nat)
    (desired supported : list wxString) (st : MatchState) : MatchState :=
  match desired with
  | [] => st
  | desired_j :: rest =>
      if directMatch st then st
      else
        let desiredLocaleIn := FromTag d desired_j in
        let desiredLocaleMax := AddLikelySubtags d desiredLocaleIn in
        GetBestMatch_desired d (S j) rest supported
          (GetBestMatch_supported d j desired_j desiredLocaleIn desiredLocaleMax
                                  0 supported st)
  end.

Definition GetBestMatch (d : wxLocaleData) (desired supported : list wxString)
  : wxString :=
  let st := GetBestMatch_desired d 0 desired supported MatchState_init in
  if (0 <=? bestSupported st)%Z
  then nth (Z.to_nat (bestSupported st)) supported []
  else [].

(** A small database and tables for examples: three entries in the layout of
    the language database, the aliases [latin] and [cyrillic], likely subtags
    for a few languages, and the default distances 80, 50 and 4. *)
Definition sample_languagesDB : list wxLanguageInfo :=
  [ mkLanguageInfo 1 (wxS "en-US") (wxS "en_US") (wxS "English (U.S.)");
    mkLanguageInfo 2 (wxS "de-DE") (wxS "de_DE") (wxS "German");
    mkLanguageInfo 3 (wxS "sr-Latn-RS") (wxS "sr_RS@latin") (wxS "Serbian (Latin)") ].

Definition sample_data : wxLocaleData :=
  mkLocaleData
    sample_languagesDB
    (fun a => if wxString_eqb a (wxS "latin") then wxS "Latn"
              else if wxString_eqb a (wxS "cyrillic") then wxS "Cyrl" else [])
    (fun n => if wxString_eqb n (wxS "Latn") then wxS "latin"
              else if wxString_eqb n (wxS "Cyrl") then wxS "cyrillic" else [])
    (fun t => if wxString_eqb t (wxS "en") then wxS "en-Latn-US"
              else if wxString_eqb t (wxS "de") then wxS "de-Latn-DE"
              else if wxString_eqb t (wxS "sr") then wxS "sr-Cyrl-RS" else [])
    (fun a b => if wxString_eqb a (wxS "*") then 80%Z
                else if wxString_eqb a (wxS "*-*") then 50%Z
                else if wxString_eqb a (wxS "*-*-*") then 4%Z
                else if wxString_eqb a (wxS "en-*-*") then 5%Z
                else (-1)%Z)
    (fun _ _ _ => false)
    (fun l => m_language l).

(* ------------------------------------------------------------------------- *)
(** ** Notions used to state the properties *)
(* ------------------------------------------------------------------------- *)

(** No character of [s] is one of [chars]. *)
Definition free_of (chars s : wxString) : bool :=
  forallb (fun c => negb (Find chars c)) s.

(** The file name put together again from name and extension, as
    GetFullName does. *)
Definition name_ext (r : SplitPathResult) : wxString :=
  if sp_hasExt r then sp_name r ++ wxFILE_SEP_EXT :: sp_ext r else sp_name r.

(** The directory part for a path [d ++ t :: f] whose last terminator is
    [t]: everything before [t]; the terminator itself when nothing precedes
    it, except under wxPATH_MAC; and without its initial bracket under
    wxPATH_VMS. *)
Definition dir_part (format : wxPathFormat) (d : wxString) (t : ascii) : wxString :=
  match format with
  | wxPATH_MAC => d
  | wxPATH_VMS =>
      match (if empty d then [t] else d) with
      | "["%char :: path => path
      | path => path
      end
  | _ => if empty d then [t] else d
  end.

Definition dotdot_if_empty (token : wxString) : wxString :=
  if empty token then wxS ".." else token.

Definition nonempty (token : wxString) : bool := negb (empty token).

(** The canonical forms: two or three lower-case letters; two or three
    upper-case letters or digits; one upper-case letter followed by three
    lower-case ones. *)
Definition is_language_code (s : wxString) : bool :=
  ((length s =? 2) || (length s =? 3)) && forallb is_lower s.

Definition is_region_code (s : wxString) : bool :=
  ((length s =? 2) || (length s =? 3))
  && forallb (fun c => is_upper c || isdigit c) s.

Definition is_script_code (s : wxString) : bool :=
  match s with
  | c :: s' => (length s' =? 3) && is_upper c && forallb is_lower s'
  | [] => false
  end.

(** The shapes the setters accept. *)
Definition language_shape (arg : wxString) : bool :=
  ((length arg =? 2) || (length arg =? 3)) && only_chars arg validCharsAlpha.

Definition region_shape (arg : wxString) : bool :=
  ((length arg =? 2) || (length arg =? 3)) && only_chars arg validCharsAlnum.

Definition script_shape (arg : wxString) : bool :=
  (length arg =? 4) && only_chars arg validCharsAlpha.

(** The index of the best match is none (-1) or an index of [supported]. *)
Definition best_in_range (n : nat) (st : MatchState) : Prop :=
  bestSupported st = (-1)%Z \/ (0 <= bestSupported st < Z.of_nat n)%Z.

(** While the first desired tag is compared with supported tags it does not
    match, no direct match is recorded and the best distance stays positive. *)
Definition no_match_yet (st : MatchState) : Prop :=
  directMatch st = false /\ (0 < bestDistance st)%Z.

(** Strings of letters and digits. *)
Definition plain (s : wxString) : bool := forallb (Find validCharsAlnum) s.

(** The three fields of an identifier that the claim is about. *)
Definition main_fields (l : wxLocaleIdent) : wxString * wxString * wxString :=
  (m_language l, m_script l, m_region l).

(* ------------------------------------------------------------------------- *)
(** ** SetFullName *)
(* ------------------------------------------------------------------------- *)

(** [SetFullName(fullname)]: SplitPath is called without a format, that is
    with wxPATH_NATIVE, and without the volume and path out-parameters. *)
Definition SetFullName (p : wxPlatform) (fn : wxFileName) (fullname : wxString)
  : wxFileName :=
  let r := SplitPath p fullname wxPATH_NATIVE in
  mkFileName (m_volume fn) (m_dirs fn) (sp_name r) (sp_ext r) (m_relative fn)
             (sp_hasExt r) (m_dontFollowLinks fn).

(** A last path component cut at its last dot, unless that dot is its first
    character: the name, the extension and whether there is one. *)
Definition split_ext (f : wxString) : wxString * wxString * bool :=
  match find_last_of f [wxFILE_SEP_EXT] with
  | Some (S k) => (firstn (S k) f, skipn (S (S k)) f, true)
  | _ => (f, [], false)
  end.
(** [rest] is [pre] followed by its last component [f]: [f] holds no
    terminator, and [pre] is empty or ends with one. *)
Definition last_component (terms rest pre f : wxString) : Prop :=
  rest = pre ++ f /\ free_of terms f = true
  /\ (pre = [] \/ exists d t, pre = d ++ [t] /\ Find terms t = true).

(* ------------------------------------------------------------------------- *)
(** ** GetVolumeString *)
(* ------------------------------------------------------------------------- *)

(** The static [GetVolumeString(drive, flags)].  It is compiled only where
    wxHAS_FILESYSTEM_VOLUMES is defined, which is the Windows build, where
    wxFILE_SEP_PATH is the backslash. *)
Definition GetVolumeString (drive : ascii) (flags : Z) : wxString :=
  let vol := [drive] ++ [wxFILE_SEP_DSK] in
  if has_flag flags wxPATH_GET_SEPARATOR then vol ++ [wxFILE_SEP_PATH_DOS]
  else vol.

(* ------------------------------------------------------------------------- *)
(** ** Objects that the Unix format writes and reads back *)
(* ------------------------------------------------------------------------- *)

(** The tokenizer cuts the string at the delimiters: its non-empty tokens are
    the non-empty fields of the string, in order.  Every mode of
    wxStringTokenizer that does not return the delimiters does so. *)
Definition tokenizer_fields (env : wxEnv) : Prop :=
  forall str delims,
    filter nonempty (wxStringTokenizer env str delims)
    = filter nonempty (fields_of delims str []).

(** A directory component that a path of the format can hold: not empty and
    free of the separators. *)
Definition dir_component_ok (seps : wxString) (dir : wxString) : bool :=
  negb (empty dir) && free_of seps dir.

(** An object as the Unix format can write it and read it back: no volume,
    directory components and a full name free of slashes, and name and
    extension being those its full name is cut into. *)
Definition unix_wellformed (fn : wxFileName) : Prop :=
  m_volume fn = []
  /\ forallb (dir_component_ok [wxFILE_SEP_PATH_UNIX]) (m_dirs fn) = true
  /\ free_of [wxFILE_SEP_PATH_UNIX] (GetFullName fn) = true
  /\ split_ext (GetFullName fn) = (m_name fn, m_ext fn, m_hasExt fn).

(* ------------------------------------------------------------------------- *)
(** ** File URLs *)
(* ------------------------------------------------------------------------- *)

(** The characters that EscapeFileNameCharsInURL leaves as they are, besides
    letters and digits: those of RFC 1738, with the slash and the colon. *)
Definition url_plain_chars : wxString := wxS "/:$-_.+!*'(),".

Definition url_unescaped (c : ascii) : bool :=
  isdigit c || is_lower c || is_upper c || Find url_plain_chars c.

(** A hexadecimal digit as the conversion [x] of printf writes it. *)
Definition hex_digit (n : nat) : ascii :=
  nth n (wxS "0123456789abcdef") wxUniChar_NUL.

(** [EscapeFileNameCharsInURL(in)]; [in] is a C string, which the loop reads
    up to its terminating NUL.  Another byte [c] is appended as
    [wxString::Format("%%%02x", c)]: a percent sign and two hexadecimal
    digits. *)
Fixpoint EscapeFileNameCharsInURL (in_ : wxString) : wxString :=
  match in_ with
  | [] => []
  | c :: p =>
      if Ascii.eqb c wxUniChar_NUL then []
      else if url_unescaped c then c :: EscapeFileNameCharsInURL p
      else "%"%char :: hex_digit (nat_of_ascii c / 16)
                    :: hex_digit (nat_of_ascii c mod 16)
                    :: EscapeFileNameCharsInURL p
  end.

(* ------------------------------------------------------------------------- *)
(** ** File times of the Windows build *)
(* ------------------------------------------------------------------------- *)

(** The value of a signed 64-bit integer after an operation whose
    mathematical result is [z]. *)
Definition wrap64 (z : Z) : Z := ((z + 2 ^ 63) mod 2 ^ 64 - 2 ^ 63)%Z.

(** A Win32 FILETIME: two 32-bit unsigned halves of a count of
    100-nanosecond intervals since January 1, 1601 UTC. *)
Record FILETIME : Type := mkFILETIME {
  dwLowDateTime : Z;
  dwHighDateTime : Z
}.

Definition EPOCH_OFFSET_IN_MSEC : Z := 11644473600000.

(** [wxLongLong(hi, lo)], [GetHi()] and [GetLo()] (include/wx/longlong.h, not
    among the sources at hand): the 64-bit signed integer with these two
    halves, and its halves stored back into 32-bit unsigned fields. *)
Definition wxLongLong_of (hi lo : Z) : Z := wrap64 (hi * 2 ^ 32 + lo)%Z.
Definition GetHi (t : Z) : Z := ((t / 2 ^ 32) mod 2 ^ 32)%Z.
Definition GetLo (t : Z) : Z := (t mod 2 ^ 32)%Z.

(** [ConvertFileTimeToWx(dt, ft)] of the Windows build; a wxDateTime is its
    value, a count of milliseconds since the Unix epoch. *)
Definition ConvertFileTimeToWx (ft : FILETIME) : Z :=
  let t := wxLongLong_of (dwHighDateTime ft) (dwLowDateTime ft) in
  let t := Z.quot t 10000 in
  let t := wrap64 (t - EPOCH_OFFSET_IN_MSEC) in
  t.

(** [ConvertWxToFileTime(ft, dt)] of the Windows build. *)
Definition ConvertWxToFileTime (dt : Z) : FILETIME :=
  let t := dt in
  let t := wrap64 (t + EPOCH_OFFSET_IN_MSEC) in
  let t := wrap64 (t * 10000) in
  mkFILETIME (GetLo t) (GetHi t).

(* ------------------------------------------------------------------------- *)
(** ** Notions for the likely subtags *)
(* ------------------------------------------------------------------------- *)

(** The table of likely subtags as the comments of AddLikelySubtags describe
    it ("Matches always consist of a combination of language, script, and
    region"): an entry is empty (no match) or has three subtags, the second
    a script code and the third a region code, neither of them the code for
    "unknown". *)
Definition likely_subtags_ok (d : wxLocaleData) : Prop :=
  forall key,
    GetLikelySubtags d key = []
    \/ exists language script region,
         wxSplit (GetLikelySubtags d key) "-"%char = [language; script; region]
         /\ is_script_code script = true /\ script <> wxS "Zzzz"
         /\ is_region_code region = true /\ region <> wxS "ZZ".

(** Script and region are set, and are not the codes for "unknown". *)
Definition complete_ident (l : wxLocaleIdent) : Prop :=
  m_script l <> [] /\ m_script l <> wxS "Zzzz"
  /\ m_region l <> [] /\ m_region l <> wxS "ZZ".

(** The fields as the setters leave them: a language code, and a script
    code and a region code or nothing. *)
Definition canonical_ident (l : wxLocaleIdent) : Prop :=
  is_language_code (m_language l) = true
  /\ (m_script l = [] \/ is_script_code (m_script l) = true)
  /\ (m_region l = [] \/ is_region_code (m_region l) = true).

(* ------------------------------------------------------------------------- *)
(** ** FindLanguageInfo(const wxLocaleIdent&) *)
(* ------------------------------------------------------------------------- *)

(** The loop of [FindLanguageInfo(const wxLocaleIdent&)] over the language
    database; [infoRet] is the match on the language found so far. *)
Fixpoint FindLanguageInfo_ident_loop (localeTag lang : wxString)
    (db : list wxLanguageInfo) (infoRet : option wxLanguageInfo)
  : option wxLanguageInfo :=
  match db with
  | [] => infoRet
  | info :: db' =>
      if wxStricmp_eq localeTag (LocaleTag info) then Some info
      else
        let infoRet :=
          if wxStricmp_eq lang (fst (BeforeFirst (LocaleTag info) "-"%char))
          then match infoRet with None => Some info | Some _ => infoRet end
          else infoRet in
        FindLanguageInfo_ident_loop localeTag lang db' infoRet
  end.

Definition FindLanguageInfo_ident (d : wxLocaleData) (locId : wxLocaleIdent)
  : option wxLanguageInfo :=
  if IsEmpty locId then None
  else
    let lang := m_language locId in
    let localeTag := GetTag d locId wxLOCALE_TAGTYPE_BCP47 in
    let '(lang, localeTag) :=
      if IsDefaultCLocale lang then (wxS "en", wxS "en-US")
      else (lang, localeTag) in
    FindLanguageInfo_ident_loop localeTag lang (languagesDB d) None.

(** The two kinds of match of [FindLanguageInfo(const wxString&)]: on the
    whole locale (its canonical name, or its description with the region)
    and on the language alone. *)
Definition exact_match (locale language : wxString) (info : wxLanguageInfo) : bool :=
  wxStricmp_eq locale (CanonicalName info)
  || wxStricmp_eq language (Description info).

Definition language_match (locale languageOnly : wxString) (info : wxLanguageInfo)
  : bool :=
  wxStricmp_eq locale (fst (BeforeFirst (CanonicalName info) "_"%char))
  || wxStricmp_eq languageOnly (Description info).

(** The same for [FindLanguageInfo(const wxLocaleIdent&)], on the tags. *)
Definition tag_match (localeTag : wxString) (info : wxLanguageInfo) : bool :=
  wxStricmp_eq localeTag (LocaleTag info).

Definition tag_language_match (lang : wxString) (info : wxLanguageInfo) : bool :=
  wxStricmp_eq lang (fst (BeforeFirst (LocaleTag info) "-"%char)).

(** The first exact match of a list if there is one, the first match on the
    language otherwise. *)
Definition first_match (exact partial : wxLanguageInfo -> bool)
    (db : list wxLanguageInfo) : option wxLanguageInfo :=
  match List.find exact db with
  | Some info => Some info
  | None => List.find partial db
  end.

(* ------------------------------------------------------------------------- *)
(** ** RemoveTrailingSeparatorsFromPath *)
(* ------------------------------------------------------------------------- *)

(** [find_last_not_of(chars)]. *)
Fixpoint find_last_not_of_at (s chars : wxString) (i : nat) : option nat :=
  match s with
  | [] => None
  | c :: s' =>
      match find_last_not_of_at s' chars (S i) with
      | Some j => Some j
      | None => if Find chars c then None else Some i
      end
  end.

Definition find_last_not_of (s chars : wxString) : option nat :=
  find_last_not_of_at s chars 0.

(** [find_last_of(chars, nStart)]: the search goes backwards from the
    position [nStart], from the end of the string when it is [npos]. *)
Definition find_last_of_from (s chars : wxString) (nStart : option nat)
  : option nat :=
  match nStart with
  | None => find_last_of s chars
  | Some n => find_last_of (firstn (S n) s) chars
  end.

(** [RemoveTrailingSeparatorsFromPath(strPath)] of the Windows build, as the
    new value of its argument; [erase(pos)] keeps the first [pos]
    characters. *)
Definition RemoveTrailingSeparatorsFromPath (strPath : wxString) : wxString :=
  if empty strPath then strPath
  else
    let lastNonSeparator := find_last_not_of strPath (wxS "\/") in
    let firstTrailingSeparator :=
      match lastNonSeparator with None => 0 | Some n => n + 1 end in
    if firstTrailingSeparator =? length strPath then strPath
    else
      let lastButOneSeparator :=
        find_last_of_from strPath (wxS "\/") lastNonSeparator in
      if match lastButOneSeparator with
         | None => true
         | Some n =>
             ((n =? wxMSW_EXTENDED_PATH_PREFIX_LEN - 1)
              && StartsWith strPath wxMSW_EXTENDED_PATH_PREFIX)
             || ((n =? 1) && IsUNCPath strPath)
         end
      then firstn (firstTrailingSeparator + 1) strPath
      else firstn firstTrailingSeparator strPath.

(** A string without trailing separator: empty, or ending with another
    character. *)
Definition no_trailing_separator (s : wxString) : Prop :=
  s = [] \/ exists s0 x, s = s0 ++ [x] /\ IsDOSPathSep x = false.

(** Whether one of the separators that follow [core] is kept: when [core]
    holds no other separator, or when its last separator closes the prefix of
    an extended-length path or is the second one of a UNC path. *)
Definition keeps_one_separator (core : wxString) : bool :=
  match core with
  | [] => false
  | _ :: _ =>
      match find_last_of core (wxS "\/") with
      | None => true
      | Some n =>
          ((n =? wxMSW_EXTENDED_PATH_PREFIX_LEN - 1)
           && StartsWith core wxMSW_EXTENDED_PATH_PREFIX)
          || ((n =? 1) && IsUNCPath core)
      end
  end.

(* ------------------------------------------------------------------------- *)
(** ** GetTempDir *)
(* ------------------------------------------------------------------------- *)

(** [CheckIfDirExists(dir)]; [DirExists] asks the file system. *)
Definition CheckIfDirExists (DirExists : wxString -> bool) (dir : wxString)
  : wxString :=
  if DirExists dir then dir else [].

(** [GetTempDir()].  The environment ([wxGetenv], which gives the empty
    string for a variable that is not set), the file system ([DirExists]) and
    the Win32 call [GetTempPath] are parameters, and so is whether
    [__UNIX_LIKE__] is defined. *)
Definition GetTempDir (p : wxPlatform) (unix_like : bool)
    (wxGetenv : wxString -> wxString) (DirExists : wxString -> bool)
    (GetTempPath : wxString) : wxString :=
  let dir := CheckIfDirExists DirExists (wxGetenv (wxS "TMPDIR")) in
  let dir :=
    if empty dir then
      let dir := CheckIfDirExists DirExists (wxGetenv (wxS "TMP")) in
      if empty dir then CheckIfDirExists DirExists (wxGetenv (wxS "TEMP"))
      else dir
    else dir in
  let dir :=
    if empty dir then
      match p with
      | Platform_WINDOWS => GetTempPath
      | _ => dir
      end
    else dir in
  if negb (empty dir) then
    match find_last_not_of dir (GetPathSeparators p wxPATH_NATIVE) with
    | None => [GetPathSeparator p wxPATH_NATIVE]
    | Some lastNonSep => firstn (lastNonSep + 1) dir
    end
  else
    let dir := if unix_like then CheckIfDirExists DirExists (wxS "/tmp") else dir in
    if empty dir then wxS "." else dir.

(* ------------------------------------------------------------------------- *)
(** ** The directory components of an object *)
(* ------------------------------------------------------------------------- *)

(** The loop of IsValidDirComponent over the characters: none may be the
    volume separator or a path separator of the native format. *)
Fixpoint IsValidDirComponent_chars (p : wxPlatform) (dir : wxString) : bool :=
  match dir with
  | [] => true
  | c :: rest =>
      if wxString_eqb [c] (GetVolumeSeparator p wxPATH_NATIVE)
         || IsPathSeparator p c wxPATH_NATIVE
      then false
      else IsValidDirComponent_chars p rest
  end.

Definition IsValidDirComponent (p : wxPlatform) (dir : wxString) : bool :=
  if empty dir then false else IsValidDirComponent_chars p dir.

(** [AppendDir(dir)]: the value returned and the object afterwards. *)
Definition AppendDir (p : wxPlatform) (fn : wxFileName) (dir : wxString)
  : bool * wxFileName :=
  if negb (IsValidDirComponent p dir) then (false, fn)
  else (true, set_dirs fn (m_dirs fn ++ [dir])).

(** [InsertDir(before, dir)], for an index [before] of the array or its
    size (wxArrayString::Insert, which is not among the sources at hand,
    refuses any other). *)
Definition InsertDir (p : wxPlatform) (fn : wxFileName) (before : nat)
    (dir : wxString) : bool * wxFileName :=
  if negb (IsValidDirComponent p dir) then (false, fn)
  else (true, set_dirs fn (firstn before (m_dirs fn) ++ dir :: skipn before (m_dirs fn))).

Definition PrependDir (p : wxPlatform) (fn : wxFileName) (dir : wxString)
  : wxFileName :=
  snd (InsertDir p fn 0 dir).

(** [RemoveDir(pos)], for an index [pos] of the array. *)
Definition RemoveDir (fn : wxFileName) (pos : nat) : wxFileName :=
  set_dirs fn (firstn pos (m_dirs fn) ++ skipn (S pos) (m_dirs fn)).


(* ------------------------------------------------------------------------- *)
(** ** The dot that starts the extension *)
(* ------------------------------------------------------------------------- *)


(* ------------------------------------------------------------------------- *)
(** ** The directory put in front by Normalize *)
(* ------------------------------------------------------------------------- *)



Example SplitPath_unix_1 :
  SplitPath Platform_UNIX (wxS "/home/user/a.tar.gz") wxPATH_UNIX
  = mkSplit [] (wxS "/home/user") (wxS "a.tar") (wxS "gz") true.
Proof. reflexivity. Qed.

Example SplitPath_unix_2 :
  SplitPath Platform_UNIX (wxS "/home/.bashrc") wxPATH_NATIVE
  = mkSplit [] (wxS "/home") (wxS ".bashrc") [] false.
Proof. reflexivity. Qed.

Example SplitPath_unix_3 :
  SplitPath Platform_UNIX (wxS "/foo.") wxPATH_NATIVE
  = mkSplit [] (wxS "/") (wxS "foo") [] true.
Proof. reflexivity. Qed.

Example SplitPath_dos_1 :
  SplitPath Platform_WINDOWS (wxS "c:\dir\file.txt") wxPATH_NATIVE
  = mkSplit (wxS "c") (wxS "\dir") (wxS "file") (wxS "txt") true.
Proof. reflexivity. Qed.

Example DoSetPath_mac :
  m_dirs (SetPath unix_env Clear (wxS ":a::b:c") wxPATH_MAC)
  = [wxS "a"; wxS ".."; wxS "b"; wxS "c"].
Proof. reflexivity. Qed.

Example DoSetPath_unix :
  m_dirs (SetPath unix_env Clear (wxS "/a//b/c") wxPATH_UNIX)
  = [wxS "a"; wxS "b"; wxS "c"].
Proof. reflexivity. Qed.

Example MakeRelativeTo_unix :
  MakeRelativeTo unix_env (Assign unix_env Clear (wxS "/usr/lib/x/y.so") wxPATH_UNIX)
                 (wxS "/usr/share") wxPATH_UNIX
  = (true, mkFileName [] [wxS ".."; wxS "lib"; wxS "x"] (wxS "y") (wxS "so")
                      true true false).
Proof. reflexivity. Qed.

Example FromTag_zh :
  FromTag sample_data (wxS "zh-hans-cn")
  = mkLocaleIdent (wxS "zh") (wxS "CN") (wxS "Hans") [] [] [] [] (wxS "zh-hans-cn").
Proof. reflexivity. Qed.

Example FromTag_posix :
  FromTag sample_data (wxS "sr_RS.UTF-8@latin")
  = mkLocaleIdent (wxS "sr") (wxS "RS") (wxS "Latn") [] (wxS "UTF-8") [] []
                  (wxS "sr_RS.UTF-8@latin").
Proof. reflexivity. Qed.

Example GetBestMatch_direct :
  GetBestMatch sample_data [wxS "de-de"] [wxS "en-US"; wxS "de"; wxS "de-DE"]
  = wxS "de-DE".
Proof. reflexivity. Qed.

(* ------------------------------------------------------------------------- *)
(** ** Facts about the string searches *)
(* ------------------------------------------------------------------------- *)

Lemma firstn_length_app {A} (a b : list A) : firstn (length a) (a ++ b) = a.
Proof.
  induction a as [|x a IH]; simpl.
  - now destruct b.
  - now rewrite IH.
Qed.

Lemma skipn_length_app {A} (a b : list A) : skipn (length a) (a ++ b) = b.
Proof. induction a as [|x a IH]; simpl; auto. Qed.

Lemma find_first_of_at_free s chars i :
  free_of chars s = true -> find_first_of_at s chars i = None.
Proof.
  revert i; induction s as [|c s IH]; intros i H; simpl in *; auto.
  apply andb_prop in H as [Hc Hs].
  apply negb_true_iff in Hc. rewrite Hc. now apply IH.
Qed.

Lemma find_first_of_at_hit a t b chars i :
  free_of chars a = true -> Find chars t = true ->
  find_first_of_at (a ++ t :: b) chars i = Some (i + length a).
Proof.
  revert i; induction a as [|c a IH]; intros i Ha Ht; simpl in *.
  - rewrite Ht. f_equal. lia.
  - apply andb_prop in Ha as [Hc Ha]. apply negb_true_iff in Hc.
    rewrite Hc, IH by assumption. f_equal. lia.
Qed.

Lemma find_last_of_at_free s chars i :
  free_of chars s = true -> find_last_of_at s chars i = None.
Proof.
  revert i; induction s as [|c s IH]; intros i H; simpl in *; auto.
  apply andb_prop in H as [Hc Hs]. apply negb_true_iff in Hc.
  now rewrite IH, Hc.
Qed.

Lemma find_last_of_at_hit a t b chars i :
  Find chars t = true -> free_of chars b = true ->
  find_last_of_at (a ++ t :: b) chars i = Some (i + length a).
Proof.
  revert i; induction a as [|c a IH]; intros i Ht Hb; simpl.
  - rewrite find_last_of_at_free, Ht by assumption. f_equal. lia.
  - rewrite IH by assumption. f_equal. lia.
Qed.

Lemma find_last_of_at_none s chars i :
  find_last_of_at s chars i = None -> free_of chars s = true.
Proof.
  revert i; induction s as [|c s IH]; intros i H; simpl in *; auto.
  destruct (find_last_of_at s chars (S i)) eqn:E; [discriminate|].
  destruct (Find chars c) eqn:Ec; [discriminate|].
  simpl. eauto.
Qed.

(** A successful [find_last_of] cuts the string in three. *)
Lemma find_last_of_at_some s chars i j :
  find_last_of_at s chars i = Some j ->
  exists a t b, s = a ++ t :: b /\ j = i + length a
                /\ Find chars t = true /\ free_of chars b = true.
Proof.
  revert i j; induction s as [|c s IH]; intros i j H; simpl in *; [discriminate|].
  destruct (find_last_of_at s chars (S i)) eqn:E.
  - inversion H; subst. destruct (IH _ _ E) as (a & t & b & -> & -> & Ht & Hb).
    exists (c :: a), t, b. simpl. repeat split; auto; lia.
  - destruct (Find chars c) eqn:Ec; [|discriminate]. inversion H; subst.
    exists [], c, s. simpl. repeat split; auto; try lia.
    eapply find_last_of_at_none; eauto.
Qed.

Lemma free_of_app chars a b :
  free_of chars (a ++ b) = free_of chars a && free_of chars b.
Proof. apply forallb_app. Qed.

Lemma wxString_eqb_eq a b : wxString_eqb a b = true <-> a = b.
Proof.
  revert b; induction a as [|x a IH]; intros [|y b]; simpl; split; intro H;
    try discriminate; auto.
  - apply andb_prop in H as [H1 H2]. apply Ascii.eqb_eq in H1.
    apply IH in H2. now subst.
  - inversion H; subst. rewrite Ascii.eqb_refl. simpl. now apply IH.
Qed.

Lemma wxString_eqb_refl a : wxString_eqb a a = true.
Proof. now apply wxString_eqb_eq. Qed.

(* ------------------------------------------------------------------------- *)
(** ** SplitVolume on UNC paths *)
(* ------------------------------------------------------------------------- *)

Lemma GetPathTerminators_DOS p c :
  Find (GetPathTerminators p wxPATH_DOS) c = IsDOSPathSep c.
Proof.
  unfold GetPathTerminators, GetPathSeparators, IsDOSPathSep, Find; simpl.
  now rewrite orb_false_r.
Qed.

Lemma free_of_DOS p s :
  free_of (GetPathTerminators p wxPATH_DOS) s
  = forallb (fun c => negb (IsDOSPathSep c)) s.
Proof.
  unfold free_of. induction s as [|c s IH]; [reflexivity|].
  cbn [forallb]. now rewrite GetPathTerminators_DOS, IH.
Qed.

(** C4, as amended.  Under wxPATH_DOS, for a path that starts with two
    slashes or backslashes followed by a non-empty share name free of
    separators, and that does not start with the extended-length prefix
    (backslash, backslash, question mark, backslash): when a separator
    follows the share name, the volume is the two leading characters turned
    into backslashes followed by the share name, and the path is the rest
    from that separator on; when nothing follows, the whole string (with its
    first two characters turned into backslashes) is the volume and the path
    is empty. *)
Theorem SplitVolume_UNC (p : wxPlatform) (c0 c1 : ascii) (share tail : wxString) :
  IsDOSPathSep c0 = true ->
  IsDOSPathSep c1 = true ->
  share <> [] ->
  forallb (fun c => negb (IsDOSPathSep c)) share = true ->
  (tail = [] \/ exists s t, tail = s :: t /\ IsDOSPathSep s = true) ->
  StartsWith (c0 :: c1 :: share ++ tail) wxMSW_EXTENDED_PATH_PREFIX = false ->
  IsUNCPath (c0 :: c1 :: share ++ tail) = true
  /\ SplitVolume p (c0 :: c1 :: share ++ tail) wxPATH_DOS
     = (wxFILE_SEP_PATH_DOS :: wxFILE_SEP_PATH_DOS :: share, tail).
Proof.
  intros H0 H1 Hne Hshare Htail Hext.
  destruct share as [|x share]; [congruence|]. simpl in Hshare.
  apply andb_prop in Hshare as [Hx Hshare].
  assert (Hunc : IsUNCPath (c0 :: c1 :: (x :: share) ++ tail) = true).
  { unfold IsUNCPath, at_. simpl. now rewrite H0, H1, Hx. }
  split; [exact Hunc|].
  unfold SplitVolume. replace (GetFormat p wxPATH_DOS) with wxPATH_DOS by reflexivity.
  rewrite Hext, Hunc.
  unfold find_first_of. change (skipn 3 (c0 :: c1 :: (x :: share) ++ tail))
    with (share ++ tail).
  destruct Htail as [-> | (s & t & -> & Hs)].
  - rewrite find_first_of_at_free.
    + now rewrite !app_nil_r.
    + rewrite app_nil_r, free_of_DOS. exact Hshare.
  - rewrite find_first_of_at_hit.
    + unfold Left, Mid.
      change (3 + length share) with (length (c0 :: c1 :: x :: share)).
      change (c0 :: c1 :: (x :: share) ++ s :: t)
        with ((c0 :: c1 :: x :: share) ++ s :: t).
      now rewrite firstn_length_app, skipn_length_app.
    + rewrite free_of_DOS. exact Hshare.
    + now rewrite GetPathTerminators_DOS.
Qed.

(** A share directly followed by a directory, written with slashes. *)
Lemma SplitVolume_UNC_witness :
  IsUNCPath (wxS "//share/dir/f") = true
  /\ SplitVolume Platform_WINDOWS (wxS "//share/dir/f") wxPATH_DOS
     = (wxS "\\share", wxS "/dir/f").
Proof.
  apply (SplitVolume_UNC Platform_WINDOWS "/"%char "/"%char (wxS "share")
                         (wxS "/dir/f")).
  - reflexivity.
  - reflexivity.
  - discriminate.
  - reflexivity.
  - right. exists "/"%char, (wxS "dir/f"). split; reflexivity.
  - reflexivity.
Defined.

(** C4 as stated fails on extended-length paths: the path below starts with
    two backslashes and its third character is not a separator, so it is a
    UNC path in the sense of the claim, and the first separator after the
    share name [?] is at index 3; but the volume returned runs up to the
    separator after [C:], not up to index 3. *)
Lemma SplitVolume_UNC_extended_counterexample :
  IsUNCPath (wxS "\\?\C:\dir") = true
  /\ find_first_of (wxS "\\?\C:\dir")
                   (GetPathTerminators Platform_WINDOWS wxPATH_DOS) 3 = Some 3
  /\ SplitVolume Platform_WINDOWS (wxS "\\?\C:\dir") wxPATH_DOS
     = (wxS "\\?\C:", wxS "\dir")
  /\ SplitVolume Platform_WINDOWS (wxS "\\?\C:\dir") wxPATH_DOS
     <> (wxS "\\?", wxS "\C:\dir").
Proof. repeat split; try reflexivity. discriminate. Qed.

(* ------------------------------------------------------------------------- *)
(** ** SplitPath: the decomposition *)
(* ------------------------------------------------------------------------- *)

Lemma app_cons_split {A} (d a : list A) (t c : A) (f b : list A) :
  d ++ t :: f = a ++ c :: b -> length d <= length a ->
  (d = a /\ t = c /\ f = b) \/ (exists a', a = d ++ t :: a' /\ f = a' ++ c :: b).
Proof.
  revert a; induction d as [|x d IH]; intros a H Hlen; simpl in *.
  - destruct a as [|y a]; simpl in *.
    + inversion H; subst. now left.
    + inversion H; subst. right. now exists a.
  - destruct a as [|y a]; simpl in *; [lia|].
    inversion H; subst.
    destruct (IH a H2 ltac:(lia)) as [(-> & -> & ->) | (a' & -> & ->)].
    + now left.
    + right. now exists a'.
Qed.

Lemma terminators_no_dot p format0 :
  Find (GetPathTerminators p (GetFormat p format0)) wxFILE_SEP_EXT = false.
Proof. destruct p, format0; reflexivity. Qed.

(** What SplitPath knows about the dot it keeps: it is the last dot of the
    string and does not lie before the last terminator. *)
Lemma SplitPath_posLastDot_some p rest format posLastSlash dpos :
  SplitPath_posLastDot p rest format posLastSlash = Some dpos ->
  exists a b, rest = a ++ wxFILE_SEP_EXT :: b /\ dpos = length a
              /\ free_of [wxFILE_SEP_EXT] b = true
              /\ (forall s, posLastSlash = Some s -> s <= dpos).
Proof.
  unfold SplitPath_posLastDot, find_last_of.
  destruct (find_last_of_at rest [wxFILE_SEP_EXT] 0) as [d0|] eqn:E.
  - destruct (find_last_of_at_some _ _ _ _ E) as (a & t & b & -> & -> & Ht & Hb).
    unfold Find in Ht. simpl in Ht. rewrite orb_false_r in Ht.
    apply Ascii.eqb_eq in Ht. subst t. simpl.
    match goal with |- context [if ?c then None else Some _] => destruct c end.
    + destruct posLastSlash; discriminate.
    + destruct posLastSlash as [s|]; intros H.
      * destruct (length a <? s) eqn:Hlt; [discriminate|]. inversion H; subst.
        exists a, b. repeat split; auto. intros s' Hs'. inversion Hs'; subst.
        apply Nat.ltb_ge in Hlt. exact Hlt.
      * inversion H; subst. exists a, b. repeat split; auto. discriminate.
  - destruct posLastSlash; discriminate.
Qed.

Lemma SplitPath_unfold p fullpath format0 :
  SplitPath p fullpath format0 =
  let format := GetFormat p format0 in
  let volume := fst (SplitVolume p fullpath format) in
  let rest := snd (SplitVolume p fullpath format) in
  let posLastSlash := find_last_of rest (GetPathTerminators p format) in
  let posLastDot := SplitPath_posLastDot p rest format posLastSlash in
  let path :=
    match posLastSlash with
    | None => []
    | Some s =>
        let len :=
          if (s =? 0) && negb (wxPathFormat_eqb format wxPATH_MAC)
          then S s else s in
        let path := Left rest len in
        if wxPathFormat_eqb format wxPATH_VMS
           && Ascii.eqb (at_ path 0) "["%char
        then skipn 1 path else path
    end in
  let nStart := match posLastSlash with None => 0 | Some s => s + 1 end in
  let count :=
    match posLastDot, posLastSlash with
    | None, _ => None
    | Some d, None => Some d
    | Some d, Some s => Some (d - s - 1)
    end in
  let name := Mid rest nStart count in
  match posLastDot with
  | None => mkSplit volume path name [] false
  | Some d => mkSplit volume path name (Mid rest (d + 1) None) true
  end.
Proof.
  unfold SplitPath.
  destruct (SplitVolume p fullpath (GetFormat p format0)) as [volume rest].
  reflexivity.
Qed.

(** The name and the extension, given where the last terminator is. *)
Lemma SplitPath_name_ext p rest format posLastSlash f :
  f = skipn (match posLastSlash with None => 0 | Some s => s + 1 end) rest ->
  (forall s, posLastSlash = Some s ->
             exists d t, rest = d ++ t :: f /\ length d = s /\ t <> wxFILE_SEP_EXT) ->
  let posLastDot := SplitPath_posLastDot p rest format posLastSlash in
  let count :=
    match posLastDot, posLastSlash with
    | None, _ => None
    | Some d, None => Some d
    | Some d, Some s => Some (d - s - 1)
    end in
  let name := Mid rest (match posLastSlash with None => 0 | Some s => s + 1 end)
                  count in
  match posLastDot with
  | None => name = f
  | Some d => name ++ wxFILE_SEP_EXT :: Mid rest (d + 1) None = f
  end.
Proof.
  intros Hf Hslash. cbv zeta.
  destruct (SplitPath_posLastDot p rest format posLastSlash) as [dpos|] eqn:E.
  - destruct (SplitPath_posLastDot_some _ _ _ _ _ E)
      as (a & b & Hrest & -> & Hb & Hle).
    destruct posLastSlash as [s|].
    + destruct (Hslash s eq_refl) as (d & t & Hrest' & Hd & Ht).
      specialize (Hle s eq_refl). subst s.
      rewrite Hrest in Hrest'. symmetry in Hrest'.
      destruct (app_cons_split _ _ _ _ _ _ Hrest' Hle)
        as [(_ & Heq & _) | (a' & -> & Hf')]; [contradiction|].
      unfold Mid. rewrite Hrest.
      replace (length d + 1) with (length (d ++ [t])) by (rewrite length_app; reflexivity).
      replace ((d ++ t :: a') ++ wxFILE_SEP_EXT :: b)
        with ((d ++ [t]) ++ a' ++ wxFILE_SEP_EXT :: b)
        by (rewrite <- !app_assoc; reflexivity).
      rewrite skipn_length_app.
      replace (length (d ++ t :: a') - length d - 1) with (length a')
        by (rewrite length_app; simpl; lia).
      rewrite firstn_length_app.
      replace (length (d ++ t :: a') + 1)
        with (length ((d ++ [t]) ++ a' ++ [wxFILE_SEP_EXT]))
        by (rewrite !length_app; simpl; lia).
      replace ((d ++ [t]) ++ a' ++ wxFILE_SEP_EXT :: b)
        with (((d ++ [t]) ++ a' ++ [wxFILE_SEP_EXT]) ++ b)
        by (rewrite <- !app_assoc; reflexivity).
      rewrite skipn_length_app. symmetry. exact Hf'.
    + simpl in Hf. subst f. unfold Mid. simpl. rewrite Hrest.
      rewrite firstn_length_app.
      replace (length a + 1) with (length (a ++ [wxFILE_SEP_EXT]))
        by (rewrite length_app; reflexivity).
      replace (a ++ wxFILE_SEP_EXT :: b) with ((a ++ [wxFILE_SEP_EXT]) ++ b)
        by (rewrite <- app_assoc; reflexivity).
      rewrite skipn_length_app, <- app_assoc. reflexivity.
  - destruct posLastSlash; unfold Mid; symmetry; exact Hf.
Qed.

(** The extension holds no dot, and is empty when there is none. *)
Lemma SplitPath_ext p rest format posLastSlash :
  match SplitPath_posLastDot p rest format posLastSlash with
  | Some d => free_of [wxFILE_SEP_EXT] (Mid rest (d + 1) None) = true
  | None => True
  end.
Proof.
  destruct (SplitPath_posLastDot p rest format posLastSlash) as [dpos|] eqn:E; auto.
  destruct (SplitPath_posLastDot_some _ _ _ _ _ E) as (a & b & -> & -> & Hb & _).
  unfold Mid.
  replace (length a + 1) with (length (a ++ [wxFILE_SEP_EXT]))
    by (rewrite length_app; reflexivity).
  replace (a ++ wxFILE_SEP_EXT :: b) with ((a ++ [wxFILE_SEP_EXT]) ++ b)
    by (rewrite <- app_assoc; reflexivity).
  now rewrite skipn_length_app.
Qed.

Lemma SplitPath_dir p format0 d t f :
  let format := GetFormat p format0 in
  let len :=
    if (length d =? 0) && negb (wxPathFormat_eqb format wxPATH_MAC)
    then S (length d) else length d in
  let path := Left (d ++ t :: f) len in
  (if wxPathFormat_eqb format wxPATH_VMS && Ascii.eqb (at_ path 0) "["%char
   then skipn 1 path else path) = dir_part format d t.
Proof.
  cbv zeta. unfold Left, dir_part.
  destruct d as [|x d].
  - simpl. destruct (GetFormat p format0); simpl; try reflexivity.
    unfold at_; simpl. destruct (Ascii.eqb t "[") eqn:Et.
    + apply Ascii.eqb_eq in Et. now subst.
    + destruct t as [[] [] [] [] [] [] [] []]; try reflexivity; discriminate.
  - replace ((length (x :: d) =? 0) && negb (wxPathFormat_eqb (GetFormat p format0) wxPATH_MAC))
      with false by reflexivity.
    rewrite firstn_length_app.
    destruct (GetFormat p format0); simpl; try reflexivity.
    unfold at_; simpl. destruct (Ascii.eqb x "[") eqn:Ex.
    + apply Ascii.eqb_eq in Ex. now subst.
    + destruct x as [[] [] [] [] [] [] [] []]; try reflexivity; discriminate.
Qed.


(** C8.  The code at the failing input: on a Unix build, under wxPATH_DOS,
    the last component [.bashrc] of the path has its only dot as first
    character, yet SplitPath reports an extension, because the character
    before the dot (a backslash) is tested against the separators of the
    native format and not against those of wxPATH_DOS.  The Windows build
    reports none for the same arguments. *)
Theorem SplitPath_hasExt_foreign_format :
  SplitPath Platform_UNIX (wxS "dir\.bashrc") wxPATH_DOS
  = mkSplit [] (wxS "dir") [] (wxS "bashrc") true
  /\ SplitPath Platform_WINDOWS (wxS "dir\.bashrc") wxPATH_DOS
     = mkSplit [] (wxS "dir") (wxS ".bashrc") [] false
  /\ IsPathSeparator Platform_UNIX "\"%char wxPATH_DOS = true
  /\ IsPathSeparator Platform_UNIX "\"%char wxPATH_NATIVE = false.
Proof. repeat split; reflexivity. Qed.

(* ------------------------------------------------------------------------- *)
(** ** DoSetPath: empty path components *)
(* ------------------------------------------------------------------------- *)

Lemma DoSetPath_tokens_MAC tokens dirs :
  DoSetPath_tokens wxPATH_MAC tokens dirs = dirs ++ map dotdot_if_empty tokens.
Proof.
  revert dirs; induction tokens as [|t tokens IH]; intros dirs; simpl.
  - now rewrite app_nil_r.
  - unfold dotdot_if_empty at 1. destruct (empty t); rewrite IH, <- app_assoc;
      reflexivity.
Qed.

Lemma DoSetPath_tokens_other format tokens dirs :
  format <> wxPATH_MAC ->
  DoSetPath_tokens format tokens dirs = dirs ++ filter nonempty tokens.
Proof.
  intros Hf. revert dirs; induction tokens as [|t tokens IH]; intros dirs; simpl.
  - now rewrite app_nil_r.
  - unfold nonempty at 1. destruct (empty t); simpl.
    + destruct format; try congruence; simpl; apply IH.
    + rewrite IH, <- app_assoc. reflexivity.
Qed.

Lemma m_dirs_set_dirs fn dirs : m_dirs (set_dirs fn dirs) = dirs.
Proof. reflexivity. Qed.

(** C5.  For a non-empty path, whatever tokens the tokenizer yields for it:
    under wxPATH_MAC (a leading colon, which marks a relative path, being
    removed first) every token is stored in order, an empty one as [..];
    under wxPATH_UNIX and wxPATH_DOS the empty tokens are left out and the
    others are stored in order.  Under wxPATH_DOS the tokens are those of the
    path after its volume, and there are none when only a volume is given. *)
Theorem DoSetPath_empty_tokens (env : wxEnv) (fn : wxFileName) (path : wxString)
    (flags : SetPathFlags) :
  path <> [] ->
  let p := env_platform env in
  m_dirs (DoSetPath env fn path wxPATH_MAC flags)
  = map dotdot_if_empty
        (wxStringTokenizer env
           (if Ascii.eqb (at_ path 0) ":"%char then skipn 1 path else path)
           [wxFILE_SEP_PATH_MAC])
  /\ m_dirs (DoSetPath env fn path wxPATH_UNIX flags)
     = filter nonempty (wxStringTokenizer env path [wxFILE_SEP_PATH_UNIX])
  /\ m_dirs (DoSetPath env fn path wxPATH_DOS SetPath_PathOnly)
     = filter nonempty
         (wxStringTokenizer env path [wxFILE_SEP_PATH_DOS; wxFILE_SEP_PATH_UNIX])
  /\ m_dirs (DoSetPath env fn path wxPATH_DOS SetPath_MayHaveVolume)
     = (let rest := snd (SplitVolume p path wxPATH_DOS) in
        if empty rest then []
        else filter nonempty
               (wxStringTokenizer env rest
                  [wxFILE_SEP_PATH_DOS; wxFILE_SEP_PATH_UNIX])).
Proof.
  intros Hne. cbv zeta.
  destruct path as [|c path]; [congruence|].
  split; [|split; [|split]].
  - unfold DoSetPath.
    replace (empty (c :: path)) with false by reflexivity.
    replace (GetFormat (env_platform env) wxPATH_MAC) with wxPATH_MAC by reflexivity.
    replace (SplitVolume (env_platform env) (c :: path) wxPATH_MAC)
      with (@nil ascii, c :: path) by reflexivity.
    replace (GetPathSeparators (env_platform env) wxPATH_MAC)
      with [wxFILE_SEP_PATH_MAC] by reflexivity.
    destruct flags; cbn [empty negb]; rewrite m_dirs_set_dirs;
      apply (DoSetPath_tokens_MAC _ []).
  - unfold DoSetPath.
    replace (empty (c :: path)) with false by reflexivity.
    replace (GetFormat (env_platform env) wxPATH_UNIX) with wxPATH_UNIX by reflexivity.
    replace (SplitVolume (env_platform env) (c :: path) wxPATH_UNIX)
      with (@nil ascii, c :: path) by reflexivity.
    replace (GetPathSeparators (env_platform env) wxPATH_UNIX)
      with [wxFILE_SEP_PATH_UNIX] by reflexivity.
    destruct flags; cbn [empty negb]; rewrite m_dirs_set_dirs;
      apply (DoSetPath_tokens_other _ _ []); discriminate.
  - unfold DoSetPath.
    replace (empty (c :: path)) with false by reflexivity.
    replace (GetFormat (env_platform env) wxPATH_DOS) with wxPATH_DOS by reflexivity.
    replace (GetPathSeparators (env_platform env) wxPATH_DOS)
      with [wxFILE_SEP_PATH_DOS; wxFILE_SEP_PATH_UNIX] by reflexivity.
    rewrite m_dirs_set_dirs. apply (DoSetPath_tokens_other _ _ []); discriminate.
  - unfold DoSetPath.
    replace (empty (c :: path)) with false by reflexivity.
    replace (GetFormat (env_platform env) wxPATH_DOS) with wxPATH_DOS by reflexivity.
    replace (GetPathSeparators (env_platform env) wxPATH_DOS)
      with [wxFILE_SEP_PATH_DOS; wxFILE_SEP_PATH_UNIX] by reflexivity.
    destruct (SplitVolume (env_platform env) (c :: path) wxPATH_DOS)
      as [volume rest]. cbn [snd].
    destruct rest as [|r rest]; cbn [empty].
    + destruct (negb (empty volume)); reflexivity.
    + rewrite m_dirs_set_dirs. apply (DoSetPath_tokens_other _ _ []); discriminate.
Qed.

(** Two consecutive colons of a Mac path with the reference tokenizer. *)
Lemma DoSetPath_empty_tokens_witness :
  m_dirs (DoSetPath unix_env Clear (wxS ":a::b") wxPATH_MAC SetPath_MayHaveVolume)
  = [wxS "a"; wxS ".."; wxS "b"].
Proof.
  destruct (DoSetPath_empty_tokens unix_env Clear (wxS ":a::b")
              SetPath_MayHaveVolume ltac:(discriminate)) as [H _].
  rewrite H. reflexivity.
Defined.

(* ------------------------------------------------------------------------- *)
(** ** Normalize: dots *)
(* ------------------------------------------------------------------------- *)

Lemma Normalize_dirs_app flags relative ds es out :
  Normalize_dirs flags relative (ds ++ es) out
  = Normalize_dirs flags relative es (Normalize_dirs flags relative ds out).
Proof.
  revert out; induction ds as [|d ds IH]; intros out; simpl; auto.
  repeat match goal with
         | |- context [if ?c then _ else _] => destruct c
         end; apply IH.
Qed.

(** Without the flag the loop copies the components. *)
Lemma Normalize_dirs_no_dots flags relative ds out :
  has_flag flags wxPATH_NORM_DOTS = false ->
  Normalize_dirs flags relative ds out = out ++ ds.
Proof.
  intros H. revert out; induction ds as [|d ds IH]; intros out; simpl.
  - now rewrite app_nil_r.
  - rewrite H. simpl. rewrite IH, <- app_assoc. reflexivity.
Qed.

Lemma IsOk_Clear : IsOk Clear = false.
Proof. reflexivity. Qed.

(** Normalize when only wxPATH_NORM_DOTS may be set. *)
Lemma Normalize_only_dots env fn flags cwd format :
  has_flag flags wxPATH_NORM_ENV_VARS = false ->
  has_flag flags wxPATH_NORM_TILDE = false ->
  has_flag flags wxPATH_NORM_CASE = false ->
  has_flag flags wxPATH_NORM_ABSOLUTE = false ->
  has_flag flags wxPATH_NORM_LONG = false ->
  has_flag flags wxPATH_NORM_SHORTCUT = false ->
  Normalize env fn flags cwd format
  = set_dirs fn (Normalize_dirs flags (m_relative fn) (m_dirs fn) []).
Proof.
  intros He Ht Hc Ha Hl Hs. unfold Normalize, Normalize_paths.
  rewrite He, Ht, Hc, Ha, Hl, Hs. rewrite !andb_false_r. simpl.
  destruct (env_platform env); reflexivity.
Qed.

Lemma In_removelast {A} (x : A) l : In x (removelast l) -> In x l.
Proof.
  induction l as [|y l IH]; simpl; auto.
  destruct l as [|z l]; simpl in *; [tauto|].
  intros [H|H]; auto.
Qed.

Lemma last_In {A} (l : list A) (d : A) : l <> [] -> In (last l d) l.
Proof.
  induction l as [|y l IH]; [congruence|]. intros _.
  destruct l as [|z l].
  - now left.
  - right. apply IH. discriminate.
Qed.

Section NormalizeDots.

Variable flags : Z.
Variable relative : bool.
Hypothesis dots : has_flag flags wxPATH_NORM_DOTS = true.

Local Abbreviation N ds := (Normalize_dirs flags relative ds []) (only parsing).

Lemma Normalize_dirs_dot ds : N (ds ++ [wxS "."]) = N ds.
Proof. rewrite Normalize_dirs_app. simpl. now rewrite dots. Qed.

Lemma Normalize_dirs_dotdot ds :
  N (ds ++ [wxS ".."])
  = match N ds with
    | [] => if relative then [wxS ".."] else []
    | _ :: _ =>
        if wxString_eqb (last (N ds) []) (wxS "..")
        then N ds ++ [wxS ".."] else removelast (N ds)
    end.
Proof.
  rewrite Normalize_dirs_app. simpl. rewrite dots. simpl.
  destruct (Normalize_dirs flags relative ds []) as [|x out] eqn:E.
  - destruct relative; reflexivity.
  - cbn [length Nat.eqb]. change (wxS "..") with ["."%char; "."%char].
    destruct (wxString_eqb (last (x :: out) []) ["."%char; "."%char]);
      reflexivity.
Qed.

Lemma Normalize_dirs_other ds d :
  d <> wxS "." -> d <> wxS ".." -> N (ds ++ [d]) = N ds ++ [d].
Proof.
  intros H1 H2. rewrite Normalize_dirs_app. simpl. rewrite dots. simpl.
  destruct (wxString_eqb d (wxS ".")) eqn:E1.
  { apply wxString_eqb_eq in E1. contradiction. }
  destruct (wxString_eqb d (wxS "..")) eqn:E2.
  { apply wxString_eqb_eq in E2. contradiction. }
  change (wxS ".") with ["."%char] in E1.
  change (wxS "..") with ["."%char; "."%char] in E2.
  now rewrite E1, E2.
Qed.

Lemma dir_cases (d : wxString) :
  d = wxS "." \/ d = wxS ".." \/ (d <> wxS "." /\ d <> wxS "..").
Proof.
  destruct (wxString_eqb d (wxS ".")) eqn:E1.
  - left. now apply wxString_eqb_eq.
  - destruct (wxString_eqb d (wxS "..")) eqn:E2.
    + right; left. now apply wxString_eqb_eq.
    + right; right. split; intros ->; discriminate.
Qed.

Lemma Normalize_dirs_no_dot ds : ~ In (wxS ".") (N ds).
Proof.
  induction ds as [|d ds IH] using rev_ind; [simpl; tauto|].
  destruct (dir_cases d) as [-> | [-> | [H1 H2]]].
  - now rewrite Normalize_dirs_dot.
  - rewrite Normalize_dirs_dotdot.
    destruct (N ds) as [|x out] eqn:E.
    + destruct relative; simpl; [|tauto]. intros [H|[]]. discriminate.
    + destruct (wxString_eqb (last (x :: out) []) (wxS "..")).
      * rewrite in_app_iff. intros [H|[H|[]]]; [tauto|discriminate].
      * intros H. apply In_removelast in H. tauto.
  - rewrite Normalize_dirs_other by assumption. rewrite in_app_iff.
    intros [H|[H|[]]]; [tauto|congruence].
Qed.

Lemma Normalize_dirs_no_dotdot ds : relative = false -> ~ In (wxS "..") (N ds).
Proof.
  intros Hrel. induction ds as [|d ds IH] using rev_ind; [simpl; tauto|].
  destruct (dir_cases d) as [-> | [-> | [H1 H2]]].
  - now rewrite Normalize_dirs_dot.
  - rewrite Normalize_dirs_dotdot.
    destruct (N ds) as [|x out] eqn:E; [rewrite Hrel; simpl; tauto|].
    destruct (wxString_eqb (last (x :: out) []) (wxS "..")) eqn:El.
    + apply wxString_eqb_eq in El. exfalso. apply IH. rewrite <- El.
      apply last_In. discriminate.
    + intros H. apply In_removelast in H. tauto.
  - rewrite Normalize_dirs_other by assumption. rewrite in_app_iff.
    intros [H|[H|[]]]; [tauto|congruence].
Qed.

End NormalizeDots.

(** The directories Normalize_paths stores are those its loop produces. *)
Lemma Normalize_paths_dirs env fn flags cwd format :
  exists dirs,
    m_dirs (Normalize_paths env fn flags cwd format)
    = Normalize_dirs flags
        (m_relative (Normalize_paths env fn flags cwd format)) dirs [].
Proof.
  unfold Normalize_paths.
  repeat match goal with
         | |- context [let '(_, _) := ?x in _] => destruct x
         end.
  eexists. reflexivity.
Qed.

Lemma wxTolower_dot c : wxTolower c = "."%char -> c = "."%char.
Proof.
  destruct c as [[] [] [] [] [] [] [] []]; intros H; vm_compute in H;
    try discriminate H; reflexivity.
Qed.

Lemma Lower_dot d : Lower d = wxS "." -> d = wxS ".".
Proof.
  destruct d as [|c [|? ?]]; try discriminate. simpl. intros H.
  inversion H as [Hc]. now rewrite (wxTolower_dot _ Hc).
Qed.

Lemma Lower_dotdot d : Lower d = wxS ".." -> d = wxS "..".
Proof.
  destruct d as [|c [|c' [|? ?]]]; try discriminate. simpl. intros H.
  injection H as Hc Hc'.
  now rewrite (wxTolower_dot _ Hc), (wxTolower_dot _ Hc').
Qed.

(** Where Normalize does not assign the object anew after its loop (which
    only the Windows build does, for shortcuts and long paths), the
    directories it stores are those of the loop, in lower case when the case
    is normalized. *)
Lemma Normalize_dirs_of_loop env fn flags cwd format :
  env_platform env <> Platform_WINDOWS
  \/ (has_flag flags wxPATH_NORM_SHORTCUT = false
      /\ has_flag flags wxPATH_NORM_LONG = false) ->
  exists dirs,
    let out := Normalize_dirs flags
                 (m_relative (Normalize env fn flags cwd format)) dirs [] in
    m_dirs (Normalize env fn flags cwd format) = out
    \/ m_dirs (Normalize env fn flags cwd format) = map Lower out.
Proof.
  intros Hplat. unfold Normalize.
  match goal with
  | |- context [Normalize_paths env ?x flags cwd format] => set (fn0 := x)
  end.
  destruct (Normalize_paths_dirs env fn0 flags cwd format) as (dirs & Hdirs).
  exists dirs. cbv zeta.
  assert (E : match env_platform env with
              | Platform_WINDOWS =>
                  let fn1 :=
                    if has_flag flags wxPATH_NORM_SHORTCUT then
                      match os_GetShortcutTarget env
                              (GetFullPath env (Normalize_paths env fn0 flags cwd format)
                                           (GetFormat (env_platform env) format)) with
                      | Some filename =>
                          Assign env (set_relative (Normalize_paths env fn0 flags cwd format) false)
                                 filename wxPATH_NATIVE
                      | None => Normalize_paths env fn0 flags cwd format
                      end
                    else Normalize_paths env fn0 flags cwd format in
                  if has_flag flags wxPATH_NORM_LONG
                     && wxPathFormat_eqb (GetFormat (env_platform env) format) wxPATH_DOS
                  then Assign env fn1 (GetLongPath env fn1) wxPATH_NATIVE
                  else fn1
              | _ => Normalize_paths env fn0 flags cwd format
              end = Normalize_paths env fn0 flags cwd format).
  { destruct (env_platform env) eqn:Ep; try reflexivity.
    destruct Hplat as [H|[H1 H2]]; [congruence|]. cbv zeta.
    now rewrite H1, H2. }
  cbv zeta in E. rewrite E.
  destruct (has_flag flags wxPATH_NORM_CASE && _).
  - right. cbn [m_dirs m_relative MakeLower_all]. now rewrite Hdirs.
  - left. exact Hdirs.
Qed.

(** C9.  With wxPATH_NORM_DOTS set, the directory components that the loop
    of Normalize produces, read component by component: a [.] changes
    nothing; a [..] removes the last component produced so far unless that
    one is [..] (then the [..] is appended), and when nothing has been
    produced so far it is dropped for an absolute path and kept for a relative
    one; any other component is appended.  When no other flag is set this
    list, computed from the directories of the object, is what Normalize
    stores, the rest of the object being unchanged.  And whatever the other
    flags, where Normalize does not assign the object anew after the loop
    (which only the Windows build does, for shortcuts and long paths), the
    directories it stores hold no [.], and no [..] either when the path is
    absolute. *)
Theorem Normalize_dots (env : wxEnv) (fn : wxFileName) (flags : Z)
    (cwd : wxString) (format : wxPathFormat) (relative : bool) :
  has_flag flags wxPATH_NORM_DOTS = true ->
  let N := fun ds => Normalize_dirs flags relative ds [] in
  N [] = []
  /\ (forall ds, N (ds ++ [wxS "."]) = N ds)
  /\ (forall ds,
        N (ds ++ [wxS ".."])
        = match N ds with
          | [] => if relative then [wxS ".."] else []
          | _ :: _ =>
              if wxString_eqb (last (N ds) []) (wxS "..")
              then N ds ++ [wxS ".."] else removelast (N ds)
          end)
  /\ (forall ds d, d <> wxS "." -> d <> wxS ".." -> N (ds ++ [d]) = N ds ++ [d])
  /\ (has_flag flags wxPATH_NORM_ENV_VARS = false ->
      has_flag flags wxPATH_NORM_TILDE = false ->
      has_flag flags wxPATH_NORM_CASE = false ->
      has_flag flags wxPATH_NORM_ABSOLUTE = false ->
      has_flag flags wxPATH_NORM_LONG = false ->
      has_flag flags wxPATH_NORM_SHORTCUT = false ->
      Normalize env fn flags cwd format
      = set_dirs fn (Normalize_dirs flags (m_relative fn) (m_dirs fn) []))
  /\ (env_platform env <> Platform_WINDOWS
      \/ (has_flag flags wxPATH_NORM_SHORTCUT = false
          /\ has_flag flags wxPATH_NORM_LONG = false) ->
      ~ In (wxS ".") (m_dirs (Normalize env fn flags cwd format))
      /\ (m_relative (Normalize env fn flags cwd format) = false ->
          ~ In (wxS "..") (m_dirs (Normalize env fn flags cwd format)))).
Proof.
  intros Hdots. cbv zeta.
  split; [reflexivity|].
  split; [apply Normalize_dirs_dot; exact Hdots|].
  split; [apply Normalize_dirs_dotdot; exact Hdots|].
  split; [apply Normalize_dirs_other; exact Hdots|].
  split; [apply Normalize_only_dots|].
  intros Hplat.
  destruct (Normalize_dirs_of_loop env fn flags cwd format Hplat) as (dirs & H).
  cbv zeta in H. split.
  - destruct H as [H|H]; rewrite H.
    + now apply Normalize_dirs_no_dot.
    + intros Hin. apply in_map_iff in Hin as (d & Hd & Hin).
      apply Lower_dot in Hd. subst d.
      revert Hin. now apply Normalize_dirs_no_dot.
  - intros Hrel. rewrite Hrel in H. destruct H as [H|H]; rewrite H.
    + now apply Normalize_dirs_no_dotdot.
    + intros Hin. apply in_map_iff in Hin as (d & Hd & Hin).
      apply Lower_dotdot in Hd. subst d.
      revert Hin. now apply Normalize_dirs_no_dotdot.
Qed.

(** The path /a/./b/../../../c, absolute, normalized with the flag alone. *)
Lemma Normalize_dots_witness :
  m_dirs (Normalize unix_env
            (Assign unix_env Clear (wxS "/a/./b/../../../c/f.txt") wxPATH_UNIX)
            wxPATH_NORM_DOTS [] wxPATH_UNIX)
  = [wxS "c"].
Proof.
  pose proof (Normalize_dots unix_env
                (Assign unix_env Clear (wxS "/a/./b/../../../c/f.txt") wxPATH_UNIX)
                wxPATH_NORM_DOTS [] wxPATH_UNIX false eq_refl) as H.
  cbv zeta in H.
  destruct H as (_ & _ & _ & _ & H & _).
  rewrite H by reflexivity. reflexivity.
Defined.

(* ------------------------------------------------------------------------- *)
(** ** Case conversion *)
(* ------------------------------------------------------------------------- *)

Lemma nat_of_ascii_inj x y : nat_of_ascii x = nat_of_ascii y -> x = y.
Proof.
  intros H. rewrite <- (ascii_nat_embedding x), <- (ascii_nat_embedding y).
  now rewrite H.
Qed.

Lemma CmpNoCase_eq_Lower a b : CmpNoCase a b = 0%Z -> Lower a = Lower b.
Proof.
  revert b; induction a as [|x a IH]; intros [|y b]; simpl; try discriminate; auto.
  destruct (nat_of_ascii (wxTolower x) <? nat_of_ascii (wxTolower y)) eqn:E1;
    [discriminate|].
  destruct (nat_of_ascii (wxTolower y) <? nat_of_ascii (wxTolower x)) eqn:E2;
    [discriminate|].
  intros H. apply Nat.ltb_ge in E1, E2.
  f_equal; [|now apply IH]. apply nat_of_ascii_inj. lia.
Qed.

Lemma wxToupper_wxTolower c : wxToupper (wxTolower c) = wxToupper c.
Proof. destruct c as [[] [] [] [] [] [] [] []]; reflexivity. Qed.

Lemma Upper_Lower s : Upper (Lower s) = Upper s.
Proof.
  induction s as [|c s IH]; simpl; auto. now rewrite wxToupper_wxTolower, IH.
Qed.

Lemma IsDefaultCLocale_Upper s :
  IsDefaultCLocale s = true -> Upper s = wxS "C" \/ Upper s = wxS "POSIX".
Proof.
  unfold IsDefaultCLocale. intros H. apply orb_prop in H as [H|H];
    apply Z.eqb_eq, CmpNoCase_eq_Lower in H;
    rewrite <- Upper_Lower, H; [left|right]; reflexivity.
Qed.

(* ------------------------------------------------------------------------- *)
(** ** FromTag and GetTag *)
(* ------------------------------------------------------------------------- *)

Lemma CheckLanguageVariant_tag l : m_tag (CheckLanguageVariant l) = m_tag l.
Proof.
  unfold CheckLanguageVariant, Extension, Modifier.
  repeat match goal with
         | |- context [if ?c then _ else _] => destruct c
         end; reflexivity.
Qed.

Lemma FromTag_subtags_tag l parts :
  FromTag_subtags l parts = wxLocaleIdent_empty
  \/ m_tag (FromTag_subtags l parts) = m_tag l.
Proof.
  unfold FromTag_subtags.
  destruct (negb _); [now right|].
  destruct (FromTag_skip_extlangs parts) as [|part rest]; [now right|].
  destruct ((length part =? 2) || (length part =? 3)).
  - right. destruct rest as [|part2 rest2].
    + now rewrite CheckLanguageVariant_tag.
    + destruct (empty _ && _); destruct rest2; try destruct rest;
        rewrite CheckLanguageVariant_tag; reflexivity.
  - destruct (length part =? 4); [|now left].
    right. destruct rest as [|part2 rest2].
    + now rewrite CheckLanguageVariant_tag.
    + destruct (empty _ && _); destruct rest2; try destruct rest;
        rewrite CheckLanguageVariant_tag; reflexivity.
Qed.

(** The three ways FromTag ends: with an empty identifier, with the special
    C locale, or with the tag stored. *)
Lemma FromTag_cases d tag :
  FromTag d tag = wxLocaleIdent_empty
  \/ (IsDefaultCLocale tag = true /\ FromTag d tag = Language wxLocaleIdent_empty tag)
  \/ m_tag (FromTag d tag) = tag.
Proof.
  unfold FromTag.
  destruct (IsDefaultCLocale tag); [right; left; now split|].
  repeat match goal with
         | |- context [let '(_, _) := ?x in _] => destruct x
         end.
  match goal with
  | |- context [match wxSplit ?s ?c with _ => _ end] => destruct (wxSplit s c) as [|part rest]
  end; [now left|].
  destruct rest as [|part2 rest]; [right; right; reflexivity|].
  match goal with
  | |- context [FromTag_subtags ?l ?ps] =>
      destruct (FromTag_subtags_tag l ps) as [H|H]
  end.
  - left. exact H.
  - right; right. rewrite H. reflexivity.
Qed.

(** C3.  When FromTag returns an identifier whose language is not empty and
    is not that of the special C and POSIX locales, GetTag with
    wxLOCALE_TAGTYPE_DEFAULT gives back the string FromTag was called with. *)
Theorem FromTag_GetTag_roundtrip (d : wxLocaleData) (tag : wxString) :
  m_language (FromTag d tag) <> [] ->
  m_language (FromTag d tag) <> wxS "C" ->
  m_language (FromTag d tag) <> wxS "POSIX" ->
  GetTag d (FromTag d tag) wxLOCALE_TAGTYPE_DEFAULT = tag.
Proof.
  intros Hne HC HP.
  destruct tag as [|c tag]; [exfalso; apply Hne; reflexivity|].
  destruct (FromTag_cases d (c :: tag)) as [H | [[Hdef H] | H]].
  - rewrite H in Hne. exfalso. now apply Hne.
  - exfalso. rewrite H in HC, HP. unfold Language in HC, HP.
    rewrite Hdef in HC, HP. simpl in HC, HP.
    destruct (IsDefaultCLocale_Upper _ Hdef) as [E|E]; simpl in E; congruence.
  - unfold GetTag. rewrite H. reflexivity.
Qed.

(** A tag in the POSIX form, with a charset and a modifier. *)
Lemma FromTag_GetTag_roundtrip_witness :
  GetTag sample_data (FromTag sample_data (wxS "sr_RS.UTF-8@latin"))
         wxLOCALE_TAGTYPE_DEFAULT
  = wxS "sr_RS.UTF-8@latin".
Proof.
  apply (FromTag_GetTag_roundtrip sample_data (wxS "sr_RS.UTF-8@latin"));
    discriminate.
Defined.

(* ------------------------------------------------------------------------- *)
(** ** The setters of wxLocaleIdent *)
(* ------------------------------------------------------------------------- *)

Lemma find_first_not_of_at_forallb s chars i :
  match find_first_not_of_at s chars i with
  | None => forallb (Find chars) s = true
  | Some _ => forallb (Find chars) s = false
  end.
Proof.
  revert i; induction s as [|c s IH]; intros i; simpl; auto.
  destruct (Find chars c); simpl; auto. apply IH.
Qed.

Lemma only_chars_forallb s chars : only_chars s chars = forallb (Find chars) s.
Proof.
  unfold only_chars, find_first_not_of.
  pose proof (find_first_not_of_at_forallb s chars 0) as H.
  destruct (find_first_not_of_at s chars 0); now rewrite H.
Qed.

Lemma alpha_lower c :
  Find validCharsAlpha c = true -> is_lower (wxTolower c) = true.
Proof.
  destruct c as [[] [] [] [] [] [] [] []]; intros H; vm_compute in H |- *;
    congruence.
Qed.

Lemma alpha_upper c :
  Find validCharsAlpha c = true -> is_upper (wxToupper c) = true.
Proof.
  destruct c as [[] [] [] [] [] [] [] []]; intros H; vm_compute in H |- *;
    congruence.
Qed.

Lemma alnum_upper c :
  Find validCharsAlnum c = true ->
  is_upper (wxToupper c) || isdigit (wxToupper c) = true.
Proof.
  destruct c as [[] [] [] [] [] [] [] []]; intros H; vm_compute in H |- *;
    congruence.
Qed.

Lemma upper_alpha c : is_upper c = true -> Find validCharsAlpha c = true.
Proof.
  destruct c as [[] [] [] [] [] [] [] []]; intros H; vm_compute in H |- *;
    congruence.
Qed.

Lemma lower_alpha c : is_lower c = true -> Find validCharsAlpha c = true.
Proof.
  destruct c as [[] [] [] [] [] [] [] []]; intros H; vm_compute in H |- *;
    congruence.
Qed.

Lemma forallb_map_impl {A B} (f : A -> B) (P : A -> bool) (Q : B -> bool) l :
  (forall x, P x = true -> Q (f x) = true) ->
  forallb P l = true -> forallb Q (map f l) = true.
Proof.
  intros H. induction l as [|x l IH]; simpl; auto.
  intros Hl. apply andb_prop in Hl as [Hx Hl]. now rewrite H, IH.
Qed.

Lemma language_shape_code arg :
  language_shape arg = true -> is_language_code (Lower arg) = true.
Proof.
  unfold language_shape, is_language_code, Lower. rewrite only_chars_forallb.
  intros H. apply andb_prop in H as [Hlen Hall]. rewrite length_map, Hlen. simpl.
  eapply forallb_map_impl; [|exact Hall]. apply alpha_lower.
Qed.

Lemma region_shape_code arg :
  region_shape arg = true -> is_region_code (Upper arg) = true.
Proof.
  unfold region_shape, is_region_code, Upper. rewrite only_chars_forallb.
  intros H. apply andb_prop in H as [Hlen Hall]. rewrite length_map, Hlen. simpl.
  eapply forallb_map_impl; [|exact Hall]. apply alnum_upper.
Qed.

Lemma script_shape_code arg :
  script_shape arg = true -> is_script_code (Capitalize arg) = true.
Proof.
  unfold script_shape, is_script_code, Capitalize. rewrite only_chars_forallb.
  intros H. apply andb_prop in H as [Hlen Hall].
  destruct arg as [|c arg]; [discriminate|]. simpl in *.
  apply andb_prop in Hall as [Hc Hall].
  unfold Lower. rewrite length_map, Hlen, (alpha_upper _ Hc). simpl.
  eapply forallb_map_impl; [|exact Hall]. apply alpha_lower.
Qed.

(** A script code has the shape the Script setter accepts. *)
Lemma script_code_shape s : is_script_code s = true -> script_shape s = true.
Proof.
  unfold is_script_code, script_shape. rewrite only_chars_forallb.
  destruct s as [|c s]; [discriminate|]. intros H.
  apply andb_prop in H as [H Hall]. apply andb_prop in H as [Hlen Hc].
  cbn [length forallb]. apply Nat.eqb_eq in Hlen.
  rewrite Hlen, (upper_alpha _ Hc). cbn [Nat.eqb andb].
  clear -Hall. induction s as [|x s IH]; cbn [forallb] in *; auto.
  apply andb_prop in Hall as [Hx Hall]. now rewrite (lower_alpha _ Hx), IH.
Qed.

(** C10.  The Language setter stores the upper-cased argument, which is then
    C or POSIX, when the argument names the default C locale; the lower-cased
    argument, a code of two or three lower-case letters, when the argument
    consists of two or three letters; and clears the field otherwise.  The
    Region setter stores the upper-cased argument, a code of two or three
    upper-case letters and digits, when the argument consists of two or three
    letters and digits, and clears the field otherwise.  The Script setter
    stores the capitalized argument, a capital letter followed by three
    lower-case ones, when the argument consists of four letters; for another
    non-empty argument it stores what the alias table gives for the
    lower-cased argument (nothing for an unknown alias), and it clears the
    field for the empty one.  The alias table giving script codes only, a
    non-empty argument that has not the accepted shape is never stored as
    given. *)
Theorem wxLocaleIdent_setters_canonical (d : wxLocaleData) (l : wxLocaleIdent)
    (arg : wxString) :
  (forall a, GetScriptNameFromAlias d a = []
             \/ is_script_code (GetScriptNameFromAlias d a) = true) ->
  (IsDefaultCLocale arg = true ->
     m_language (Language l arg) = Upper arg
     /\ (Upper arg = wxS "C" \/ Upper arg = wxS "POSIX"))
  /\ (IsDefaultCLocale arg = false -> language_shape arg = true ->
        m_language (Language l arg) = Lower arg
        /\ is_language_code (Lower arg) = true)
  /\ (IsDefaultCLocale arg = false -> language_shape arg = false ->
        m_language (Language l arg) = [])
  /\ (region_shape arg = true ->
        m_region (Region l arg) = Upper arg /\ is_region_code (Upper arg) = true)
  /\ (region_shape arg = false -> m_region (Region l arg) = [])
  /\ (script_shape arg = true ->
        m_script (Script d l arg) = Capitalize arg
        /\ is_script_code (Capitalize arg) = true)
  /\ (script_shape arg = false -> arg <> [] ->
        m_script (Script d l arg) = GetScriptNameFromAlias d (Lower arg))
  /\ (arg = [] -> m_script (Script d l arg) = [])
  /\ (arg <> [] -> IsDefaultCLocale arg = false -> language_shape arg = false ->
        m_language (Language l arg) <> arg)
  /\ (arg <> [] -> region_shape arg = false -> m_region (Region l arg) <> arg)
  /\ (arg <> [] -> script_shape arg = false -> m_script (Script d l arg) <> arg).
Proof.
  intros Halias.
  assert (HL : IsDefaultCLocale arg = false -> language_shape arg = false ->
               m_language (Language l arg) = []).
  { intros Hd Hs. unfold Language. unfold language_shape in Hs.
    now rewrite Hd, Hs. }
  assert (HR : region_shape arg = false -> m_region (Region l arg) = []).
  { intros Hs. unfold Region. unfold region_shape in Hs. now rewrite Hs. }
  assert (HS : script_shape arg = false -> arg <> [] ->
               m_script (Script d l arg) = GetScriptNameFromAlias d (Lower arg)).
  { intros Hs Hne. unfold Script. unfold script_shape in Hs. rewrite Hs.
    destruct arg; [congruence|reflexivity]. }
  repeat split.
  - unfold Language. now rewrite H.
  - now apply IsDefaultCLocale_Upper.
  - unfold Language. unfold language_shape in H0. now rewrite H, H0.
  - now apply language_shape_code.
  - exact HL.
  - unfold Region. unfold region_shape in H. now rewrite H.
  - now apply region_shape_code.
  - exact HR.
  - unfold Script. unfold script_shape in H. now rewrite H.
  - now apply script_shape_code.
  - exact HS.
  - intros ->. reflexivity.
  - intros Hne Hd Hs. rewrite (HL Hd Hs). congruence.
  - intros Hne Hs. rewrite (HR Hs). congruence.
  - intros Hne Hs. rewrite (HS Hs Hne).
    destruct (Halias (Lower arg)) as [E|E].
    + rewrite E. congruence.
    + intros Heq. rewrite Heq in E. apply script_code_shape in E. congruence.
Qed.

Lemma sample_data_aliases a :
  GetScriptNameFromAlias sample_data a = []
  \/ is_script_code (GetScriptNameFromAlias sample_data a) = true.
Proof.
  cbn [GetScriptNameFromAlias sample_data].
  destruct (wxString_eqb a (wxS "latin")); [right; reflexivity|].
  destruct (wxString_eqb a (wxS "cyrillic")); [right|left]; reflexivity.
Qed.

(** An alias, which has not the shape of a script code, is resolved and not
    stored as given. *)
Lemma wxLocaleIdent_setters_canonical_witness :
  m_script (Script sample_data wxLocaleIdent_empty (wxS "LATIN")) = wxS "Latn"
  /\ m_script (Script sample_data wxLocaleIdent_empty (wxS "LATIN")) <> wxS "LATIN".
Proof.
  pose proof (wxLocaleIdent_setters_canonical sample_data wxLocaleIdent_empty
                (wxS "LATIN") sample_data_aliases) as H.
  destruct H as (_ & _ & _ & _ & _ & _ & H1 & _ & _ & _ & H2).
  split.
  - rewrite H1; [reflexivity|reflexivity|discriminate].
  - apply H2; [discriminate|reflexivity].
Defined.

(* ------------------------------------------------------------------------- *)
(** ** GetBestMatch *)
(* ------------------------------------------------------------------------- *)

Section BestMatch.

Variable d : wxLocaleData.

Lemma GetBestMatch_body_range n j desired_j lin lmax k supported_k st :
  k < n -> best_in_range n st ->
  best_in_range n (GetBestMatch_body d j desired_j lin lmax k supported_k st).
Proof.
  intros Hk Hst. unfold GetBestMatch_body.
  assert (Hset : forall st' dist m, best_in_range n (set_best st' j k dist m)).
  { intros. right. simpl. lia. }
  destruct (Z.eqb (CmpNoCase desired_j supported_k) 0).
  - destruct (_ <? _)%Z; [right; simpl; lia|exact Hst].
  - destruct (match_distance _ _ _ _ _ _ _) as [dist m].
    destruct (_ && _); [apply Hset|].
    destruct (j =? 0); exact Hst.
Qed.

Lemma GetBestMatch_supported_range n j desired_j lin lmax supported :
  forall k st, k + length supported <= n -> best_in_range n st ->
  best_in_range n (GetBestMatch_supported d j desired_j lin lmax k supported st).
Proof.
  induction supported as [|s supported IH]; intros k st Hk Hst; simpl; auto.
  destruct (directMatch st); auto.
  apply IH; [simpl in Hk; lia|].
  apply GetBestMatch_body_range; [simpl in Hk; lia|exact Hst].
Qed.

Lemma GetBestMatch_desired_range desired supported :
  forall j st, best_in_range (length supported) st ->
  best_in_range (length supported) (GetBestMatch_desired d j desired supported st).
Proof.
  induction desired as [|x desired IH]; intros j st Hst; simpl; auto.
  destruct (directMatch st); auto.
  apply IH. apply GetBestMatch_supported_range; [simpl; lia|exact Hst].
Qed.

Lemma GetBestMatch_supported_direct j desired_j lin lmax k supported st :
  directMatch st = true ->
  GetBestMatch_supported d j desired_j lin lmax k supported st = st.
Proof. intros H. destruct supported; simpl; [|rewrite H]; reflexivity. Qed.

Lemma GetBestMatch_desired_direct j desired supported st :
  directMatch st = true -> GetBestMatch_desired d j desired supported st = st.
Proof. intros H. destruct desired; simpl; [|rewrite H]; reflexivity. Qed.

Hypothesis language_nonneg : (0 <= defaultLanguageDistance d)%Z.
Hypothesis script_nonneg : (0 <= defaultScriptDistance d)%Z.
Hypothesis region_nonneg : (0 <= defaultRegionGroupDistance d)%Z.

(** The distances added for a supported tag that is no direct match are
    not negative. *)
Lemma match_distance_ge lin lmax sin smax distance m :
  (distance <= fst (match_distance d lin lmax sin smax distance m))%Z.
Proof.
  pose proof region_nonneg as Hr.
  unfold match_distance, defaultRegionDistance, defaultRegionGroupDistance in *.
  repeat match goal with
         | |- context [(0 <=? ?x)%Z] => destruct (Z.leb_spec 0 x)
         | |- context [if ?c then _ else _] => destruct c
         end; cbn [fst]; lia.
Qed.

Lemma GetBestMatch_body_no_match desired_0 lin lmax k supported_k st :
  CmpNoCase desired_0 supported_k <> 0%Z -> no_match_yet st ->
  no_match_yet (GetBestMatch_body d 0 desired_0 lin lmax k supported_k st).
Proof.
  intros Hne [Hd Hb]. unfold GetBestMatch_body.
  apply Z.eqb_neq in Hne. rewrite Hne. cbn [Nat.eqb].
  match goal with
  | |- context [match_distance d ?a ?b ?c ?e ?dist ?m] =>
      pose proof (match_distance_ge a b c e dist m) as Hge;
      destruct (match_distance d a b c e dist m) as [dist' m']
  end.
  simpl in Hge.
  destruct (_ && _); split; simpl; auto; lia.
Qed.

Lemma GetBestMatch_supported_exact desired_0 lin lmax pre s post :
  CmpNoCase desired_0 s = 0%Z ->
  (forall x, In x pre -> CmpNoCase desired_0 x <> 0%Z) ->
  forall k st, no_match_yet st ->
  let st' := GetBestMatch_supported d 0 desired_0 lin lmax k (pre ++ s :: post) st in
  directMatch st' = true /\ bestSupported st' = Z.of_nat (k + length pre).
Proof.
  intros Hs. induction pre as [|x pre IH]; intros Hpre k st [Hd Hb]; cbv zeta.
  - simpl. rewrite Hd. rewrite GetBestMatch_supported_direct.
    + unfold GetBestMatch_body. rewrite Hs. simpl.
      destruct (bestDistance st); try lia. simpl. split; [reflexivity|f_equal; lia].
    + unfold GetBestMatch_body. rewrite Hs. simpl.
      destruct (0 <? bestDistance st)%Z; reflexivity.
  - simpl. rewrite Hd.
    replace (k + S (length pre)) with (S k + length pre) by lia.
    apply IH.
    + intros y Hy. apply Hpre. now right.
    + apply GetBestMatch_body_no_match; [apply Hpre; now left|now split].
Qed.

End BestMatch.

(** C6.  The default distances of the matching table not being negative:
    if the first desired tag compares equal, case ignored, to the supported
    tag [s] and to none of the supported tags before it, GetBestMatch returns
    [s].  And whatever the tables and the lists, the result is an element of
    the supported list or the empty string. *)
Theorem GetBestMatch_prefers_exact (d : wxLocaleData) :
  (forall desired_0 desired_rest pre s post,
     (0 <= defaultLanguageDistance d)%Z ->
     (0 <= defaultScriptDistance d)%Z ->
     (0 <= defaultRegionGroupDistance d)%Z ->
     CmpNoCase desired_0 s = 0%Z ->
     (forall x, In x pre -> CmpNoCase desired_0 x <> 0%Z) ->
     GetBestMatch d (desired_0 :: desired_rest) (pre ++ s :: post) = s)
  /\ (forall desired supported,
        GetBestMatch d desired supported = []
        \/ In (GetBestMatch d desired supported) supported).
Proof.
  split.
  - intros desired_0 desired_rest pre s post HL HS HR Hs Hpre.
    unfold GetBestMatch. simpl GetBestMatch_desired.
    pose proof (GetBestMatch_supported_exact d HL HS HR desired_0
                  (FromTag d desired_0) (AddLikelySubtags d (FromTag d desired_0))
                  pre s post Hs Hpre 0 MatchState_init) as H.
    cbv zeta in H. destruct H as [Hd Hb]; [split; [reflexivity|reflexivity]|].
    rewrite GetBestMatch_desired_direct by exact Hd.
    rewrite Hb. simpl Nat.add.
    destruct (0 <=? Z.of_nat (length pre))%Z eqn:E; [|apply Z.leb_gt in E; lia].
    rewrite Nat2Z.id. apply nth_middle.
  - intros desired supported. unfold GetBestMatch.
    pose proof (GetBestMatch_desired_range d desired supported 0 MatchState_init
                  (or_introl eq_refl)) as H.
    destruct (0 <=? bestSupported _)%Z eqn:E; [|now left].
    right. apply nth_In. apply Z.leb_le in E.
    destruct H as [H|H]; lia.
Qed.

(** The first desired tag matches the third supported tag, case ignored;
    the second supported tag has the same language. *)
Lemma GetBestMatch_prefers_exact_witness :
  GetBestMatch sample_data [wxS "de-de"; wxS "en"]
               ([wxS "en-US"; wxS "de"] ++ wxS "de-DE" :: [wxS "DE-de"])
  = wxS "de-DE".
Proof.
  apply (proj1 (GetBestMatch_prefers_exact sample_data)).
  - discriminate.
  - discriminate.
  - discriminate.
  - reflexivity.
  - intros x [<-|[<-|[]]]; discriminate.
Defined.

(* ------------------------------------------------------------------------- *)
(** ** MakeRelativeTo *)
(* ------------------------------------------------------------------------- *)

Lemma set_dirs_same fn : set_dirs fn (m_dirs fn) = fn.
Proof. now destruct fn. Qed.

Lemma Normalize_paths_LONG env fn cwd format :
  Normalize_paths env fn wxPATH_NORM_LONG cwd format = fn.
Proof.
  unfold Normalize_paths.
  change (has_flag wxPATH_NORM_LONG wxPATH_NORM_ABSOLUTE) with false.
  change (has_flag wxPATH_NORM_LONG wxPATH_NORM_TILDE) with false.
  rewrite andb_false_r. cbn [andb]. rewrite IsOk_Clear.
  rewrite Normalize_dirs_no_dots by reflexivity. apply set_dirs_same.
Qed.

(** Normalize with wxPATH_NORM_LONG alone changes nothing, except on the
    Windows build under wxPATH_DOS, where the object is assigned its long
    path. *)
Lemma Normalize_LONG env fn cwd format :
  Normalize env fn wxPATH_NORM_LONG cwd format
  = match env_platform env with
    | Platform_WINDOWS =>
        if wxPathFormat_eqb (GetFormat Platform_WINDOWS format) wxPATH_DOS
        then Assign env fn (os_GetLongPath env fn) wxPATH_NATIVE
        else fn
    | _ => fn
    end.
Proof.
  unfold Normalize.
  change (has_flag wxPATH_NORM_LONG wxPATH_NORM_ENV_VARS) with false.
  change (has_flag wxPATH_NORM_LONG wxPATH_NORM_SHORTCUT) with false.
  change (has_flag wxPATH_NORM_LONG wxPATH_NORM_CASE) with false.
  change (has_flag wxPATH_NORM_LONG wxPATH_NORM_LONG) with true.
  cbn [andb]. rewrite Normalize_paths_LONG. unfold GetLongPath.
  destruct (env_platform env) eqn:E; reflexivity.
Qed.

Lemma insert_dotdots_repeat n dirs :
  insert_dotdots n dirs = repeat (wxS "..") n ++ dirs.
Proof.
  revert dirs; induction n as [|n IH]; intros dirs; [reflexivity|].
  cbn [insert_dotdots repeat]. rewrite IH.
  rewrite repeat_cons, <- app_assoc. reflexivity.
Qed.

(** What the loop over the common directories leaves. *)
Lemma remove_common_dirs_spec withCase dirs baseDirs :
  exists common commonBase,
    dirs = common ++ fst (remove_common_dirs withCase dirs baseDirs)
    /\ baseDirs = commonBase ++ snd (remove_common_dirs withCase dirs baseDirs)
    /\ Forall2 (fun a b => IsSameAs a b withCase = true) common commonBase
    /\ match remove_common_dirs withCase dirs baseDirs with
       | (x :: _, y :: _) => IsSameAs x y withCase = false
       | _ => True
       end.
Proof.
  revert baseDirs; induction dirs as [|x dirs IH]; intros baseDirs.
  - exists [], []. simpl. repeat split; constructor.
  - destruct baseDirs as [|y baseDirs].
    + exists [], []. simpl. repeat split; constructor.
    + simpl. destruct (IsSameAs x y withCase) eqn:E.
      * destruct (IH baseDirs) as (c & cb & H1 & H2 & H3 & H4).
        exists (x :: c), (y :: cb). simpl. repeat split.
        -- now rewrite <- H1.
        -- now rewrite <- H2.
        -- now constructor.
        -- exact H4.
      * exists [], []. simpl. repeat split; try constructor. exact E.
Qed.

(* ------------------------------------------------------------------------- *)
(** ** FromTag on language, script and region *)
(* ------------------------------------------------------------------------- *)

Lemma alpha_alnum c :
  Find validCharsAlpha c = true -> Find validCharsAlnum c = true.
Proof.
  destruct c as [[] [] [] [] [] [] [] []]; intros H; vm_compute in H |- *;
    congruence.
Qed.

Lemma alnum_not_special c :
  Find validCharsAlnum c = true -> Find (wxS "@._-") c = false.
Proof.
  destruct c as [[] [] [] [] [] [] [] []]; intros H; vm_compute in H |- *;
    congruence.
Qed.

Lemma only_alpha_plain s : only_chars s validCharsAlpha = true -> plain s = true.
Proof.
  rewrite only_chars_forallb. unfold plain.
  induction s as [|c s IH]; cbn [forallb]; auto.
  intros H. apply andb_prop in H as [Hc Hs]. now rewrite (alpha_alnum _ Hc), IH.
Qed.

Lemma only_alnum_plain s : only_chars s validCharsAlnum = true -> plain s = true.
Proof. now rewrite only_chars_forallb. Qed.

(** A plain string holds none of the characters that structure a tag. *)
Lemma plain_free ch s :
  Find (wxS "@._-") ch = true -> plain s = true -> free_of [ch] s = true.
Proof.
  intros Hch. unfold plain, free_of.
  induction s as [|c s IH]; cbn [forallb]; auto.
  intros H. apply andb_prop in H as [Hc Hs]. rewrite IH by assumption.
  rewrite andb_true_r. apply negb_true_iff.
  unfold Find at 1. cbn [existsb]. rewrite orb_false_r.
  destruct (Ascii.eqb c ch) eqn:E; auto.
  apply Ascii.eqb_eq in E. subst c. apply alnum_not_special in Hc. congruence.
Qed.

Lemma Find_single ch c : Find [ch] c = Ascii.eqb c ch.
Proof. unfold Find. cbn [existsb]. apply orb_false_r. Qed.

Lemma BeforeFirst_absent s ch :
  free_of [ch] s = true -> BeforeFirst s ch = (s, []).
Proof.
  intros H. unfold BeforeFirst, find, find_first_of. cbn [skipn].
  now rewrite find_first_of_at_free.
Qed.

Lemma BeforeFirst_hit a b ch :
  free_of [ch] a = true -> BeforeFirst (a ++ ch :: b) ch = (a, b).
Proof.
  intros H. unfold BeforeFirst, find, find_first_of. rewrite skipn_O.
  rewrite find_first_of_at_hit; auto.
  - rewrite Nat.add_0_l, firstn_length_app.
    replace (S (length a)) with (length (a ++ [ch])) by (rewrite length_app; simpl; lia).
    replace (a ++ ch :: b) with ((a ++ [ch]) ++ b) by (rewrite <- app_assoc; reflexivity).
    now rewrite skipn_length_app.
  - rewrite Find_single. apply Ascii.eqb_refl.
Qed.

Lemma BeforeLast_absent s ch :
  free_of [ch] s = true -> BeforeLast s ch = ([], s).
Proof.
  intros H. unfold BeforeLast, find_last_of. now rewrite find_last_of_at_free.
Qed.

Lemma BeforeLast_hit a b ch :
  free_of [ch] b = true -> BeforeLast (a ++ ch :: b) ch = (a, b).
Proof.
  intros H. unfold BeforeLast, find_last_of.
  rewrite find_last_of_at_hit; auto.
  - rewrite Nat.add_0_l, firstn_length_app.
    replace (S (length a)) with (length (a ++ [ch])) by (rewrite length_app; simpl; lia).
    replace (a ++ ch :: b) with ((a ++ [ch]) ++ b) by (rewrite <- app_assoc; reflexivity).
    now rewrite skipn_length_app.
  - rewrite Find_single. apply Ascii.eqb_refl.
Qed.

(** Replacing one character by another is a map. *)
Lemma Replace_char s x y :
  Replace s [x] [y] = map (fun c => if Ascii.eqb c x then y else c) s.
Proof.
  unfold Replace. induction s as [|c s IH]; [reflexivity|].
  cbn [Replace_from empty negb andb StartsWith length Nat.sub map].
  replace (StartsWith s []) with true by (now destruct s).
  rewrite andb_true_r, Ascii.eqb_sym.
  destruct (Ascii.eqb c x); cbn [app]; now rewrite IH.
Qed.

Lemma map_replace_free s x y :
  free_of [x] s = true -> map (fun c => if Ascii.eqb c x then y else c) s = s.
Proof.
  unfold free_of. induction s as [|c s IH]; cbn [forallb map]; auto.
  intros H. apply andb_prop in H as [Hc Hs]. rewrite IH by assumption.
  rewrite Find_single in Hc. apply negb_true_iff in Hc. now rewrite Hc.
Qed.

Lemma fields_free sep s cur :
  free_of [sep] s = true -> fields sep s cur = [rev cur ++ s].
Proof.
  revert cur; induction s as [|c s IH]; intros cur H; cbn [fields].
  - now rewrite app_nil_r.
  - cbn [free_of forallb] in H. apply andb_prop in H as [Hc Hs].
    rewrite Find_single in Hc. apply negb_true_iff in Hc. rewrite Hc.
    rewrite IH by assumption. cbn [rev]. now rewrite <- app_assoc.
Qed.

Lemma fields_hit sep a b cur :
  free_of [sep] a = true ->
  fields sep (a ++ sep :: b) cur = (rev cur ++ a) :: fields sep b [].
Proof.
  revert cur; induction a as [|c a IH]; intros cur H; cbn [fields app].
  - now rewrite Ascii.eqb_refl, app_nil_r.
  - cbn [free_of forallb] in H. apply andb_prop in H as [Hc Hs].
    rewrite Find_single in Hc. apply negb_true_iff in Hc. rewrite Hc.
    rewrite IH by assumption. cbn [rev]. now rewrite <- app_assoc.
Qed.

Lemma CmpNoCase_length a b : CmpNoCase a b = 0%Z -> length a = length b.
Proof.
  intros H. apply CmpNoCase_eq_Lower in H. unfold Lower in H.
  apply (f_equal (@length ascii)) in H. now rewrite !length_map in H.
Qed.

(** A string that holds a hyphen or an underscore, or whose length is
    neither 1 nor 5, does not name the default C locale. *)
Lemma IsDefaultCLocale_sep s sep :
  sep = "-"%char \/ sep = "_"%char -> In sep s -> IsDefaultCLocale s = false.
Proof.
  intros Hsep Hin. unfold IsDefaultCLocale.
  apply orb_false_iff. split; apply Z.eqb_neq; intros H;
    apply CmpNoCase_eq_Lower in H;
    apply (in_map wxTolower) in Hin; fold (Lower s) in Hin; rewrite H in Hin;
    destruct Hsep; subst sep; vm_compute in Hin;
    repeat (destruct Hin as [Hin|Hin]; [discriminate|]); exact Hin.
Qed.

Lemma IsDefaultCLocale_length s :
  length s <> 1 -> length s <> 5 -> IsDefaultCLocale s = false.
Proof.
  intros H1 H5. unfold IsDefaultCLocale.
  apply orb_false_iff. split; apply Z.eqb_neq; intros H;
    apply CmpNoCase_length in H; simpl in H; congruence.
Qed.

(** FromTag on a tag without modifier and charset that the steps 1c and 1d
    leave alone: only the BCP47-like part of the function remains. *)
Lemma FromTag_plain d tag :
  IsDefaultCLocale tag = false ->
  free_of ["@"%char] tag = true ->
  free_of ["."%char] tag = true ->
  ((3 <? length (fst (BeforeFirst tag "_"%char)))
   && (empty (snd (BeforeFirst tag "_"%char))
       || (3 <? length (snd (BeforeFirst tag "_"%char)))) = false
   \/ FindLanguageInfo d tag = None) ->
  negb (empty (fst (BeforeLast tag "_"%char)))
  && (4 <? length (snd (BeforeLast tag "_"%char))) = false ->
  FromTag d tag
  = match wxSplit (Replace tag ["_"%char] ["-"%char]) "-"%char with
    | [] => wxLocaleIdent_empty
    | part :: rest =>
        let locId := set_tag (set_language wxLocaleIdent_empty (Lower part)) tag in
        match rest with
        | [] => locId
        | _ :: _ => FromTag_subtags locId rest
        end
    end.
Proof.
  intros Hdef Hat Hdot H1c H1d. unfold FromTag. rewrite Hdef.
  rewrite (BeforeFirst_absent _ _ Hat). cbn [empty negb].
  rewrite (BeforeFirst_absent _ _ Hdot). cbn [empty negb].
  destruct (BeforeFirst tag "_"%char) as [tagTemp tagRest]. cbn [fst snd] in H1c.
  assert (E1c : (if (3 <? length tagTemp) && (empty tagRest || (3 <? length tagRest))
                 then match FindLanguageInfo d tag with
                      | Some info => LocaleTag info
                      | None => tag
                      end
                 else tag) = tag).
  { destruct H1c as [H|H]; rewrite H; [reflexivity|].
    destruct ((3 <? length tagTemp) && _); reflexivity. }
  rewrite E1c.
  destruct (BeforeLast tag "_"%char) as [tagTemp' tagRest']. cbn [fst snd] in H1d.
  cbn [m_modifier m_charset wxLocaleIdent_empty empty]. rewrite !andb_true_r.
  rewrite H1d. reflexivity.
Qed.

Lemma shape_lengths (s : wxString) :
  ((length s =? 2) || (length s =? 3)) = true -> length s = 2 \/ length s = 3.
Proof.
  intros H. apply orb_prop in H as [H|H]; apply Nat.eqb_eq in H; auto.
Qed.

Lemma tag_map_plain s :
  plain s = true ->
  map (fun c => if Ascii.eqb c "_"%char then "-"%char else c) s = s.
Proof. intros H. apply map_replace_free, plain_free; auto. Qed.

Lemma tag_map_sep sep :
  sep = "-"%char \/ sep = "_"%char ->
  (if Ascii.eqb sep "_"%char then "-"%char else sep) = "-"%char.
Proof. intros [->| ->]; reflexivity. Qed.

Lemma free_of_cons chars c s :
  free_of chars (c :: s) = negb (Find chars c) && free_of chars s.
Proof. reflexivity. Qed.

(** The subtags of a tag made of plain parts joined by separators. *)
Lemma wxSplit_parts2 a b s1 :
  a <> [] -> plain a = true -> plain b = true ->
  s1 = "-"%char \/ s1 = "_"%char ->
  wxSplit (Replace (a ++ s1 :: b) ["_"%char] ["-"%char]) "-"%char = [a; b].
Proof.
  intros Hne Ha Hb Hs1. rewrite Replace_char, map_app. cbn [map].
  rewrite !tag_map_plain, tag_map_sep by assumption.
  destruct a as [|x a]; [congruence|]. unfold wxSplit. cbn [app].
  change (x :: a ++ "-"%char :: b) with ((x :: a) ++ "-"%char :: b).
  rewrite fields_hit by (apply plain_free; auto).
  rewrite fields_free by (apply plain_free; auto). reflexivity.
Qed.

Lemma wxSplit_parts3 a b c s1 s2 :
  a <> [] -> plain a = true -> plain b = true -> plain c = true ->
  s1 = "-"%char \/ s1 = "_"%char -> s2 = "-"%char \/ s2 = "_"%char ->
  wxSplit (Replace (a ++ s1 :: b ++ s2 :: c) ["_"%char] ["-"%char]) "-"%char
  = [a; b; c].
Proof.
  intros Hne Ha Hb Hc Hs1 Hs2. rewrite Replace_char, map_app. cbn [map].
  rewrite map_app. cbn [map].
  rewrite !tag_map_plain, !tag_map_sep by assumption.
  destruct a as [|x a]; [congruence|]. unfold wxSplit. cbn [app].
  change (x :: a ++ "-"%char :: b ++ "-"%char :: c)
    with ((x :: a) ++ "-"%char :: b ++ "-"%char :: c).
  rewrite fields_hit by (apply plain_free; auto).
  rewrite fields_hit by (apply plain_free; auto).
  rewrite fields_free by (apply plain_free; auto). reflexivity.
Qed.

Lemma wxSplit_parts1 a :
  a <> [] -> plain a = true ->
  wxSplit (Replace a ["_"%char] ["-"%char]) "-"%char = [a].
Proof.
  intros Hne Ha. rewrite Replace_char, tag_map_plain by assumption.
  destruct a as [|x a]; [congruence|]. unfold wxSplit.
  rewrite fields_free by (apply plain_free; auto). reflexivity.
Qed.

Lemma CheckLanguageVariant_none l :
  m_modifier l = [] -> m_extension l = [] -> CheckLanguageVariant l = l.
Proof.
  intros Hm He. unfold CheckLanguageVariant. now rewrite Hm, He.
Qed.

Lemma language_length_ok (l : wxLocaleIdent) :
  length (m_language l) = 2 \/ length (m_language l) = 3 ->
  negb ((length (m_language l) =? 2) || (length (m_language l) =? 3)) = false.
Proof. intros [H|H]; rewrite H; reflexivity. Qed.

Lemma FromTag_subtags_script l script :
  length (m_language l) = 2 \/ length (m_language l) = 3 ->
  length script = 4 ->
  m_modifier l = [] -> m_extension l = [] ->
  FromTag_subtags l [script] = set_script l (Capitalize script).
Proof.
  intros Hl Hs Hm He. unfold FromTag_subtags.
  rewrite (language_length_ok _ Hl). cbn [FromTag_skip_extlangs].
  rewrite Hs. cbn [Nat.eqb andb orb]. rewrite Hs. cbn [Nat.eqb andb orb].
  now apply CheckLanguageVariant_none.
Qed.

Lemma FromTag_subtags_region l region :
  length (m_language l) = 2 \/ length (m_language l) = 3 ->
  length region = 2 \/ length region = 3 ->
  m_modifier l = [] -> m_extension l = [] ->
  FromTag_subtags l [region]
  = if (length region =? 3) && negb (isdigit (at_ region 0))
    then l else set_region l (Upper region).
Proof.
  intros Hl Hr Hm He. unfold FromTag_subtags.
  rewrite (language_length_ok _ Hl). cbn [FromTag_skip_extlangs].
  destruct ((length region =? 3) && negb (isdigit (at_ region 0))); [reflexivity|].
  destruct Hr as [Hr|Hr]; rewrite Hr; cbn [Nat.eqb andb orb];
    now apply CheckLanguageVariant_none.
Qed.

Lemma FromTag_subtags_script_region l script region :
  length (m_language l) = 2 \/ length (m_language l) = 3 ->
  length script = 4 ->
  length region = 2 \/ length region = 3 ->
  m_region l = [] -> m_modifier l = [] -> m_extension l = [] ->
  FromTag_subtags l [script; region]
  = set_region (set_script l (Capitalize script)) (Upper region).
Proof.
  intros Hl Hs Hr Hreg Hm He. unfold FromTag_subtags.
  rewrite (language_length_ok _ Hl). cbn [FromTag_skip_extlangs].
  rewrite Hs. cbn [Nat.eqb andb orb]. rewrite Hs. cbn [Nat.eqb andb orb].
  cbn [m_region set_script]. rewrite Hreg. cbn [empty andb].
  destruct Hr as [Hr|Hr]; rewrite Hr; cbn [Nat.eqb andb orb];
    now apply CheckLanguageVariant_none.
Qed.

(** C2, as amended.  For a language subtag of two or three letters, a
    script subtag of four letters and a region subtag of two or three letters
    and digits, each separator being a hyphen or an underscore, and the
    language database holding no entry under the whole tag when the tag is
    written with hyphens only: FromTag of the language alone, of language and
    script, and of language, script and region (unless the first separator
    is an underscore and the second a hyphen) returns the lower-cased
    language, the capitalized script and the upper-cased region.  For a tag
    of language and region the same holds when the region has two
    characters or starts with a digit; a region of three characters that
    starts with a letter is skipped as an extended language subtag and the
    region stays empty. *)
Theorem FromTag_language_script_region (d : wxLocaleData)
    (lang script region : wxString) (s1 s2 : ascii) :
  language_shape lang = true ->
  script_shape script = true ->
  region_shape region = true ->
  s1 = "-"%char \/ s1 = "_"%char ->
  s2 = "-"%char \/ s2 = "_"%char ->
  main_fields (FromTag d lang) = (Lower lang, [], [])
  /\ ((s1 = "-"%char -> FindLanguageInfo d (lang ++ s1 :: script) = None) ->
      main_fields (FromTag d (lang ++ s1 :: script))
      = (Lower lang, Capitalize script, []))
  /\ ((s1 = "-"%char -> FindLanguageInfo d (lang ++ s1 :: region) = None) ->
      main_fields (FromTag d (lang ++ s1 :: region))
      = (Lower lang, [],
         if (length region =? 3) && negb (isdigit (at_ region 0))
         then [] else Upper region))
  /\ ((s1 = "-"%char -> s2 = "-"%char ->
       FindLanguageInfo d (lang ++ s1 :: script ++ s2 :: region) = None) ->
      ~ (s1 = "_"%char /\ s2 = "-"%char) ->
      main_fields (FromTag d (lang ++ s1 :: script ++ s2 :: region))
      = (Lower lang, Capitalize script, Upper region)).
Proof.
  intros Hlang Hscript Hregion Hs1 Hs2.
  apply andb_prop in Hlang as [Hllen Hlang]. apply shape_lengths in Hllen.
  apply andb_prop in Hscript as [Hslen Hscript]. apply Nat.eqb_eq in Hslen.
  apply andb_prop in Hregion as [Hrlen Hregion]. apply shape_lengths in Hrlen.
  apply only_alpha_plain in Hlang, Hscript. apply only_alnum_plain in Hregion.
  assert (Hlne : lang <> []) by (intros ->; simpl in Hllen; lia).
  assert (Hlow : length (Lower lang) = 2 \/ length (Lower lang) = 3)
    by (unfold Lower; now rewrite length_map).
  assert (Hfree : forall ch s, Find (wxS "@._-") ch = true -> plain s = true ->
                               free_of [ch] s = true) by apply plain_free.
  assert (Hsepfree : forall ch s, (ch = "@"%char \/ ch = "."%char) ->
            (s = "-"%char \/ s = "_"%char) -> negb (Find [ch] s) = true).
  { intros ch s [->| ->] [->| ->]; reflexivity. }
  split; [|split; [|split]].
  - (* the language alone *)
    rewrite FromTag_plain.
    + rewrite wxSplit_parts1 by assumption. reflexivity.
    + apply IsDefaultCLocale_length; lia.
    + apply Hfree; auto.
    + apply Hfree; auto.
    + left. rewrite BeforeFirst_absent by (apply Hfree; auto). cbn [fst snd].
      destruct Hllen as [H|H]; rewrite H; reflexivity.
    + rewrite BeforeLast_absent by (apply Hfree; auto). reflexivity.
  - (* language and script *)
    intros Hdb. rewrite FromTag_plain.
    + rewrite wxSplit_parts2 by assumption. cbv zeta.
      rewrite FromTag_subtags_script; auto.
    + apply (IsDefaultCLocale_sep _ s1 Hs1). apply in_or_app. right. now left.
    + rewrite free_of_app, free_of_cons, !Hfree, Hsepfree; auto.
    + rewrite free_of_app, free_of_cons, !Hfree, Hsepfree; auto.
    + destruct Hs1 as [->| ->].
      * right. now apply Hdb.
      * left. rewrite BeforeFirst_hit by (apply Hfree; auto). cbn [fst snd].
        destruct Hllen as [H|H]; rewrite H; reflexivity.
    + destruct Hs1 as [->| ->].
      * rewrite BeforeLast_absent; [reflexivity|].
        rewrite free_of_app, free_of_cons, !Hfree; auto.
      * rewrite BeforeLast_hit by (apply Hfree; auto). cbn [fst snd].
        rewrite Hslen. apply andb_false_r.
  - (* language and region *)
    intros Hdb. rewrite FromTag_plain.
    + rewrite wxSplit_parts2 by assumption. cbv zeta.
      rewrite FromTag_subtags_region; auto.
      destruct ((length region =? 3) && negb (isdigit (at_ region 0)));
        reflexivity.
    + apply (IsDefaultCLocale_sep _ s1 Hs1). apply in_or_app. right. now left.
    + rewrite free_of_app, free_of_cons, !Hfree, Hsepfree; auto.
    + rewrite free_of_app, free_of_cons, !Hfree, Hsepfree; auto.
    + destruct Hs1 as [->| ->].
      * right. now apply Hdb.
      * left. rewrite BeforeFirst_hit by (apply Hfree; auto). cbn [fst snd].
        destruct Hllen as [H|H]; rewrite H; reflexivity.
    + destruct Hs1 as [->| ->].
      * rewrite BeforeLast_absent; [reflexivity|].
        rewrite free_of_app, free_of_cons, !Hfree; auto.
      * rewrite BeforeLast_hit by (apply Hfree; auto). cbn [fst snd].
        destruct Hrlen as [H|H]; rewrite H; apply andb_false_r.
  - (* language, script and region *)
    intros Hdb Hmix. rewrite FromTag_plain.
    + rewrite wxSplit_parts3 by assumption. cbv zeta.
      rewrite FromTag_subtags_script_region; auto.
    + apply (IsDefaultCLocale_sep _ s1 Hs1). apply in_or_app. right. now left.
    + rewrite free_of_app, free_of_cons, free_of_app, free_of_cons,
        !Hfree, !Hsepfree; auto.
    + rewrite free_of_app, free_of_cons, free_of_app, free_of_cons,
        !Hfree, !Hsepfree; auto.
    + destruct Hs1 as [->| ->].
      * destruct Hs2 as [->| ->].
        -- right. now apply Hdb.
        -- left.
           replace (lang ++ "-"%char :: script ++ "_"%char :: region)
             with ((lang ++ "-"%char :: script) ++ "_"%char :: region)
             by (rewrite <- app_assoc; reflexivity).
           rewrite BeforeFirst_hit.
           ++ cbn [fst snd].
              destruct Hrlen as [H|H]; rewrite H; destruct region;
                try discriminate; cbn [empty orb Nat.ltb Nat.leb];
                apply andb_false_r.
           ++ rewrite free_of_app, free_of_cons, !Hfree; auto.
      * left. rewrite BeforeFirst_hit by (apply Hfree; auto). cbn [fst snd].
        destruct Hllen as [H|H]; rewrite H; reflexivity.
    + destruct Hs2 as [->| ->].
      * destruct Hs1 as [->| ->]; [|exfalso; apply Hmix; now split].
        rewrite BeforeLast_absent; [reflexivity|].
        rewrite free_of_app, free_of_cons, free_of_app, free_of_cons, !Hfree;
          auto.
      * replace (lang ++ s1 :: script ++ "_"%char :: region)
          with ((lang ++ s1 :: script) ++ "_"%char :: region)
          by (rewrite <- app_assoc; reflexivity).
        rewrite BeforeLast_hit by (apply Hfree; auto). cbn [fst snd].
        destruct Hrlen as [H|H]; rewrite H; apply andb_false_r.
Qed.

(** A tag of language, script and region in lower case, with hyphens. *)
Lemma FromTag_language_script_region_witness :
  main_fields (FromTag sample_data (wxS "zh-hans-cn"))
  = (wxS "zh", wxS "Hans", wxS "CN").
Proof.
  pose proof (FromTag_language_script_region sample_data
                (wxS "zh") (wxS "hans") (wxS "cn") "-"%char "-"%char
                eq_refl eq_refl eq_refl (or_introl eq_refl) (or_introl eq_refl))
    as H.
  destruct H as (_ & _ & _ & H). apply H.
  - intros _ _. reflexivity.
  - intros [E _]. discriminate E.
Defined.

(** C2 as stated fails for a region of three letters that directly follows
    the language: the tag below has a language subtag of two letters and a
    region subtag of three characters, but FromTag skips the region as an
    extended language subtag and returns an empty region, not [USA]. *)
Lemma FromTag_region_counterexample :
  language_shape (wxS "en") = true
  /\ region_shape (wxS "usa") = true
  /\ main_fields (FromTag sample_data (wxS "en-usa")) = (wxS "en", [], [])
  /\ m_region (FromTag sample_data (wxS "en-usa")) <> Upper (wxS "usa").
Proof. repeat split; try reflexivity. discriminate. Qed.

(* ------------------------------------------------------------------------- *)
(** ** SplitPath: the extension under the native format *)
(* ------------------------------------------------------------------------- *)

Lemma SplitPath_posLastDot_checked p rest format posLastSlash dpos :
  SplitPath_posLastDot p rest format posLastSlash = Some dpos ->
  dpos <> 0 /\ IsPathSeparator p (at_ rest (dpos - 1)) wxPATH_NATIVE = false.
Proof.
  unfold SplitPath_posLastDot.
  destruct (find_last_of rest [wxFILE_SEP_EXT]) as [d0|];
    [|destruct posLastSlash; discriminate].
  destruct ((d0 =? 0) || IsPathSeparator p (at_ rest (d0 - 1)) wxPATH_NATIVE
            || _) eqn:E; [destruct posLastSlash; discriminate|].
  apply orb_false_iff in E as [E _]. apply orb_false_iff in E as [E0 E1].
  apply Nat.eqb_neq in E0.
  destruct posLastSlash as [s|]; [destruct (d0 <? s)|]; intros H;
    inversion H; subst; auto.
Qed.

Lemma SplitPath_posLastDot_intro p rest format posLastSlash d0 :
  find_last_of rest [wxFILE_SEP_EXT] = Some d0 ->
  d0 <> 0 ->
  IsPathSeparator p (at_ rest (d0 - 1)) wxPATH_NATIVE = false ->
  wxPathFormat_eqb format wxPATH_VMS && Ascii.eqb (at_ rest (d0 - 1)) "]"%char
  = false ->
  (forall s, posLastSlash = Some s -> s <= d0) ->
  SplitPath_posLastDot p rest format posLastSlash = Some d0.
Proof.
  intros Hfind H0 Hsep Hvms Hle. unfold SplitPath_posLastDot.
  rewrite Hfind, Hsep, Hvms. apply Nat.eqb_neq in H0. rewrite H0. simpl.
  destruct posLastSlash as [s|]; auto.
  specialize (Hle s eq_refl). apply Nat.ltb_ge in Hle. now rewrite Hle.
Qed.

Lemma vms_bracket_terminator p format0 c :
  wxPathFormat_eqb (GetFormat p format0) wxPATH_VMS && Ascii.eqb c "]"%char = true ->
  Find (GetPathTerminators p (GetFormat p format0)) c = true.
Proof.
  intros H. apply andb_prop in H as [Hf Hc]. apply Ascii.eqb_eq in Hc. subst c.
  destruct p, format0; try discriminate; reflexivity.
Qed.

Lemma SplitPath_hasExt_posLastDot p fullpath format0 :
  let format := GetFormat p format0 in
  let rest := snd (SplitVolume p fullpath format) in
  sp_hasExt (SplitPath p fullpath format0)
  = match SplitPath_posLastDot p rest format
            (find_last_of rest (GetPathTerminators p format)) with
    | Some _ => true
    | None => false
    end.
Proof.
  cbv zeta. rewrite SplitPath_unfold. cbv zeta.
  destruct (SplitPath_posLastDot _ _ _ _); reflexivity.
Qed.

(** When the separators of the native format are the terminators of the
    format asked for (wxPATH_UNIX on a Unix build, wxPATH_DOS on a Windows
    build), SplitPath reports an extension exactly when the last component of
    the path holds a dot that is not its first character. *)
Theorem SplitPath_hasExt_native (p : wxPlatform) (fullpath : wxString)
    (format0 : wxPathFormat) (f : wxString) :
  let format := GetFormat p format0 in
  let rest := snd (SplitVolume p fullpath format) in
  let terms := GetPathTerminators p format in
  (forall c, IsPathSeparator p c wxPATH_NATIVE = Find terms c) ->
  ((free_of terms rest = true /\ f = rest)
   \/ (exists d t, rest = d ++ t :: f /\ Find terms t = true
                   /\ free_of terms f = true)) ->
  (sp_hasExt (SplitPath p fullpath format0) = true
   <-> exists x a b, f = x :: a ++ wxFILE_SEP_EXT :: b).
Proof.
  cbv zeta. intros Hnative Hf. rewrite SplitPath_hasExt_posLastDot. cbv zeta.
  set (format := GetFormat p format0) in *.
  set (rest := snd (SplitVolume p fullpath format)) in *.
  set (terms := GetPathTerminators p format) in *.
  assert (Hpre : exists pre,
            rest = pre ++ f /\ free_of terms f = true
            /\ ((find_last_of rest terms = None /\ pre = [])
                \/ (exists d t, pre = d ++ [t] /\ Find terms t = true
                                /\ find_last_of rest terms = Some (length d)))).
  { destruct Hf as [[Hfree ->] | (d & t & Hrest & Ht & Hfree)].
    - exists []. repeat split; auto. left. split; auto.
      unfold find_last_of. now apply find_last_of_at_free.
    - exists (d ++ [t]). rewrite <- app_assoc. repeat split; auto.
      right. exists d, t. repeat split; auto.
      unfold find_last_of. rewrite Hrest.
      now rewrite find_last_of_at_hit. }
  clear Hf. destruct Hpre as (pre & Hrest & Hfree & Hslash).
  split.
  - destruct (SplitPath_posLastDot p rest format (find_last_of rest terms))
      as [dpos|] eqn:E; [intros _|discriminate].
    destruct (SplitPath_posLastDot_checked _ _ _ _ _ E) as [H0 Hsep].
    destruct (SplitPath_posLastDot_some _ _ _ _ _ E)
      as (a & b & Ha & -> & Hb & Hle).
    rewrite Hnative in Hsep.
    destruct Hslash as [[_ ->] | (d & t & -> & Ht & Hs)].
    + simpl in Hrest. destruct a as [|x a]; [simpl in H0; congruence|].
      exists x, a, b. now rewrite <- Hrest, Ha.
    + specialize (Hle _ Hs). rewrite <- app_assoc in Hrest. simpl in Hrest.
      rewrite Ha in Hrest. symmetry in Hrest.
      destruct (app_cons_split _ _ _ _ _ _ Hrest Hle)
        as [(_ & Heq & _) | (a' & -> & Hf')].
      * exfalso. subst t. subst terms format.
        now rewrite terminators_no_dot in Ht.
      * destruct a' as [|x a'].
        -- exfalso. rewrite Ha in Hsep.
           replace (length (d ++ [t]) - 1) with (length d) in Hsep
             by (rewrite length_app; simpl; lia).
           rewrite <- app_assoc in Hsep. simpl in Hsep.
           unfold at_ in Hsep. rewrite nth_middle in Hsep. congruence.
        -- exists x, a', b. exact Hf'.
  - intros (x & a & b & Hfx).
    destruct (find_last_of_at f [wxFILE_SEP_EXT] 0) as [j|] eqn:Ej.
    2:{ apply find_last_of_at_none in Ej. rewrite Hfx in Ej.
        rewrite free_of_cons, free_of_app, free_of_cons in Ej.
        rewrite !Find_single, Ascii.eqb_refl in Ej. simpl in Ej.
        rewrite !andb_false_r in Ej. discriminate. }
    destruct (find_last_of_at_some _ _ _ _ Ej) as (g & c0 & v & Hg & _ & Hc0 & Hv).
    rewrite Find_single in Hc0. apply Ascii.eqb_eq in Hc0. subst c0.
    assert (Hgne : g <> []).
    { intros ->. simpl in Hg. rewrite Hg in Hfx. inversion Hfx; subst.
      rewrite free_of_app, free_of_cons, Find_single, Ascii.eqb_refl in Hv.
      simpl in Hv. rewrite andb_false_r in Hv. discriminate. }
    destruct (exists_last Hgne) as (g' & c & ->).
    assert (Hc : Find terms c = false).
    { rewrite Hg in Hfree. rewrite <- app_assoc in Hfree. simpl in Hfree.
      rewrite free_of_app, free_of_cons in Hfree.
      apply andb_prop in Hfree as [_ Hfree]. apply andb_prop in Hfree as [Hfree _].
      now apply negb_true_iff in Hfree. }
    assert (Hrest' : rest = (pre ++ g' ++ [c]) ++ wxFILE_SEP_EXT :: v).
    { rewrite Hrest, Hg. now rewrite <- !app_assoc. }
    assert (Hat : at_ rest (length (pre ++ g' ++ [c]) - 1) = c).
    { rewrite Hrest'.
      replace (length (pre ++ g' ++ [c]) - 1) with (length (pre ++ g'))
        by (rewrite !length_app; simpl; lia).
      replace ((pre ++ g' ++ [c]) ++ wxFILE_SEP_EXT :: v)
        with ((pre ++ g') ++ c :: wxFILE_SEP_EXT :: v)
        by (rewrite <- !app_assoc; reflexivity).
      unfold at_. apply nth_middle. }
    rewrite (SplitPath_posLastDot_intro p rest format _
               (length (pre ++ g' ++ [c]))); auto.
    + unfold find_last_of. rewrite Hrest'.
      rewrite find_last_of_at_hit; auto.
    + rewrite !length_app. simpl. lia.
    + rewrite Hat, Hnative. exact Hc.
    + rewrite Hat. destruct (wxPathFormat_eqb format wxPATH_VMS
                             && Ascii.eqb c "]"%char) eqn:E; auto.
      subst format terms. apply vms_bracket_terminator in E. congruence.
    + intros s Hs. destruct Hslash as [[Hn _] | (d & t & -> & _ & Hs')].
      * congruence.
      * rewrite Hs' in Hs. inversion Hs; subst. rewrite !length_app. simpl. lia.
Qed.

Lemma native_separators_unix c :
  IsPathSeparator Platform_UNIX c wxPATH_NATIVE
  = Find (GetPathTerminators Platform_UNIX (GetFormat Platform_UNIX wxPATH_NATIVE)) c.
Proof.
  unfold IsPathSeparator. destruct (Ascii.eqb c wxUniChar_NUL) eqn:E.
  - apply Ascii.eqb_eq in E. subst c. reflexivity.
  - reflexivity.
Qed.

(** On a Unix build, under the native format. *)
Lemma SplitPath_hasExt_native_witness :
  sp_hasExt (SplitPath Platform_UNIX (wxS "/home/.bashrc") wxPATH_NATIVE) = false
  /\ sp_hasExt (SplitPath Platform_UNIX (wxS "/home/foo.") wxPATH_NATIVE) = true.
Proof.
  split.
  - destruct (sp_hasExt (SplitPath Platform_UNIX (wxS "/home/.bashrc") wxPATH_NATIVE))
      eqn:E; [|reflexivity].
    apply (SplitPath_hasExt_native Platform_UNIX (wxS "/home/.bashrc")
             wxPATH_NATIVE (wxS ".bashrc")) in E.
    + destruct E as (x & a & b & E). inversion E as [[Hx Ha]].
      apply (f_equal (existsb (Ascii.eqb "."%char))) in Ha.
      rewrite existsb_app in Ha. simpl in Ha. rewrite orb_true_r in Ha.
      discriminate Ha.
    + apply native_separators_unix.
    + right. exists (wxS "/home"), "/"%char. repeat split; reflexivity.
  - apply (SplitPath_hasExt_native Platform_UNIX (wxS "/home/foo.")
             wxPATH_NATIVE (wxS "foo.")).
    + apply native_separators_unix.
    + right. exists (wxS "/home"), "/"%char. repeat split; reflexivity.
    + exists "f"%char, (wxS "oo"), []. reflexivity.
Defined.

(* ------------------------------------------------------------------------- *)
(** ** FromTag: an underscore before the script and a hyphen after it *)
(* ------------------------------------------------------------------------- *)

Lemma only_chars_alpha_hyphen a b :
  only_chars (a ++ "-"%char :: b) validCharsAlpha = false.
Proof.
  rewrite only_chars_forallb, forallb_app. cbn [forallb].
  replace (Find validCharsAlpha "-"%char) with false by reflexivity.
  cbn [andb]. apply andb_false_r.
Qed.

(** For a tag written language, underscore, script, hyphen, region, the
    step that looks for a Windows sort order cuts the tag at the underscore:
    what follows it is longer than four characters, and although it is not
    accepted as a sort order, it is dropped.  The identifier returned has the
    language only. *)
Theorem FromTag_underscore_then_hyphen (d : wxLocaleData)
    (lang script region : wxString) :
  language_shape lang = true ->
  script_shape script = true ->
  region_shape region = true ->
  FromTag d (lang ++ "_"%char :: script ++ "-"%char :: region)
  = set_tag (set_language wxLocaleIdent_empty (Lower lang))
            (lang ++ "_"%char :: script ++ "-"%char :: region).
Proof.
  intros Hlang Hscript Hregion.
  apply andb_prop in Hlang as [Hllen Hlang]. apply shape_lengths in Hllen.
  apply andb_prop in Hscript as [Hslen Hscript]. apply Nat.eqb_eq in Hslen.
  apply andb_prop in Hregion as [Hrlen Hregion]. apply shape_lengths in Hrlen.
  apply only_alpha_plain in Hlang, Hscript. apply only_alnum_plain in Hregion.
  assert (Hlne : lang <> []) by (intros ->; simpl in Hllen; lia).
  set (tag := lang ++ "_"%char :: script ++ "-"%char :: region).
  assert (Hfree : forall ch, ch = "@"%char \/ ch = "."%char ->
                             free_of [ch] tag = true).
  { intros ch Hch. unfold tag.
    rewrite free_of_app, free_of_cons, free_of_app, free_of_cons.
    rewrite !plain_free by (auto; destruct Hch; subst; reflexivity).
    destruct Hch; subst; reflexivity. }
  unfold FromTag.
  rewrite (IsDefaultCLocale_sep tag "_"%char) by
    (auto; unfold tag; apply in_or_app; right; now left).
  rewrite (BeforeFirst_absent tag "@"%char) by (apply Hfree; auto).
  cbn [empty negb].
  rewrite (BeforeFirst_absent tag "."%char) by (apply Hfree; auto).
  cbn [empty negb].
  unfold tag at 1 2. rewrite BeforeFirst_hit by (apply plain_free; auto).
  replace (3 <? length lang) with false
    by (destruct Hllen as [H|H]; rewrite H; reflexivity).
  cbn [andb]. fold tag. unfold tag at 1.
  rewrite BeforeLast_hit.
  2:{ rewrite free_of_app, free_of_cons, !plain_free; auto. }
  replace (negb (empty lang)) with true by (destruct lang; [congruence|reflexivity]).
  replace (4 <? length (script ++ "-"%char :: region)) with true
    by (rewrite length_app, Hslen; reflexivity).
  cbn [andb m_modifier m_charset wxLocaleIdent_empty empty].
  unfold SortOrder. rewrite only_chars_alpha_hyphen, andb_false_r.
  change (wxS "_") with ["_"%char]. change (wxS "-") with ["-"%char].
  rewrite wxSplit_parts1 by assumption. reflexivity.
Qed.

(** The tag zh_Hans-CN. *)
Lemma FromTag_underscore_then_hyphen_witness :
  main_fields (FromTag sample_data (wxS "zh_Hans-CN")) = (wxS "zh", [], []).
Proof.
  exact (f_equal main_fields
           (FromTag_underscore_then_hyphen sample_data
              (wxS "zh") (wxS "Hans") (wxS "CN") eq_refl eq_refl eq_refl)).
Defined.

(* ------------------------------------------------------------------------- *)
(** ** SplitPath on a last component; SetFullName *)
(* ------------------------------------------------------------------------- *)

Lemma find_last_of_at_app_free a b chars i :
  free_of chars b = true ->
  find_last_of_at (a ++ b) chars i = find_last_of_at a chars i.
Proof.
  intros Hb. revert i; induction a as [|c a IH]; intros i; simpl.
  - now apply find_last_of_at_free.
  - now rewrite IH.
Qed.

Lemma find_last_of_at_bound s chars i j :
  find_last_of_at s chars i = Some j -> i <= j < i + length s.
Proof.
  intros H. destruct (find_last_of_at_some _ _ _ _ H) as (a & t & b & -> & -> & _).
  rewrite length_app. simpl. lia.
Qed.

Lemma at_app_left (a b : wxString) n : n < length a -> at_ (a ++ b) n = at_ a n.
Proof. intros H. unfold at_. now apply app_nth1. Qed.

Lemma at_middle (a b : wxString) c : at_ (a ++ c :: b) (length a) = c.
Proof. unfold at_. apply nth_middle. Qed.

Lemma last_component_slash terms rest pre f :
  last_component terms rest pre f ->
  find_last_of rest terms
  = match pre with [] => None | _ :: _ => Some (length pre - 1) end.
Proof.
  intros (-> & Hf & [-> | (d & t & -> & Ht)]).
  - simpl. unfold find_last_of. now apply find_last_of_at_free.
  - unfold find_last_of. rewrite <- app_assoc. simpl.
    rewrite find_last_of_at_hit by assumption.
    destruct (d ++ [t]) eqn:E; [destruct d; discriminate|].
    rewrite <- E, length_app. simpl. f_equal. lia.
Qed.

Lemma SplitPath_posLastDot_component p rest format pre f :
  let terms := GetPathTerminators p format in
  (forall c, IsPathSeparator p c wxPATH_NATIVE = Find terms c) ->
  (wxPathFormat_eqb format wxPATH_VMS = true -> Find terms "]"%char = true) ->
  Find terms wxFILE_SEP_EXT = false ->
  last_component terms rest pre f ->
  SplitPath_posLastDot p rest format (find_last_of rest terms)
  = match find_last_of f [wxFILE_SEP_EXT] with
    | Some (S k) => Some (length pre + S k)
    | _ => None
    end.
Proof.
  cbv zeta. intros Hnative Hvms Hdot Hlc.
  rewrite (last_component_slash _ _ _ _ Hlc).
  destruct Hlc as (-> & Hf & Hpre).
  unfold SplitPath_posLastDot.
  destruct (find_last_of f [wxFILE_SEP_EXT]) as [j|] eqn:Ej.
  - unfold find_last_of in Ej.
    destruct (find_last_of_at_some _ _ _ _ Ej) as (g & c0 & v & Hg & Hj & Hc0 & Hv).
    simpl in Hj. subst j. rewrite Find_single in Hc0.
    apply Ascii.eqb_eq in Hc0. subst c0.
    assert (Hfind : find_last_of (pre ++ f) [wxFILE_SEP_EXT]
                    = Some (length pre + length g)).
    { unfold find_last_of. rewrite Hg, app_assoc.
      rewrite find_last_of_at_hit;
        [now rewrite length_app | now rewrite Find_single, Ascii.eqb_refl
        | assumption]. }
    rewrite Hfind.
    destruct g as [|x g _] using rev_ind.
    + (* the dot is the first character of the component *)
      simpl length. rewrite Nat.add_0_r.
      destruct Hpre as [-> | (d & t & -> & Ht)]; [reflexivity|].
      replace (length (d ++ [t]) =? 0) with false
        by (rewrite length_app; simpl; symmetry; apply Nat.eqb_neq; lia).
      replace (length (d ++ [t]) - 1) with (length d)
        by (rewrite length_app; simpl; lia).
      rewrite <- !app_assoc. simpl. rewrite at_middle, Hnative, Ht. simpl.
      destruct (d ++ [t]); reflexivity.
    + rewrite length_app. simpl length.
      replace (length g + 1) with (S (length g)) by lia.
      replace (length pre + S (length g) =? 0) with false
        by (symmetry; apply Nat.eqb_neq; lia).
      assert (Hx : Find (GetPathTerminators p format) x = false).
      { rewrite Hg in Hf. rewrite <- !app_assoc in Hf.
        rewrite free_of_app in Hf. apply andb_prop in Hf as [_ Hf].
        simpl in Hf. apply andb_prop in Hf as [Hf _].
        now apply negb_true_iff in Hf. }
      assert (Hat : at_ (pre ++ f) (length pre + S (length g) - 1) = x).
      { rewrite Hg. replace (length pre + S (length g) - 1) with (length (pre ++ g))
          by (rewrite length_app; lia).
        replace (pre ++ (g ++ [x]) ++ wxFILE_SEP_EXT :: v)
          with ((pre ++ g) ++ x :: wxFILE_SEP_EXT :: v)
          by (rewrite <- !app_assoc; reflexivity).
        apply at_middle. }
      rewrite Hat, Hnative, Hx.
      assert (Hb : wxPathFormat_eqb format wxPATH_VMS && Ascii.eqb x "]"%char = false).
      { destruct (wxPathFormat_eqb format wxPATH_VMS) eqn:Ev; [|reflexivity].
        destruct (Ascii.eqb x "]"%char) eqn:Ex; [|reflexivity].
        apply Ascii.eqb_eq in Ex. pose proof (Hvms eq_refl) as H1. congruence. }
      rewrite Hb. simpl.
      destruct pre as [|y pre]; [reflexivity|].
      replace (length (y :: pre) + S (length g) <? length (y :: pre) - 1) with false
        by (symmetry; apply Nat.ltb_ge; simpl; lia).
      reflexivity.
  - unfold find_last_of in Ej. apply find_last_of_at_none in Ej.
    unfold find_last_of. rewrite find_last_of_at_app_free by assumption.
    destruct (find_last_of_at pre [wxFILE_SEP_EXT] 0) as [d0|] eqn:Ed.
    2:{ destruct pre; reflexivity. }
    destruct Hpre as [-> | (d & t & -> & Ht)]; [discriminate|].
    assert (Hd0 : d0 < length d).
    { assert (Ht' : free_of [wxFILE_SEP_EXT] [t] = true).
      { unfold free_of. cbn [forallb]. rewrite Find_single. destruct (Ascii.eqb t wxFILE_SEP_EXT) eqn:E;
          [|reflexivity]. apply Ascii.eqb_eq in E. subst t. congruence. }
      rewrite find_last_of_at_app_free in Ed by assumption.
      apply find_last_of_at_bound in Ed. lia. }
    destruct (_ || _ || _); [destruct (d ++ [t]); reflexivity|].
    destruct (d ++ [t]) eqn:E; [destruct d; discriminate|].
    rewrite <- E. replace (length (d ++ [t]) - 1) with (length d)
      by (rewrite length_app; simpl; lia).
    apply Nat.ltb_lt in Hd0. now rewrite Hd0.
Qed.

Lemma skipn_app_length {A} (a b : list A) n :
  skipn (length a + n) (a ++ b) = skipn n b.
Proof. induction a as [|x a IH]; simpl; auto. Qed.

Lemma vms_terminator p format0 :
  wxPathFormat_eqb (GetFormat p format0) wxPATH_VMS = true ->
  Find (GetPathTerminators p (GetFormat p format0)) "]"%char = true.
Proof. destruct p, format0; try discriminate; reflexivity. Qed.

(** Name, extension and flag of SplitPath are those of the last component,
    where the separators of the native format are the terminators of the
    format asked for. *)
Lemma SplitPath_component p fullpath format0 pre f :
  let format := GetFormat p format0 in
  let rest := snd (SplitVolume p fullpath format) in
  let terms := GetPathTerminators p format in
  (forall c, IsPathSeparator p c wxPATH_NATIVE = Find terms c) ->
  last_component terms rest pre f ->
  let r := SplitPath p fullpath format0 in
  (sp_name r, sp_ext r, sp_hasExt r) = split_ext f.
Proof.
  cbv zeta. intros Hnative Hlc. rewrite SplitPath_unfold. cbv zeta.
  set (format := GetFormat p format0) in *.
  set (rest := snd (SplitVolume p fullpath format)) in *.
  rewrite (SplitPath_posLastDot_component p rest format pre f Hnative
             (vms_terminator p format0) (terminators_no_dot p format0) Hlc).
  rewrite (last_component_slash _ _ _ _ Hlc).
  destruct Hlc as (Hrest & Hf & Hpre). rewrite Hrest.
  unfold split_ext.
  destruct (find_last_of f [wxFILE_SEP_EXT]) as [[|k]|] eqn:Ej; cbn [sp_name sp_ext sp_hasExt].
  - unfold Mid. destruct pre as [|y pre]; [reflexivity|].
    replace (length (y :: pre) - 1 + 1) with (length (y :: pre) + 0) by (cbn [length]; lia).
    now rewrite skipn_app_length.
  - unfold Mid. destruct pre as [|y pre].
    + cbn [length app]. rewrite skipn_O.
      replace (0 + S k + 1) with (S (S k)) by lia. reflexivity.
    + replace (length (y :: pre) - 1 + 1) with (length (y :: pre) + 0) by (cbn [length]; lia).
      rewrite skipn_app_length.
      replace (length (y :: pre) + S k - (length (y :: pre) - 1) - 1) with (S k)
        by (cbn [length]; lia).
      replace (length (y :: pre) + S k + 1) with (length (y :: pre) + S (S k)) by lia.
      now rewrite skipn_app_length.
  - unfold Mid. destruct pre as [|y pre]; [reflexivity|].
    replace (length (y :: pre) - 1 + 1) with (length (y :: pre) + 0) by (cbn [length]; lia).
    now rewrite skipn_app_length.
Qed.

Lemma native_separators_windows c :
  IsPathSeparator Platform_WINDOWS c wxPATH_NATIVE
  = Find (GetPathTerminators Platform_WINDOWS (GetFormat Platform_WINDOWS wxPATH_NATIVE)) c.
Proof.
  unfold IsPathSeparator. destruct (Ascii.eqb c wxUniChar_NUL) eqn:E.
  - apply Ascii.eqb_eq in E. subst c. reflexivity.
  - reflexivity.
Qed.

Lemma SplitVolume_none p s :
  free_of (GetVolumeSeparator p wxPATH_NATIVE) s = true ->
  free_of (GetPathTerminators p wxPATH_NATIVE) s = true ->
  SplitVolume p s (GetFormat p wxPATH_NATIVE) = ([], s).
Proof.
  intros Hv Ht. destruct p; cbn [GetFormat]; unfold SplitVolume; cbn [GetFormat].
  - (* Windows *)
    assert (H1 : StartsWith s wxMSW_EXTENDED_PATH_PREFIX = false).
    { destruct s as [|c s]; [reflexivity|]. simpl in Ht.
      apply andb_prop in Ht as [Ht _].
      destruct (Ascii.eqb c "\"%char) eqn:E.
      - apply Ascii.eqb_eq in E. subst c. discriminate.
      - change wxMSW_EXTENDED_PATH_PREFIX with ("\"%char :: wxS "\?\").
        cbn [StartsWith]. now rewrite Ascii.eqb_sym, E. }
    assert (H2 : IsUNCPath s = false).
    { unfold IsUNCPath. destruct s as [|c s]; [reflexivity|]. simpl in Ht.
      apply andb_prop in Ht as [Ht _].
      replace (IsDOSPathSep (at_ (c :: s) 0)) with false.
      - now rewrite andb_false_r.
      - unfold at_, IsDOSPathSep. simpl. unfold Find in Ht. simpl in Ht.
        rewrite orb_false_r in Ht. apply negb_true_iff in Ht. now rewrite Ht. }
    rewrite H1, H2. unfold SplitVolume_colon, find_first_of.
    simpl skipn. now rewrite find_first_of_at_free.
  - unfold SplitVolume_colon, find_first_of. simpl skipn.
    now rewrite find_first_of_at_free.
  - reflexivity.
Qed.

(** A full name that holds neither a volume separator nor a path terminator
    of the native format is what GetFullName returns after SetFullName; on
    Unix and Windows builds the name and the extension stored are the two
    sides of its last dot, unless that dot is its first character, in which
    case there is no extension.  The rest of the object is unchanged. *)
Theorem SetFullName_GetFullName (p : wxPlatform) (fn : wxFileName)
    (fullname : wxString) :
  free_of (GetVolumeSeparator p wxPATH_NATIVE) fullname = true ->
  free_of (GetPathTerminators p wxPATH_NATIVE) fullname = true ->
  let fn' := SetFullName p fn fullname in
  GetFullName fn' = fullname
  /\ (p <> Platform_VMS ->
      (m_name fn', m_ext fn', m_hasExt fn') = split_ext fullname)
  /\ m_volume fn' = m_volume fn /\ m_dirs fn' = m_dirs fn
  /\ m_relative fn' = m_relative fn.
Proof.
  intros Hv Ht. cbv zeta.
  assert (Hsv := SplitVolume_none p fullname Hv Ht).
  assert (Hlc : last_component (GetPathTerminators p (GetFormat p wxPATH_NATIVE))
                  (snd (SplitVolume p fullname (GetFormat p wxPATH_NATIVE)))
                  [] fullname).
  { rewrite Hsv. repeat split; auto. destruct p; exact Ht. }
  split; [|split; [|repeat split]].
  - unfold SetFullName, GetFullName. cbn [m_name m_ext m_hasExt].
    rewrite SplitPath_unfold. cbv zeta. rewrite Hsv. cbn [fst snd].
    assert (Ht' : free_of (GetPathTerminators p (GetFormat p wxPATH_NATIVE)) fullname = true)
      by (destruct p; exact Ht).
    unfold find_last_of. rewrite (find_last_of_at_free _ _ _ Ht').
    pose proof (SplitPath_name_ext p fullname (GetFormat p wxPATH_NATIVE) None
                  fullname eq_refl ltac:(discriminate)) as H.
    cbv zeta in H.
    destruct (SplitPath_posLastDot p fullname (GetFormat p wxPATH_NATIVE) None);
      cbn [sp_name sp_ext sp_hasExt]; exact H.
  - intros Hp. unfold SetFullName. cbn [m_name m_ext m_hasExt].
    apply (SplitPath_component p fullname wxPATH_NATIVE [] fullname); auto.
    destruct p; [apply native_separators_windows|congruence|apply native_separators_unix].
Qed.

(* ------------------------------------------------------------------------- *)
(** ** Volume strings *)
(* ------------------------------------------------------------------------- *)

Lemma StartsWith_cons c s x pre :
  StartsWith (c :: s) (x :: pre) = Ascii.eqb x c && StartsWith s pre.
Proof. reflexivity. Qed.

Lemma SplitVolume_drive p c path :
  IsDOSPathSep c = false -> c <> wxFILE_SEP_DSK ->
  SplitVolume p (c :: wxFILE_SEP_DSK :: path) wxPATH_DOS = ([c], path).
Proof.
  intros Hsep Hc. unfold SplitVolume.
  replace (GetFormat p wxPATH_DOS) with wxPATH_DOS by reflexivity.
  assert (Hb : Ascii.eqb "\"%char c = false).
  { destruct (Ascii.eqb "\"%char c) eqn:E; [|reflexivity].
    apply Ascii.eqb_eq in E. subst c. discriminate. }
  change wxMSW_EXTENDED_PATH_PREFIX with ("\"%char :: wxS "\?\").
  rewrite StartsWith_cons, Hb. cbn [andb].
  replace (IsUNCPath (c :: wxFILE_SEP_DSK :: path)) with false.
  2:{ unfold IsUNCPath. change (at_ (c :: wxFILE_SEP_DSK :: path) 0) with c.
      now rewrite Hsep, andb_false_r. }
  unfold SplitVolume_colon, find_first_of.
  replace (GetVolumeSeparator p wxPATH_DOS) with [wxFILE_SEP_DSK] by reflexivity.
  cbn [skipn find_first_of_at]. rewrite !Find_single.
  replace (Ascii.eqb c wxFILE_SEP_DSK) with false
    by (symmetry; now apply Ascii.eqb_neq).
  rewrite Ascii.eqb_refl. reflexivity.
Qed.

Lemma SplitVolume_colon_inv p s format v path :
  GetVolumeSeparator p format = [wxFILE_SEP_DSK] ->
  SplitVolume_colon p s format = (v, path) -> v <> [] ->
  s = v ++ wxFILE_SEP_DSK :: path.
Proof.
  intros Hsep. unfold SplitVolume_colon, find_first_of. rewrite Hsep. simpl skipn.
  destruct (find_first_of_at s [wxFILE_SEP_DSK] 0) as [[|k]|] eqn:E;
    intros H Hv; inversion H; subst; try congruence.
  clear H Hv. unfold Left, Mid.
  assert (Hgen : forall s i j, find_first_of_at s [wxFILE_SEP_DSK] i = Some j ->
             i <= j /\ s = firstn (j - i) s ++ wxFILE_SEP_DSK :: skipn (j - i + 1) s).
  { clear. induction s as [|c s IH]; intros i j H; cbn [find_first_of_at] in H;
      [discriminate|].
    rewrite Find_single in H. destruct (Ascii.eqb c wxFILE_SEP_DSK) eqn:Ec.
    - inversion H; subst. apply Ascii.eqb_eq in Ec. subst c.
      rewrite Nat.sub_diag. split; [lia|reflexivity].
    - destruct (IH _ _ H) as [Hle Hs]. split; [lia|].
      replace (j - i) with (S (j - S i)) by lia. simpl. now rewrite <- Hs. }
  destruct (Hgen _ _ _ E) as [_ Hs]. rewrite Nat.sub_0_r in Hs. exact Hs.
Qed.

Lemma find_first_of_at_ge s chars i j :
  find_first_of_at s chars i = Some j -> i <= j.
Proof.
  revert i; induction s as [|c s IH]; intros i H; simpl in H; [discriminate|].
  destruct (Find chars c).
  - inversion H; lia.
  - apply IH in H. lia.
Qed.

Lemma StartsWith_length s pre : StartsWith s pre = true -> length pre <= length s.
Proof.
  revert s; induction pre as [|x pre IH]; intros s H; simpl; [lia|].
  destruct s as [|c s]; [discriminate|]. rewrite StartsWith_cons in H.
  apply andb_prop in H as [_ H]. apply IH in H. simpl. lia.
Qed.

Lemma set_leading_backslashes_length v :
  length (set_leading_backslashes v) = length v.
Proof. destruct v as [|a [|b v]]; reflexivity. Qed.

(** Writing a volume and splitting it off again.  Under wxPATH_DOS, for a
    drive letter (one character that is neither a separator nor a colon),
    SplitVolume applied to the volume string followed by any path gives back
    the letter and the path; so it does for what GetVolumeString builds,
    the separator it appends on request going to the path.  Under wxPATH_VMS
    the same holds for every non-empty volume without a colon.  Conversely,
    when SplitVolume returns a volume of one character (wxPATH_DOS) or any
    non-empty volume (wxPATH_VMS), the volume string followed by the path is
    the string that was split. *)
Theorem SplitVolume_GetVolumeString (p : wxPlatform) :
  (forall c path, IsDOSPathSep c = false -> c <> wxFILE_SEP_DSK ->
     SplitVolume p (wxGetVolumeString p [c] wxPATH_DOS ++ path) wxPATH_DOS
     = ([c], path))
  /\ (forall drive flags path,
        IsDOSPathSep drive = false -> drive <> wxFILE_SEP_DSK ->
        SplitVolume p (GetVolumeString drive flags ++ path) wxPATH_DOS
        = ([drive],
           (if has_flag flags wxPATH_GET_SEPARATOR then [wxFILE_SEP_PATH_DOS]
            else []) ++ path))
  /\ (forall volume path,
        volume <> [] -> free_of [wxFILE_SEP_DSK] volume = true ->
        SplitVolume p (wxGetVolumeString p volume wxPATH_VMS ++ path) wxPATH_VMS
        = (volume, path))
  /\ (forall s v path,
        SplitVolume p s wxPATH_DOS = (v, path) -> length v = 1 ->
        wxGetVolumeString p v wxPATH_DOS ++ path = s)
  /\ (forall s v path,
        SplitVolume p s wxPATH_VMS = (v, path) -> v <> [] ->
        wxGetVolumeString p v wxPATH_VMS ++ path = s).
Proof.
  split; [|split; [|split; [|split]]].
  - intros c path Hsep Hc. now apply SplitVolume_drive.
  - intros drive flags path Hsep Hc. unfold GetVolumeString.
    destruct (has_flag flags wxPATH_GET_SEPARATOR); cbn [app];
      now apply SplitVolume_drive.
  - intros volume path Hne Hfree.
    destruct volume as [|x volume]; [congruence|].
    unfold wxGetVolumeString. cbn [empty].
    replace (GetFormat p wxPATH_VMS) with wxPATH_VMS by reflexivity.
    replace (GetVolumeSeparator p wxPATH_VMS) with [wxFILE_SEP_DSK] by reflexivity.
    unfold SplitVolume.
    replace (GetFormat p wxPATH_VMS) with wxPATH_VMS by reflexivity.
    unfold SplitVolume_colon, find_first_of.
    replace (GetVolumeSeparator p wxPATH_VMS) with [wxFILE_SEP_DSK] by reflexivity.
    rewrite skipn_O, <- app_assoc. cbn [app].
    change (x :: volume ++ wxFILE_SEP_DSK :: path)
      with ((x :: volume) ++ wxFILE_SEP_DSK :: path).
    rewrite find_first_of_at_hit;
      [|assumption|now rewrite Find_single, Ascii.eqb_refl].
    rewrite Nat.add_0_l. unfold Left, Mid.
    change (length (x :: volume)) with (S (length volume)). cbv iota beta.
    change (S (length volume)) with (length (x :: volume)).
    rewrite firstn_length_app.
    replace ((x :: volume) ++ wxFILE_SEP_DSK :: path)
      with (((x :: volume) ++ [wxFILE_SEP_DSK]) ++ path)
      by (rewrite <- app_assoc; reflexivity).
    replace (length (x :: volume) + 1)
      with (length ((x :: volume) ++ [wxFILE_SEP_DSK]))
      by (rewrite length_app; reflexivity).
    now rewrite skipn_length_app.
  - intros s v path H Hlen. unfold SplitVolume in H.
    replace (GetFormat p wxPATH_DOS) with wxPATH_DOS in H by reflexivity.
    destruct (StartsWith s wxMSW_EXTENDED_PATH_PREFIX) eqn:Hext.
    { exfalso. apply StartsWith_length in Hext.
      change (length wxMSW_EXTENDED_PATH_PREFIX) with 4 in Hext.
      unfold find, find_first_of in H.
      destruct (find_first_of_at _ _ _) as [j|] eqn:Ej.
      - apply find_first_of_at_ge in Ej.
        change wxMSW_EXTENDED_PATH_PREFIX_LEN with 4 in Ej.
        inversion H; subst. unfold Mid in Hlen.
        rewrite ?skipn_O, length_firstn in Hlen. lia.
      - inversion H; subst. unfold Mid in Hlen. rewrite ?skipn_O in Hlen. lia. }
    destruct (IsUNCPath s) eqn:Hunc.
    { exfalso. unfold IsUNCPath in Hunc.
      apply andb_prop in Hunc as [Hunc _]. apply andb_prop in Hunc as [Hunc _].
      apply andb_prop in Hunc as [Hunc _]. apply Nat.leb_le in Hunc.
      unfold find_first_of in H.
      destruct (find_first_of_at _ _ _) as [j|] eqn:Ej.
      - apply find_first_of_at_ge in Ej. inversion H; subst.
        rewrite set_leading_backslashes_length in Hlen. unfold Left in Hlen.
        rewrite length_firstn in Hlen. lia.
      - inversion H; subst. rewrite set_leading_backslashes_length in Hlen. lia. }
    destruct v as [|c [|c' v]]; try discriminate.
    apply SplitVolume_colon_inv in H; [|reflexivity|discriminate].
    subst s. reflexivity.
  - intros s v path H Hne. unfold SplitVolume in H.
    replace (GetFormat p wxPATH_VMS) with wxPATH_VMS in H by reflexivity.
    apply SplitVolume_colon_inv in H; [|reflexivity|assumption].
    subst s. unfold wxGetVolumeString.
    destruct v as [|c v]; [congruence|]. cbn [empty].
    replace (GetFormat p wxPATH_VMS) with wxPATH_VMS by reflexivity.
    replace (GetVolumeSeparator p wxPATH_VMS) with [wxFILE_SEP_DSK] by reflexivity.
    now rewrite <- app_assoc.
Qed.

(* ------------------------------------------------------------------------- *)
(** ** Assign and GetFullPath on a Unix build *)
(* ------------------------------------------------------------------------- *)

Lemma fields_of_component seps d t rest cur :
  free_of seps d = true -> Find seps t = true ->
  fields_of seps (d ++ t :: rest) cur = (rev cur ++ d) :: fields_of seps rest [].
Proof.
  revert cur; induction d as [|c d IH]; intros cur Hd Ht.
  - cbn [app fields_of]. rewrite Ht. now rewrite app_nil_r.
  - cbn [app fields_of]. simpl in Hd. apply andb_prop in Hd as [Hc Hd].
    apply negb_true_iff in Hc. rewrite Hc, IH by assumption.
    cbn [rev]. now rewrite <- app_assoc.
Qed.

Lemma fields_of_free seps d cur :
  free_of seps d = true -> fields_of seps d cur = [rev cur ++ d].
Proof.
  revert cur; induction d as [|c d IH]; intros cur Hd.
  - cbn [fields_of]. now rewrite app_nil_r.
  - cbn [fields_of]. simpl in Hd. apply andb_prop in Hd as [Hc Hd].
    apply negb_true_iff in Hc. rewrite Hc, IH by assumption.
    cbn [rev]. now rewrite <- app_assoc.
Qed.

(** The directory components written one after the other, each followed by
    the separator. *)
Lemma DoGetPath_dirs_unix p dirs :
  DoGetPath_dirs p wxPATH_UNIX true dirs
  = flat_map (fun d => d ++ [wxFILE_SEP_PATH_UNIX]) dirs.
Proof.
  induction dirs as [|d dirs IH]; [reflexivity|].
  cbn [DoGetPath_dirs flat_map orb]. rewrite IH.
  replace (GetPathSeparator p wxPATH_UNIX) with wxFILE_SEP_PATH_UNIX by reflexivity.
  now rewrite <- app_assoc.
Qed.

Lemma fields_of_slashed seps t dirs :
  Find seps t = true ->
  forallb (dir_component_ok seps) dirs = true ->
  filter nonempty (fields_of seps (flat_map (fun d => d ++ [t]) dirs) []) = dirs.
Proof.
  intros Ht. induction dirs as [|d dirs IH]; intros Hok; [reflexivity|].
  cbn [forallb] in Hok. apply andb_prop in Hok as [Hd Hok].
  unfold dir_component_ok in Hd. apply andb_prop in Hd as [Hne Hfree].
  cbn [flat_map]. rewrite <- app_assoc. cbn [app].
  rewrite fields_of_component by assumption. cbn [rev app filter].
  unfold nonempty at 1. rewrite Hne. now rewrite IH.
Qed.

Lemma fields_of_snoc seps a t cur :
  Find seps t = true ->
  filter nonempty (fields_of seps (a ++ [t]) cur)
  = filter nonempty (fields_of seps a cur).
Proof.
  intros Ht. revert cur; induction a as [|c a IH]; intros cur.
  - cbn [app fields_of]. rewrite Ht. cbn [filter].
    destruct (nonempty (rev cur)); reflexivity.
  - cbn [app fields_of]. destruct (Find seps c).
    + cbn [filter]. now rewrite IH.
    + apply IH.
Qed.

Lemma flat_map_snoc (t : ascii) dirs :
  dirs <> [] ->
  exists d, flat_map (fun x => x ++ [t]) dirs = d ++ [t].
Proof.
  intros Hne. destruct (exists_last Hne) as (ds & x & ->).
  rewrite flat_map_app. cbn [flat_map]. rewrite app_nil_r, app_assoc.
  now eexists.
Qed.

Lemma has_flag_full_volume :
  has_flag (Z.lor wxPATH_GET_VOLUME wxPATH_GET_SEPARATOR) wxPATH_GET_VOLUME = true.
Proof. reflexivity. Qed.

Lemma has_flag_full_separator :
  has_flag (Z.lor wxPATH_GET_VOLUME wxPATH_GET_SEPARATOR) wxPATH_GET_SEPARATOR = true.
Proof. reflexivity. Qed.

(** The full path of an object on a Unix build. *)
Lemma GetFullPath_unix env fn format :
  env_platform env = Platform_UNIX ->
  format = wxPATH_NATIVE \/ format = wxPATH_UNIX ->
  GetFullPath env fn format
  = (if m_relative fn then [] else [wxFILE_SEP_PATH_UNIX])
    ++ flat_map (fun d => d ++ [wxFILE_SEP_PATH_UNIX]) (m_dirs fn)
    ++ GetFullName fn.
Proof.
  intros Hp Hf. unfold GetFullPath, GetPath. rewrite Hp.
  unfold DoGetPath.
  replace (GetFormat Platform_UNIX format) with wxPATH_UNIX
    by (destruct Hf; subst; reflexivity).
  rewrite has_flag_full_volume, has_flag_full_separator.
  replace (wxGetVolumeString Platform_UNIX (m_volume fn) wxPATH_UNIX) with (@nil ascii)
    by (unfold wxGetVolumeString; destruct (empty (m_volume fn)); reflexivity).
  cbn [app wxPathFormat_eqb].
  destruct (m_dirs fn) as [|d dirs] eqn:E.
  - cbn [flat_map app]. destruct (m_relative fn); reflexivity.
  - rewrite DoGetPath_dirs_unix. destruct (m_relative fn); cbn [negb app];
      now rewrite <- ?app_assoc.
Qed.

Lemma match_snoc {A B} (l : list A) (x : A) (a b : B) :
  match l ++ [x] with [] => a | _ :: _ => b end = b.
Proof. destruct l; reflexivity. Qed.

Lemma SplitPath_volume p fullpath format0 :
  sp_volume (SplitPath p fullpath format0)
  = fst (SplitVolume p fullpath (GetFormat p format0)).
Proof.
  rewrite SplitPath_unfold. cbv zeta.
  destruct (SplitPath_posLastDot _ _ _ _); reflexivity.
Qed.

(** The path of SplitPath, given the last component. *)
Lemma SplitPath_path p fullpath format0 pre f :
  let format := GetFormat p format0 in
  let rest := snd (SplitVolume p fullpath format) in
  last_component (GetPathTerminators p format) rest pre f ->
  sp_path (SplitPath p fullpath format0)
  = match pre with
    | [] => []
    | _ :: _ => dir_part format (removelast pre) (last pre wxUniChar_NUL)
    end.
Proof.
  cbv zeta. intros Hlc. rewrite SplitPath_unfold. cbv zeta.
  rewrite (last_component_slash _ _ _ _ Hlc).
  destruct Hlc as (Hrest & Hf & Hpre).
  destruct Hpre as [-> | (d & t & -> & Ht)].
  - destruct (SplitPath_posLastDot _ _ _ _); reflexivity.
  - rewrite Hrest. rewrite removelast_last, last_last.
    destruct (d ++ [t]) eqn:E; [destruct d; discriminate|]. rewrite <- E.
    replace (length (d ++ [t]) - 1) with (length d)
      by (rewrite length_app; cbn [length]; lia).
    pose proof (SplitPath_dir p format0 d t f) as Hdir. cbv zeta in Hdir.
    rewrite <- app_assoc. cbn [app].
    destruct (SplitPath_posLastDot _ _ _ _); cbn [sp_path]; exact Hdir.
Qed.

Lemma DoSetPath_PathOnly_unix env fn path format :
  GetFormat (env_platform env) format = wxPATH_UNIX ->
  tokenizer_fields env ->
  DoSetPath env fn path format SetPath_PathOnly
  = if empty path then set_relative (set_dirs fn []) true
    else set_dirs (set_relative (set_dirs fn [])
                                (negb (Ascii.eqb (at_ path 0) "/"%char)))
                  (filter nonempty (fields_of [wxFILE_SEP_PATH_UNIX] path [])).
Proof.
  intros Hf Htok. unfold DoSetPath. destruct (empty path); [reflexivity|].
  rewrite Hf.
  replace (GetPathSeparators (env_platform env) wxPATH_UNIX)
    with [wxFILE_SEP_PATH_UNIX] by reflexivity.
  rewrite (DoSetPath_tokens_other wxPATH_UNIX _ []) by discriminate.
  cbn [app]. now rewrite Htok.
Qed.

(** What Unix path printing gives: a leading slash for an absolute path and
    the components, each followed by a slash. *)
Lemma unix_prefix_cases (rel : bool) dirs :
  let P := (if rel then [] else [wxFILE_SEP_PATH_UNIX])
           ++ flat_map (fun d => d ++ [wxFILE_SEP_PATH_UNIX]) dirs in
  forallb (dir_component_ok [wxFILE_SEP_PATH_UNIX]) dirs = true ->
  (P = [] /\ rel = true /\ dirs = [])
  \/ (exists pre, P = pre ++ [wxFILE_SEP_PATH_UNIX]
        /\ Ascii.eqb (at_ P 0) "/"%char = negb rel
        /\ filter nonempty (fields_of [wxFILE_SEP_PATH_UNIX] P []) = dirs
        /\ (pre = [] -> dirs = [])).
Proof.
  cbv zeta. intros Hok.
  assert (Hsl : Find [wxFILE_SEP_PATH_UNIX] wxFILE_SEP_PATH_UNIX = true) by reflexivity.
  pose proof (fields_of_slashed _ _ dirs Hsl Hok) as Hfields.
  destruct rel.
  - destruct dirs as [|d dirs]; [left; auto|]. right.
    destruct (flat_map_snoc wxFILE_SEP_PATH_UNIX (d :: dirs) ltac:(discriminate))
      as (pre & Hpre).
    exists pre. cbn [app]. repeat split; auto.
    + cbn [forallb] in Hok. apply andb_prop in Hok as [Hd _].
      unfold dir_component_ok in Hd. apply andb_prop in Hd as [Hne Hfree].
      destruct d as [|c d]; [discriminate|]. cbn [flat_map app].
      unfold at_. cbn [nth]. simpl in Hfree. apply andb_prop in Hfree as [Hc _].
      rewrite orb_false_r in Hc. apply negb_true_iff in Hc. exact Hc.
    + intros ->. cbn [app] in Hpre.
      cbn [forallb] in Hok. apply andb_prop in Hok as [Hd _].
      unfold dir_component_ok in Hd. apply andb_prop in Hd as [Hne _].
      destruct d as [|c d]; [discriminate|]. cbn [flat_map app] in Hpre.
      inversion Hpre as [[Hc Hrest]]. destruct d; discriminate.
  - right. destruct dirs as [|d dirs].
    + exists []. repeat split; auto.
    + destruct (flat_map_snoc wxFILE_SEP_PATH_UNIX (d :: dirs) ltac:(discriminate))
        as (pre & Hpre).
      exists (wxFILE_SEP_PATH_UNIX :: pre). rewrite Hpre. repeat split; auto.
      * rewrite <- Hpre. cbn [app fields_of]. rewrite Hsl. cbn [rev filter nonempty empty negb].
        exact Hfields.
      * discriminate.
Qed.

Lemma Assign_unix_print env fn0 format (rel : bool) dirs f :
  env_platform env = Platform_UNIX ->
  format = wxPATH_NATIVE \/ format = wxPATH_UNIX ->
  tokenizer_fields env ->
  forallb (dir_component_ok [wxFILE_SEP_PATH_UNIX]) dirs = true ->
  free_of [wxFILE_SEP_PATH_UNIX] f = true ->
  Assign env fn0
    ((if rel then [] else [wxFILE_SEP_PATH_UNIX])
     ++ flat_map (fun d => d ++ [wxFILE_SEP_PATH_UNIX]) dirs ++ f) format
  = mkFileName [] dirs (fst (fst (split_ext f))) (snd (fst (split_ext f))) rel
               (snd (split_ext f)) (m_dontFollowLinks fn0).
Proof.
  intros Hp Hf Htok Hok Hfree.
  assert (Hfmt : GetFormat (env_platform env) format = wxPATH_UNIX).
  { rewrite Hp. destruct Hf; subst; reflexivity. }
  rewrite app_assoc.
  pose proof (unix_prefix_cases rel dirs Hok) as Hcases. cbv zeta in Hcases.
  remember ((if rel then [] else [wxFILE_SEP_PATH_UNIX])
            ++ flat_map (fun d => d ++ [wxFILE_SEP_PATH_UNIX]) dirs) as P eqn:EP.
  clear EP.
  assert (Hsv : SplitVolume (env_platform env) (P ++ f)
                  (GetFormat (env_platform env) format) = ([], P ++ f)).
  { rewrite Hfmt. reflexivity. }
  assert (Hterms : GetPathTerminators (env_platform env)
                     (GetFormat (env_platform env) format) = [wxFILE_SEP_PATH_UNIX]).
  { rewrite Hfmt, Hp. reflexivity. }
  assert (Hnative : forall c, IsPathSeparator (env_platform env) c wxPATH_NATIVE
                     = Find (GetPathTerminators (env_platform env)
                               (GetFormat (env_platform env) format)) c).
  { intros c. rewrite Hfmt, Hp. apply native_separators_unix. }
  assert (Hlc : last_component
                  (GetPathTerminators (env_platform env)
                     (GetFormat (env_platform env) format))
                  (snd (SplitVolume (env_platform env) (P ++ f)
                          (GetFormat (env_platform env) format))) P f).
  { rewrite Hsv, Hterms. repeat split; auto.
    destruct Hcases as [(HP & _) | (pre & HP & _)].
    - now left.
    - right. exists pre, wxFILE_SEP_PATH_UNIX. split; auto. }
  pose proof (SplitPath_component _ _ format P f Hnative Hlc) as Hparts.
  pose proof (SplitPath_path _ _ format P f Hlc) as Hpath.
  pose proof (SplitPath_volume (env_platform env) (P ++ f) format) as Hvol.
  cbv zeta in Hparts, Hpath. rewrite Hsv in Hvol. cbn [fst] in Hvol.
  unfold Assign, Assign_parts.
  rewrite Hvol, Hpath.
  replace (sp_name (SplitPath (env_platform env) (P ++ f) format))
    with (fst (fst (split_ext f))) by (rewrite <- Hparts; reflexivity).
  replace (sp_ext (SplitPath (env_platform env) (P ++ f) format))
    with (snd (fst (split_ext f))) by (rewrite <- Hparts; reflexivity).
  replace (sp_hasExt (SplitPath (env_platform env) (P ++ f) format))
    with (snd (split_ext f)) by (rewrite <- Hparts; reflexivity).
  clear Hparts Hpath Hvol Hlc Hsv.
  rewrite (DoSetPath_PathOnly_unix env fn0 _ format Hfmt Htok).
  destruct Hcases as [(HP & -> & ->) | (pre & HP & Hlead & Hfields & Hpre)].
  - rewrite HP. reflexivity.
  - subst P. rewrite match_snoc, removelast_last, last_last, Hfmt.
    unfold dir_part. destruct pre as [|c pre].
    + cbn [empty]. specialize (Hpre eq_refl). subst dirs.
      cbn [app] in Hlead. rewrite Hlead.
      cbn [empty negb fields_of Find existsb orb rev filter nonempty].
      rewrite Ascii.eqb_refl. cbn [orb filter rev nonempty empty negb].
      destruct rel; reflexivity.
    + cbn [empty].
      rewrite fields_of_snoc in Hfields by reflexivity. rewrite Hfields.
      rewrite at_app_left in Hlead by (cbn [length]; lia). rewrite Hlead.
      rewrite negb_involutive. reflexivity.
Qed.

Lemma split_ext_join f :
  (if snd (split_ext f)
   then fst (fst (split_ext f)) ++ wxFILE_SEP_EXT :: snd (fst (split_ext f))
   else fst (fst (split_ext f))) = f.
Proof.
  unfold split_ext.
  destruct (find_last_of f [wxFILE_SEP_EXT]) as [[|k]|] eqn:E; try reflexivity.
  unfold find_last_of in E.
  destruct (find_last_of_at_some _ _ _ _ E) as (a & t & b & -> & Hk & Ht & _).
  rewrite Find_single in Ht. apply Ascii.eqb_eq in Ht. subst t.
  cbn [Nat.add] in Hk. rewrite Hk. cbn [fst snd].
  rewrite firstn_length_app. f_equal. f_equal.
  replace (S (length a)) with (length (a ++ [wxFILE_SEP_EXT]))
    by (rewrite length_app; cbn [length]; lia).
  replace (a ++ wxFILE_SEP_EXT :: b) with ((a ++ [wxFILE_SEP_EXT]) ++ b)
    by (rewrite <- app_assoc; reflexivity).
  now rewrite skipn_length_app.
Qed.

Lemma forallb_rev' {A} (P : A -> bool) l : forallb P (rev l) = forallb P l.
Proof.
  induction l as [|x l IH]; [reflexivity|].
  cbn [rev forallb]. rewrite forallb_app, IH. cbn [forallb].
  rewrite andb_true_r. apply andb_comm.
Qed.

Lemma fields_of_ok seps s cur :
  free_of seps cur = true ->
  forallb (dir_component_ok seps) (filter nonempty (fields_of seps s cur)) = true.
Proof.
  revert cur; induction s as [|c s IH]; intros cur Hcur.
  - cbn [fields_of filter]. unfold nonempty at 1.
    destruct (empty (rev cur)) eqn:E; [reflexivity|].
    cbn [negb forallb]. unfold dir_component_ok. rewrite E. cbn [negb andb].
    unfold free_of in *. rewrite forallb_rev'. now rewrite Hcur.
  - cbn [fields_of]. destruct (Find seps c) eqn:Ec.
    + cbn [filter]. unfold nonempty at 1.
      destruct (empty (rev cur)) eqn:E; cbn [negb]; [now apply IH|].
      cbn [forallb]. rewrite IH by reflexivity.
      unfold dir_component_ok. rewrite E. cbn [negb andb].
      unfold free_of in *. rewrite forallb_rev'. now rewrite Hcur.
    + apply IH. unfold free_of in *. cbn [forallb]. now rewrite Ec, Hcur.
Qed.

(** A string is free of the characters or has a last one of them. *)
Lemma last_component_exists terms rest :
  exists pre f, last_component terms rest pre f.
Proof.
  destruct (find_last_of_at rest terms 0) as [j|] eqn:E.
  - destruct (find_last_of_at_some _ _ _ _ E) as (a & t & b & -> & _ & Ht & Hb).
    exists (a ++ [t]), b. unfold last_component. rewrite <- app_assoc.
    repeat split; auto.
    right. now exists a, t.
  - apply find_last_of_at_none in E. exists [], rest. repeat split; auto.
Qed.

Lemma Assign_unix_wellformed_aux env fn0 s format :
  env_platform env = Platform_UNIX ->
  format = wxPATH_NATIVE \/ format = wxPATH_UNIX ->
  tokenizer_fields env ->
  unix_wellformed (Assign env fn0 s format).
Proof.
  intros Hp Hf Htok.
  assert (Hfmt : GetFormat (env_platform env) format = wxPATH_UNIX).
  { rewrite Hp. destruct Hf; subst; reflexivity. }
  assert (Hsv : SplitVolume (env_platform env) s
                  (GetFormat (env_platform env) format) = ([], s)).
  { rewrite Hfmt. reflexivity. }
  assert (Hterms : GetPathTerminators (env_platform env)
                     (GetFormat (env_platform env) format) = [wxFILE_SEP_PATH_UNIX]).
  { rewrite Hfmt, Hp. reflexivity. }
  assert (Hnative : forall c, IsPathSeparator (env_platform env) c wxPATH_NATIVE
                     = Find (GetPathTerminators (env_platform env)
                               (GetFormat (env_platform env) format)) c).
  { intros c. rewrite Hfmt, Hp. apply native_separators_unix. }
  destruct (last_component_exists [wxFILE_SEP_PATH_UNIX] s) as (pre & f & Hlc0).
  assert (Hlc : last_component
                  (GetPathTerminators (env_platform env)
                     (GetFormat (env_platform env) format))
                  (snd (SplitVolume (env_platform env) s
                          (GetFormat (env_platform env) format))) pre f).
  { now rewrite Hsv, Hterms. }
  pose proof (SplitPath_component _ _ format pre f Hnative Hlc) as Hparts.
  pose proof (SplitPath_volume (env_platform env) s format) as Hvol.
  cbv zeta in Hparts. rewrite Hsv in Hvol. cbn [fst] in Hvol.
  destruct Hlc0 as (_ & Hfree & _).
  pose proof (split_ext_join f) as Hjoin.
  unfold unix_wellformed, Assign, Assign_parts, GetFullName.
  cbn [m_volume m_dirs m_name m_ext m_hasExt].
  replace (sp_name (SplitPath (env_platform env) s format))
    with (fst (fst (split_ext f))) by (rewrite <- Hparts; reflexivity).
  replace (sp_ext (SplitPath (env_platform env) s format))
    with (snd (fst (split_ext f))) by (rewrite <- Hparts; reflexivity).
  replace (sp_hasExt (SplitPath (env_platform env) s format))
    with (snd (split_ext f)) by (rewrite <- Hparts; reflexivity).
  change (fst (fst (split_ext f)) ++ [wxFILE_SEP_EXT] ++ snd (fst (split_ext f)))
    with (fst (fst (split_ext f)) ++ wxFILE_SEP_EXT :: snd (fst (split_ext f))).
  destruct (split_ext f) as [[n e] h] eqn:Esplit. cbn [fst snd] in *.
  assert (Hj : (if h then n ++ wxFILE_SEP_EXT :: e else n) = f) by exact Hjoin.
  assert (Hd : forallb (dir_component_ok [wxFILE_SEP_PATH_UNIX])
                 (m_dirs (DoSetPath env fn0
                            (sp_path (SplitPath (env_platform env) s format))
                            format SetPath_PathOnly)) = true).
  { rewrite (DoSetPath_PathOnly_unix env fn0 _ format Hfmt Htok).
    destruct (empty _); [reflexivity|].
    cbn [m_dirs set_dirs]. now apply fields_of_ok. }
  destruct h; rewrite Hj; repeat split; auto; congruence.
Qed.

Lemma Assign_GetFullPath_unix_aux env fn0 fn format :
  env_platform env = Platform_UNIX ->
  format = wxPATH_NATIVE \/ format = wxPATH_UNIX ->
  tokenizer_fields env ->
  unix_wellformed fn ->
  Assign env fn0 (GetFullPath env fn format) format
  = mkFileName [] (m_dirs fn) (m_name fn) (m_ext fn) (m_relative fn)
               (m_hasExt fn) (m_dontFollowLinks fn0).
Proof.
  intros Hp Hf Htok (Hvol & Hdirs & Hfree & Hsplit).
  rewrite (GetFullPath_unix env fn format Hp Hf).
  rewrite (Assign_unix_print env fn0 format _ _ _ Hp Hf Htok Hdirs Hfree).
  now rewrite Hsplit.
Qed.

(** On a Unix build, under the native or the Unix format and with a
    tokenizer that cuts at the separators: an object that meets the four
    conditions of [unix_wellformed] is unchanged when it is assigned its own
    full path.  The conditions are: it has no volume; its directory
    components are non-empty and free of slashes; its full name (the name,
    followed by a dot and the extension when the extension flag is set)
    holds no slash; and its name, extension and extension flag are those its
    full name is cut into at its last dot (no cut when that dot comes
    first or there is none). *)
Theorem Assign_GetFullPath_unix (env : wxEnv) (fn : wxFileName)
    (format : wxPathFormat) :
  env_platform env = Platform_UNIX ->
  format = wxPATH_NATIVE \/ format = wxPATH_UNIX ->
  tokenizer_fields env ->
  unix_wellformed fn ->
  Assign env fn (GetFullPath env fn format) format = fn.
Proof.
  intros Hp Hf Htok Hwf.
  rewrite (Assign_GetFullPath_unix_aux env fn fn format Hp Hf Htok Hwf).
  destruct Hwf as (Hvol & _). destruct fn; cbn in *. now subst.
Qed.

(** On a Unix build, under the native or the Unix format and with a
    tokenizer that cuts at the separators: whatever string is assigned, the
    object obtained is of the kind above; assigning its full path gives the
    same object again, and so the full path of an assigned string is a
    canonical form, the same after a second round. *)
Theorem Assign_unix_canonical (env : wxEnv) (fn0 : wxFileName) (s : wxString)
    (format : wxPathFormat) :
  env_platform env = Platform_UNIX ->
  format = wxPATH_NATIVE \/ format = wxPATH_UNIX ->
  tokenizer_fields env ->
  let fn := Assign env fn0 s format in
  unix_wellformed fn
  /\ Assign env fn0 (GetFullPath env fn format) format = fn
  /\ GetFullPath env (Assign env fn0 (GetFullPath env fn format) format) format
     = GetFullPath env fn format.
Proof.
  intros Hp Hf Htok. cbv zeta.
  pose proof (Assign_unix_wellformed_aux env fn0 s format Hp Hf Htok) as Hwf.
  assert (H : Assign env fn0 (GetFullPath env (Assign env fn0 s format) format) format
              = Assign env fn0 s format).
  { rewrite (Assign_GetFullPath_unix_aux env fn0 _ format Hp Hf Htok Hwf).
    destruct Hwf as (Hvol & _). unfold Assign, Assign_parts in *.
    cbn [m_volume m_dirs m_name m_ext m_relative m_hasExt m_dontFollowLinks] in *.
    rewrite Hvol. f_equal.
    unfold DoSetPath. destruct (empty _); [reflexivity|].
    destruct (GetFormat _ _); reflexivity. }
  split; [exact Hwf|]. split; [exact H|]. now rewrite H.
Qed.

(* ------------------------------------------------------------------------- *)
(** ** MakeAbsolute on a Unix build *)
(* ------------------------------------------------------------------------- *)

Lemma dir_part_unix_leading d t f :
  Ascii.eqb (at_ (d ++ t :: f) 0) "/"%char = true ->
  t = "/"%char ->
  Ascii.eqb (at_ (dir_part wxPATH_UNIX d t) 0) "/"%char = true.
Proof.
  intros H ->. unfold dir_part. destruct d as [|c d]; [reflexivity|exact H].
Qed.

(** A directory that starts with a slash is read as an absolute path. *)
Lemma AssignDir_unix_absolute env fn0 dir format :
  env_platform env = Platform_UNIX ->
  format = wxPATH_NATIVE \/ format = wxPATH_UNIX ->
  StartsWith dir [wxFILE_SEP_PATH_UNIX] = true ->
  m_relative (AssignDir env fn0 dir format) = false
  /\ m_volume (AssignDir env fn0 dir format) = [].
Proof.
  intros Hp Hf Hdir.
  assert (Hfmt : GetFormat (env_platform env) format = wxPATH_UNIX).
  { rewrite Hp. destruct Hf; subst; reflexivity. }
  unfold AssignDir, Assign_dir_name, Assign_parts.
  cbn [m_relative m_volume].
  set (fullpath := if negb (empty dir) && negb (wxEndsWithPathSeparator env dir)
                   then dir ++ [GetPathSeparator (env_platform env) format]
                   else dir).
  assert (Hlead : exists rest, fullpath = "/"%char :: rest).
  { destruct dir as [|c dir]; [discriminate|]. rewrite StartsWith_cons in Hdir.
    apply andb_prop in Hdir as [Hc _]. apply Ascii.eqb_eq in Hc. subst c.
    subst fullpath. destruct (_ && _); eexists; reflexivity. }
  destruct Hlead as (rest & Hfull).
  assert (Hsv : SplitVolume (env_platform env) fullpath
                  (GetFormat (env_platform env) format) = ([], fullpath)).
  { rewrite Hfmt. reflexivity. }
  destruct (last_component_exists [wxFILE_SEP_PATH_UNIX] fullpath)
    as (pre & f & Hlc0).
  assert (Hlc : last_component
                  (GetPathTerminators (env_platform env)
                     (GetFormat (env_platform env) format))
                  (snd (SplitVolume (env_platform env) fullpath
                          (GetFormat (env_platform env) format))) pre f).
  { rewrite Hsv, Hfmt, Hp. exact Hlc0. }
  pose proof (SplitPath_path _ _ format pre f Hlc) as Hpath. cbv zeta in Hpath.
  pose proof (SplitPath_volume (env_platform env) fullpath format) as Hvol.
  rewrite Hsv in Hvol. split; [|exact Hvol].
  rewrite Hpath. destruct Hlc0 as (Hrest & Hfree & Hpre).
  destruct Hpre as [-> | (d & t & -> & Ht)].
  - exfalso. cbn [app] in Hrest. rewrite Hfull in Hrest. subst f.
    simpl in Hfree. discriminate.
  - rewrite match_snoc, removelast_last, last_last, Hfmt.
    rewrite Find_single in Ht. apply Ascii.eqb_eq in Ht. subst t.
    unfold DoSetPath.
    assert (Hd : Ascii.eqb (at_ (dir_part wxPATH_UNIX d wxFILE_SEP_PATH_UNIX) 0) "/"%char
                 = true).
    { unfold dir_part. destruct d as [|c d]; [reflexivity|].
      cbn [empty]. rewrite Hfull in Hrest. cbn [app] in Hrest.
      inversion Hrest; subst. reflexivity. }
    destruct (dir_part wxPATH_UNIX d wxFILE_SEP_PATH_UNIX) as [|c path] eqn:Edir.
    { unfold dir_part in Edir. destruct d; discriminate. }
    cbn [empty]. rewrite Hfmt. cbn [m_relative set_dirs set_relative].
    now rewrite Hd.
Qed.

Lemma IsOk_absolute fn : m_relative fn = false -> IsOk fn = true.
Proof. intros H. unfold IsOk. rewrite H. cbn [negb]. now rewrite !orb_true_r. Qed.

Lemma Normalize_unix_MakeAbsolute env fn cwd format :
  env_platform env = Platform_UNIX ->
  MakeAbsolute env fn cwd format
  = Normalize_paths env fn MakeAbsolute_flags cwd format.
Proof.
  intros Hp. unfold MakeAbsolute, Normalize. rewrite Hp.
  replace (has_flag MakeAbsolute_flags wxPATH_NORM_ENV_VARS) with false by reflexivity.
  replace (has_flag MakeAbsolute_flags wxPATH_NORM_CASE) with false by reflexivity.
  reflexivity.
Qed.

(** On a Unix build, under the native or the Unix format: when the working
    directory used (the one given, or the current one when none is given)
    starts with a slash, and so does every home directory, MakeAbsolute
    leaves an absolute path, and its directories hold neither [.] nor
    [..]. *)
Theorem MakeAbsolute_unix_IsAbsolute (env : wxEnv) (fn : wxFileName)
    (cwd : wxString) (format : wxPathFormat) :
  env_platform env = Platform_UNIX ->
  format = wxPATH_NATIVE \/ format = wxPATH_UNIX ->
  StartsWith (if empty cwd then GetCwd env (m_volume fn) else cwd)
             [wxFILE_SEP_PATH_UNIX] = true ->
  (forall user, StartsWith (wxGetUserHome env user) [wxFILE_SEP_PATH_UNIX] = true) ->
  let fn' := MakeAbsolute env fn cwd format in
  m_relative fn' = false
  /\ IsAbsolute env fn' format = true
  /\ ~ In (wxS ".") (m_dirs fn')
  /\ ~ In (wxS "..") (m_dirs fn').
Proof.
  intros Hp Hf Hcwd Hhome. cbv zeta.
  rewrite (Normalize_unix_MakeAbsolute env fn cwd format Hp).
  assert (Hfmt : GetFormat (env_platform env) format = wxPATH_UNIX).
  { rewrite Hp. destruct Hf; subst; reflexivity. }
  assert (Hrel : m_relative (Normalize_paths env fn MakeAbsolute_flags cwd format) = false).
  { unfold Normalize_paths. rewrite Hfmt.
    replace (has_flag MakeAbsolute_flags wxPATH_NORM_ABSOLUTE) with true by reflexivity.
    replace (has_flag MakeAbsolute_flags wxPATH_NORM_TILDE) with true by reflexivity.
    cbn [wxPathFormat_eqb andb].
    destruct (m_relative fn) eqn:Efn.
    - (* relative *)
      destruct (m_dirs fn) as [|dir rest] eqn:Edirs.
      + (* no directory: the working directory is used *)
        assert (Habs : IsAbsolute env fn wxPATH_UNIX = false).
        { unfold IsAbsolute. now rewrite Edirs, Efn. }
        rewrite Habs. cbn [negb].
        set (curDir := if empty cwd then AssignCwd env Clear (m_volume fn)
                       else AssignDir env Clear cwd wxPATH_NATIVE).
        assert (Hc : m_relative curDir = false /\ m_volume curDir = []).
        { subst curDir. unfold AssignCwd. destruct (empty cwd);
            apply AssignDir_unix_absolute; auto. }
        destruct Hc as [Hc Hv]. rewrite (IsOk_absolute _ Hc).
        unfold HasVolume at 2. rewrite Hv. cbn [empty negb]. rewrite andb_false_r.
        rewrite Hc. reflexivity.
      + destruct (negb (empty dir) && Ascii.eqb (at_ dir 0) "~"%char) eqn:Etilde.
        * (* a leading tilde: the home directory is used *)
          assert (Habs : IsAbsolute env fn wxPATH_UNIX = true).
          { unfold IsAbsolute. rewrite Edirs, Etilde. reflexivity. }
          rewrite Habs. cbn [negb].
          set (curDir := AssignDir env Clear (wxGetUserHome env (skipn 1 dir))
                                   wxPATH_NATIVE).
          assert (Hc : m_relative curDir = false /\ m_volume curDir = []).
          { subst curDir. apply AssignDir_unix_absolute; auto. }
          destruct Hc as [Hc Hv]. rewrite (IsOk_absolute _ Hc).
          unfold HasVolume at 2. rewrite Hv. cbn [empty negb]. rewrite andb_false_r.
          rewrite Hc. reflexivity.
        * assert (Habs : IsAbsolute env fn wxPATH_UNIX = false).
          { unfold IsAbsolute. rewrite Edirs, Efn, Etilde. reflexivity. }
          rewrite Habs. cbn [negb].
          set (curDir := if empty cwd then AssignCwd env Clear (m_volume fn)
                         else AssignDir env Clear cwd wxPATH_NATIVE).
          assert (Hc : m_relative curDir = false /\ m_volume curDir = []).
          { subst curDir. unfold AssignCwd. destruct (empty cwd);
              apply AssignDir_unix_absolute; auto. }
          destruct Hc as [Hc Hv]. rewrite (IsOk_absolute _ Hc).
          unfold HasVolume at 2. rewrite Hv. cbn [empty negb]. rewrite andb_false_r.
          rewrite Hc. reflexivity.
    - (* absolute already *)
      assert (Habs : IsAbsolute env fn wxPATH_UNIX = true).
      { unfold IsAbsolute. rewrite Efn, Hp.
        cbn [GetVolumeSeparator GetFormat empty negb andb].
        destruct (_ && _); reflexivity. }
      rewrite Habs. cbn [negb andb]. rewrite IsOk_Clear.
      cbn [m_relative set_dirs]. exact Efn. }
  split; [exact Hrel|]. split.
  - unfold IsAbsolute. rewrite Hrel.
    replace (GetVolumeSeparator (env_platform env) format) with (@nil ascii)
      by (unfold GetVolumeSeparator; now rewrite Hfmt).
    cbn [empty negb andb]. destruct (_ && _); reflexivity.
  - destruct (Normalize_paths_dirs env fn MakeAbsolute_flags cwd format) as (dirs & Hd).
    cbv zeta in Hd. rewrite Hd, Hrel. split.
    + apply Normalize_dirs_no_dot. reflexivity.
    + apply Normalize_dirs_no_dotdot; reflexivity.
Qed.

(* ------------------------------------------------------------------------- *)
(** ** Normalize: a second run *)
(* ------------------------------------------------------------------------- *)

Lemma removelast_app_last {A} (l : list A) (x : A) : removelast (l ++ [x]) = l.
Proof. now rewrite removelast_last. Qed.

Lemma last_repeat_dotdot k : 0 < k -> last (repeat (wxS "..") k) [] = wxS "..".
Proof.
  induction k as [|k IH]; [lia|]. intros _. destruct k as [|k]; [reflexivity|].
  change (repeat (wxS "..") (S (S k))) with (wxS ".." :: repeat (wxS "..") (S k)).
  change (last (wxS ".." :: repeat (wxS "..") (S k)) [])
    with (last (repeat (wxS "..") (S k)) []).
  apply IH. lia.
Qed.

Lemma repeat_snoc {A} (x : A) k : repeat x k ++ [x] = repeat x (S k).
Proof. induction k; simpl; [reflexivity|]. now rewrite IHk. Qed.

(** The shape of what the loop produces: some [..] (none for an absolute
    path) followed by components that are neither [.] nor [..]. *)
Lemma Normalize_dirs_shape flags relative ds :
  has_flag flags wxPATH_NORM_DOTS = true ->
  exists k rest,
    Normalize_dirs flags relative ds [] = repeat (wxS "..") k ++ rest
    /\ ~ In (wxS ".") rest /\ ~ In (wxS "..") rest
    /\ (relative = false -> k = 0).
Proof.
  intros dots. induction ds as [|d ds IH] using rev_ind.
  - exists 0, []. simpl. tauto.
  - destruct IH as (k & rest & E & Hd & Hdd & Hk).
    destruct (dir_cases d) as [-> | [-> | [H1 H2]]].
    + rewrite (Normalize_dirs_dot flags relative dots). now exists k, rest.
    + rewrite (Normalize_dirs_dotdot flags relative dots). rewrite E.
      destruct rest as [|r rest _] using rev_ind.
      * rewrite app_nil_r. destruct k as [|k].
        -- simpl. destruct relative.
           ++ exists 1, []. simpl. repeat split; auto; discriminate.
           ++ exists 0, []. simpl. tauto.
        -- change (repeat (wxS "..") (S k)) with (wxS ".." :: repeat (wxS "..") k) at 1.
           cbv iota. rewrite last_repeat_dotdot by lia.
           rewrite wxString_eqb_refl.
           exists (S (S k)), []. rewrite app_nil_r, repeat_snoc.
           repeat split; auto. intros Hr. specialize (Hk Hr). discriminate.
      * assert (Hlast : last (repeat (wxS "..") k ++ rest ++ [r]) [] = r).
        { rewrite app_assoc. apply last_last. }
        assert (Hr : r <> wxS "..").
        { intros ->. apply Hdd. rewrite in_app_iff. right. now left. }
        destruct (repeat (wxS "..") k ++ rest ++ [r]) as [|x out] eqn:Eo.
        { destruct (repeat (wxS "..") k); destruct rest; discriminate. }
        rewrite Hlast.
        destruct (wxString_eqb r (wxS "..")) eqn:Er.
        { apply wxString_eqb_eq in Er. contradiction. }
        exists k, rest. rewrite <- Eo, app_assoc, removelast_last.
        repeat split; auto.
        -- intros H. apply Hd. rewrite in_app_iff. now left.
        -- intros H. apply Hdd. rewrite in_app_iff. now left.
    + rewrite (Normalize_dirs_other flags relative dots) by assumption.
      rewrite E. exists k, (rest ++ [d]). rewrite app_assoc.
      repeat split; auto.
      * rewrite in_app_iff. intros [H|[H|[]]]; [tauto|congruence].
      * rewrite in_app_iff. intros [H|[H|[]]]; [tauto|congruence].
Qed.

Lemma Normalize_dirs_repeat flags ds j k :
  has_flag flags wxPATH_NORM_DOTS = true ->
  Normalize_dirs flags true (repeat (wxS "..") k ++ ds) (repeat (wxS "..") j)
  = Normalize_dirs flags true ds (repeat (wxS "..") (j + k)).
Proof.
  intros dots. revert j; induction k as [|k IH]; intros j.
  - now rewrite Nat.add_0_r.
  - cbn [repeat app Normalize_dirs]. rewrite dots.
    change (wxString_eqb (wxS "..") (wxS ".")) with false.
    change (wxString_eqb (wxS "..") (wxS "..")) with true.
    cbn [andb negb]. destruct j as [|j].
    + cbn [repeat length Nat.eqb app]. exact (IH 1).
    + replace (length (repeat (wxS "..") (S j)) =? 0) with false
        by (rewrite repeat_length; reflexivity).
      rewrite last_repeat_dotdot by lia. rewrite wxString_eqb_refl. cbn [negb].
      rewrite repeat_snoc, (IH (S (S j))). f_equal. f_equal. lia.
Qed.

Lemma Normalize_dirs_plain flags relative rest out :
  ~ In (wxS ".") rest -> ~ In (wxS "..") rest ->
  Normalize_dirs flags relative rest out = out ++ rest.
Proof.
  revert out; induction rest as [|d rest IH]; intros out Hd Hdd.
  - now rewrite app_nil_r.
  - cbn [Normalize_dirs].
    destruct (wxString_eqb d (wxS ".")) eqn:E1.
    { apply wxString_eqb_eq in E1. subst. exfalso. apply Hd. now left. }
    destruct (wxString_eqb d (wxS "..")) eqn:E2.
    { apply wxString_eqb_eq in E2. subst. exfalso. apply Hdd. now left. }
    rewrite !andb_false_r. rewrite IH, <- app_assoc; [reflexivity| |].
    + intros H. apply Hd. now right.
    + intros H. apply Hdd. now right.
Qed.

(** The loop run on its own result changes nothing. *)
Lemma Normalize_dirs_idempotent (flags : Z) (relative : bool) (ds : list wxString) :
  Normalize_dirs flags relative (Normalize_dirs flags relative ds []) []
  = Normalize_dirs flags relative ds [].
Proof.
  destruct (has_flag flags wxPATH_NORM_DOTS) eqn:dots.
  - destruct (Normalize_dirs_shape flags relative ds dots)
      as (k & rest & E & Hd & Hdd & Hk).
    rewrite E. destruct relative.
    + etransitivity; [exact (Normalize_dirs_repeat flags rest 0 k dots)|].
      now rewrite Normalize_dirs_plain.
    + rewrite (Hk eq_refl). simpl repeat. simpl app.
      now rewrite Normalize_dirs_plain.
  - now rewrite !Normalize_dirs_no_dots.
Qed.

Lemma filter_drop_trailing_empty l :
  filter nonempty (drop_trailing_empty l) = filter nonempty l.
Proof.
  induction l as [|x l IH]; [reflexivity|].
  cbn [drop_trailing_empty filter].
  destruct (drop_trailing_empty l) as [|y l'] eqn:E.
  - rewrite <- IH. unfold nonempty. destruct (empty x) eqn:Ex; cbn [negb filter].
    + reflexivity.
    + unfold nonempty. now rewrite Ex.
  - rewrite <- IH. reflexivity.
Qed.

Lemma tokens_RET_EMPTY_fields : forall str delims,
  filter nonempty (tokens_RET_EMPTY str delims)
  = filter nonempty (fields_of delims str []).
Proof.
  intros str delims. unfold tokens_RET_EMPTY.
  destruct str as [|c str]; [reflexivity|].
  rewrite <- (filter_drop_trailing_empty (fields_of delims (c :: str) [])).
  destruct (drop_trailing_empty (fields_of delims (c :: str) [])); reflexivity.
Qed.

Lemma unix_env_tokenizer_fields : tokenizer_fields unix_env.
Proof. exact tokens_RET_EMPTY_fields. Qed.

(** With no flag other than wxPATH_NORM_DOTS, normalizing a second time
    changes nothing. *)
Theorem Normalize_dots_idempotent (env : wxEnv) (fn : wxFileName) (flags : Z)
    (cwd : wxString) (format : wxPathFormat) :
  has_flag flags wxPATH_NORM_ENV_VARS = false ->
  has_flag flags wxPATH_NORM_TILDE = false ->
  has_flag flags wxPATH_NORM_CASE = false ->
  has_flag flags wxPATH_NORM_ABSOLUTE = false ->
  has_flag flags wxPATH_NORM_LONG = false ->
  has_flag flags wxPATH_NORM_SHORTCUT = false ->
  Normalize env (Normalize env fn flags cwd format) flags cwd format
  = Normalize env fn flags cwd format.
Proof.
  intros He Ht Hc Ha Hl Hs.
  rewrite !(Normalize_only_dots env _ flags cwd format He Ht Hc Ha Hl Hs).
  unfold set_dirs. cbn [m_volume m_dirs m_name m_ext m_relative m_hasExt m_dontFollowLinks].
  now rewrite Normalize_dirs_idempotent.
Qed.

Lemma Normalize_dots_idempotent_witness :
  let fn := Assign unix_env Clear (wxS "a/./b/../../../c/f.txt") wxPATH_UNIX in
  m_dirs (Normalize unix_env fn wxPATH_NORM_DOTS [] wxPATH_UNIX) = [wxS ".."; wxS "c"]
  /\ Normalize unix_env (Normalize unix_env fn wxPATH_NORM_DOTS [] wxPATH_UNIX)
               wxPATH_NORM_DOTS [] wxPATH_UNIX
     = Normalize unix_env fn wxPATH_NORM_DOTS [] wxPATH_UNIX.
Proof.
  cbv zeta. split; [reflexivity|].
  apply Normalize_dots_idempotent; reflexivity.
Defined.

Lemma SetFullName_GetFullName_witness :
  GetFullName (SetFullName Platform_UNIX Clear (wxS "archive.tar.gz"))
  = wxS "archive.tar.gz"
  /\ m_name (SetFullName Platform_UNIX Clear (wxS "archive.tar.gz")) = wxS "archive.tar"
  /\ m_ext (SetFullName Platform_UNIX Clear (wxS "archive.tar.gz")) = wxS "gz".
Proof.
  destruct (SetFullName_GetFullName Platform_UNIX Clear (wxS "archive.tar.gz")
              eq_refl eq_refl) as (H1 & H2 & _).
  split; [exact H1|].
  specialize (H2 ltac:(discriminate)).
  split; [exact (f_equal (fun x => fst (fst x)) H2)
         |exact (f_equal (fun x => snd (fst x)) H2)].
Defined.

Lemma Assign_GetFullPath_unix_witness :
  let fn := mkFileName [] [wxS "usr"; wxS "lib"] (wxS "libm.so") (wxS "6")
                       false true false in
  GetFullPath unix_env fn wxPATH_NATIVE = wxS "/usr/lib/libm.so.6"
  /\ Assign unix_env fn (wxS "/usr/lib/libm.so.6") wxPATH_NATIVE = fn.
Proof.
  cbv zeta. split; [reflexivity|].
  change (wxS "/usr/lib/libm.so.6")
    with (GetFullPath unix_env
            (mkFileName [] [wxS "usr"; wxS "lib"] (wxS "libm.so") (wxS "6")
                        false true false) wxPATH_NATIVE).
  apply Assign_GetFullPath_unix.
  - reflexivity.
  - now left.
  - exact unix_env_tokenizer_fields.
  - repeat split; reflexivity.
Defined.

Lemma Assign_unix_canonical_witness :
  GetFullPath unix_env (Assign unix_env Clear (wxS "/a//b/./c.txt") wxPATH_UNIX)
              wxPATH_UNIX = wxS "/a/b/./c.txt"
  /\ Assign unix_env Clear (wxS "/a/b/./c.txt") wxPATH_UNIX
     = Assign unix_env Clear (wxS "/a//b/./c.txt") wxPATH_UNIX.
Proof.
  split; [reflexivity|].
  destruct (Assign_unix_canonical unix_env Clear (wxS "/a//b/./c.txt") wxPATH_UNIX
              eq_refl (or_intror eq_refl) unix_env_tokenizer_fields) as (_ & H & _).
  exact H.
Defined.

Lemma MakeAbsolute_unix_IsAbsolute_witness :
  let fn := Assign unix_env Clear (wxS "docs/../x.txt") wxPATH_UNIX in
  m_relative fn = true
  /\ GetFullPath unix_env (MakeAbsolute unix_env fn [] wxPATH_NATIVE) wxPATH_NATIVE
     = wxS "/home/user/x.txt"
  /\ IsAbsolute unix_env (MakeAbsolute unix_env fn [] wxPATH_NATIVE) wxPATH_NATIVE
     = true.
Proof.
  cbv zeta. split; [reflexivity|]. split; [reflexivity|].
  destruct (MakeAbsolute_unix_IsAbsolute unix_env
              (Assign unix_env Clear (wxS "docs/../x.txt") wxPATH_UNIX) []
              wxPATH_NATIVE eq_refl (or_introl eq_refl) eq_refl
              (fun _ => eq_refl)) as (_ & H & _).
  exact H.
Defined.

(* ------------------------------------------------------------------------- *)
(** ** The escaping of file URLs *)
(* ------------------------------------------------------------------------- *)

Lemma hex_digit_inj n m : n < 16 -> m < 16 -> hex_digit n = hex_digit m -> n = m.
Proof.
  intros Hn Hm.
  do 16 (destruct n as [|n]; [do 16 (destruct m as [|m]; [intros H; first [reflexivity | discriminate H]|]); lia|]).
  lia.
Qed.

Lemma hex_digit_unescaped n : n < 16 -> url_unescaped (hex_digit n) = true.
Proof.
  intros Hn. do 16 (destruct n as [|n]; [reflexivity|]). lia.
Qed.

Lemma url_unescaped_not_percent c : url_unescaped c = true -> c <> "%"%char.
Proof. intros H ->. discriminate. Qed.

Lemma url_unescaped_not_NUL c : url_unescaped c = true -> Ascii.eqb c wxUniChar_NUL = false.
Proof.
  intros H. destruct (Ascii.eqb c wxUniChar_NUL) eqn:E; [|reflexivity].
  apply Ascii.eqb_eq in E. subst c. discriminate.
Qed.

Lemma cons3_inj {A} (x y z x' y' z' : A) l l' :
  x :: y :: z :: l = x' :: y' :: z' :: l' -> y = y' /\ z = z' /\ l = l'.
Proof. intros H. inversion H. auto. Qed.

Lemma nat_of_ascii_lt c : nat_of_ascii c < 256.
Proof. apply nat_ascii_bounded. Qed.

(** The escaping of file URLs writes only letters, digits, the characters
    [/:$-_.+!*'(),] and the percent sign; it leaves a string of the
    unescaped characters as it is; and it loses nothing: two strings without
    NUL that escape to the same text are equal. *)
Theorem EscapeFileNameCharsInURL_properties :
  (forall s, forallb (fun c => url_unescaped c || Ascii.eqb c "%"%char)
                     (EscapeFileNameCharsInURL s) = true)
  /\ (forall s, forallb url_unescaped s = true -> EscapeFileNameCharsInURL s = s)
  /\ (forall a b,
        free_of [wxUniChar_NUL] a = true -> free_of [wxUniChar_NUL] b = true ->
        EscapeFileNameCharsInURL a = EscapeFileNameCharsInURL b -> a = b).
Proof.
  split; [|split].
  - induction s as [|c s IH]; [reflexivity|]. cbn [EscapeFileNameCharsInURL].
    destruct (Ascii.eqb c wxUniChar_NUL); [reflexivity|].
    destruct (url_unescaped c) eqn:E; cbn [forallb].
    + now rewrite E, IH.
    + rewrite IH, !hex_digit_unescaped; [reflexivity| |].
      * apply Nat.mod_upper_bound. lia.
      * apply Nat.Div0.div_lt_upper_bound. pose proof (nat_of_ascii_lt c). lia.
  - induction s as [|c s IH]; [reflexivity|]. cbn [forallb EscapeFileNameCharsInURL].
    intros H. apply andb_prop in H as [Hc Hs].
    now rewrite (url_unescaped_not_NUL c Hc), Hc, IH.
  - induction a as [|c a IH]; intros b Ha Hb H.
    + destruct b as [|c' b]; [reflexivity|]. exfalso.
      cbn [EscapeFileNameCharsInURL] in H. simpl in Hb.
      apply andb_prop in Hb as [Hc' _]. rewrite orb_false_r in Hc'.
      apply negb_true_iff in Hc'. rewrite Hc' in H.
      destruct (url_unescaped c'); discriminate.
    + simpl in Ha. apply andb_prop in Ha as [Hc Ha]. rewrite orb_false_r in Hc.
      apply negb_true_iff in Hc.
      destruct b as [|c' b].
      { exfalso. cbn [EscapeFileNameCharsInURL] in H. rewrite Hc in H.
        destruct (url_unescaped c); discriminate. }
      simpl in Hb. apply andb_prop in Hb as [Hc' Hb]. rewrite orb_false_r in Hc'.
      apply negb_true_iff in Hc'.
      cbn [EscapeFileNameCharsInURL] in H. rewrite Hc, Hc' in H.
      destruct (url_unescaped c) eqn:E; destruct (url_unescaped c') eqn:E'.
      * inversion H; subst. f_equal. now apply IH.
      * exfalso. inversion H; subst. discriminate.
      * exfalso. inversion H; subst. discriminate.
      * pose proof (nat_of_ascii_lt c) as Hlt. pose proof (nat_of_ascii_lt c') as Hlt'.
        apply cons3_inj in H as (H1 & H2 & H3).
        apply hex_digit_inj in H1;
          [|apply Nat.Div0.div_lt_upper_bound; lia
           |apply Nat.Div0.div_lt_upper_bound; lia].
        apply hex_digit_inj in H2;
          [|apply Nat.mod_upper_bound; lia|apply Nat.mod_upper_bound; lia].
        f_equal; [|now apply IH].
        apply nat_of_ascii_inj.
        rewrite (Nat.div_mod_eq (nat_of_ascii c) 16),
                (Nat.div_mod_eq (nat_of_ascii c') 16). now rewrite H1, H2.
Qed.

(* ------------------------------------------------------------------------- *)
(** ** File times of the Windows build *)
(* ------------------------------------------------------------------------- *)

Lemma wrap64_id z : (- 2 ^ 63 <= z < 2 ^ 63)%Z -> wrap64 z = z.
Proof.
  intros H. unfold wrap64. rewrite Z.mod_small; lia.
Qed.

Lemma wxLongLong_of_halves t :
  (- 2 ^ 63 <= t < 2 ^ 63)%Z -> wxLongLong_of (GetHi t) (GetLo t) = t.
Proof.
  intros H. unfold wxLongLong_of, GetHi, GetLo, wrap64.
  assert (E : ((t / 2 ^ 32) mod 2 ^ 32 * 2 ^ 32 + t mod 2 ^ 32 = t mod 2 ^ 64)%Z).
  { change (2 ^ 64)%Z with (2 ^ 32 * 2 ^ 32)%Z.
    rewrite Z.rem_mul_r by lia. lia. }
  rewrite E. rewrite Zplus_mod_idemp_l. rewrite Z.mod_small; lia.
Qed.

(** The two conversions of the Windows build.  A time in milliseconds whose
    count of 100-nanosecond intervals since 1601 fits a signed 64-bit integer
    is given back by ConvertFileTimeToWx after ConvertWxToFileTime.  The
    other way round, a FILETIME below 2^63 comes back rounded down to a whole
    millisecond (a multiple of 10000 intervals), its halves within range. *)
Theorem FileTime_roundtrip :
  (forall dt,
     (- 2 ^ 63 <= (dt + EPOCH_OFFSET_IN_MSEC) * 10000 < 2 ^ 63)%Z ->
     ConvertFileTimeToWx (ConvertWxToFileTime dt) = dt)
  /\ (forall lo hi,
        (0 <= lo < 2 ^ 32)%Z -> (0 <= hi < 2 ^ 31)%Z ->
        let ft := ConvertWxToFileTime (ConvertFileTimeToWx (mkFILETIME lo hi)) in
        let t := (hi * 2 ^ 32 + lo)%Z in
        (dwHighDateTime ft * 2 ^ 32 + dwLowDateTime ft = t - t mod 10000)%Z
        /\ (0 <= dwLowDateTime ft < 2 ^ 32)%Z
        /\ (0 <= dwHighDateTime ft < 2 ^ 31)%Z).
Proof.
  split.
  - intros dt H. unfold ConvertFileTimeToWx, ConvertWxToFileTime.
    cbn [dwHighDateTime dwLowDateTime].
    unfold EPOCH_OFFSET_IN_MSEC in *.
    rewrite (wrap64_id (dt + 11644473600000)) by lia.
    rewrite (wrap64_id ((dt + 11644473600000) * 10000)) by lia.
    rewrite wxLongLong_of_halves by lia.
    rewrite Z.quot_mul by lia.
    rewrite wrap64_id by lia. lia.
  - intros lo hi Hlo Hhi. cbv zeta.
    unfold ConvertFileTimeToWx. cbn [dwHighDateTime dwLowDateTime].
    set (t := (hi * 2 ^ 32 + lo)%Z).
    assert (Ht : (0 <= t < 2 ^ 63)%Z) by (subst t; lia).
    unfold wxLongLong_of. fold t. rewrite (wrap64_id t) by lia.
    rewrite Z.quot_div_nonneg by lia.
    assert (Hq : (0 <= t / 10000 <= t)%Z).
    { split; [apply Z.div_pos; lia|]. apply Z.div_le_upper_bound; lia. }
    unfold EPOCH_OFFSET_IN_MSEC.
    rewrite (wrap64_id (t / 10000 - 11644473600000)) by lia.
    unfold ConvertWxToFileTime. cbn [dwHighDateTime dwLowDateTime].
    unfold EPOCH_OFFSET_IN_MSEC.
    replace (t / 10000 - 11644473600000 + 11644473600000)%Z with (t / 10000)%Z by lia.
    rewrite (wrap64_id (t / 10000)) by lia.
    assert (Hm : (t / 10000 * 10000 = t - t mod 10000)%Z).
    { pose proof (Z.div_mod t 10000 ltac:(lia)). lia. }
    assert (Hmr : (0 <= t mod 10000 < 10000)%Z) by (apply Z.mod_pos_bound; lia).
    rewrite (wrap64_id (t / 10000 * 10000)) by lia.
    set (u := (t / 10000 * 10000)%Z) in *.
    assert (Hu : (0 <= u < 2 ^ 63)%Z) by lia.
    unfold GetHi, GetLo.
    assert (Hd : (0 <= u / 2 ^ 32 < 2 ^ 31)%Z).
    { split; [apply Z.div_pos; lia|]. apply Z.div_lt_upper_bound; lia. }
    rewrite (Z.mod_small (u / 2 ^ 32)) by lia.
    pose proof (Z.div_mod u (2 ^ 32) ltac:(lia)).
    pose proof (Z.mod_pos_bound u (2 ^ 32) ltac:(lia)).
    lia.
Qed.

(* ------------------------------------------------------------------------- *)
(** ** AddLikelySubtags and RemoveLikelySubtags *)
(* ------------------------------------------------------------------------- *)

Lemma IsSameAs_true a b : IsSameAs a b true = true <-> a = b.
Proof. unfold IsSameAs. apply wxString_eqb_eq. Qed.

Lemma IsSameAs_false a b : a <> b -> IsSameAs a b true = false.
Proof.
  intros H. destruct (IsSameAs a b true) eqn:E; [|reflexivity].
  apply IsSameAs_true in E. contradiction.
Qed.

Lemma empty_false (s : wxString) : s <> [] -> empty s = false.
Proof. destruct s; [congruence|reflexivity]. Qed.

Lemma empty_true (s : wxString) : empty s = true -> s = [].
Proof. destruct s; [reflexivity|discriminate]. Qed.

Lemma wxToupper_upper c : is_upper c = true -> wxToupper c = c.
Proof.
  intros H. unfold wxToupper.
  replace (is_lower c) with false; [reflexivity|].
  unfold is_upper, is_lower in *. apply andb_prop in H as [_ H].
  apply Nat.leb_le in H. symmetry. apply andb_false_iff. left.
  apply Nat.leb_gt. lia.
Qed.

Lemma wxTolower_lower c : is_lower c = true -> wxTolower c = c.
Proof.
  intros H. unfold wxTolower.
  replace (is_upper c) with false; [reflexivity|].
  unfold is_upper, is_lower in *. apply andb_prop in H as [H _].
  apply Nat.leb_le in H. symmetry. apply andb_false_iff. right.
  apply Nat.leb_gt. lia.
Qed.

Lemma wxToupper_digit c : isdigit c = true -> wxToupper c = c.
Proof.
  intros H. unfold wxToupper.
  replace (is_lower c) with false; [reflexivity|].
  unfold isdigit, is_lower in *. apply andb_prop in H as [_ H].
  apply Nat.leb_le in H. symmetry. apply andb_false_iff. left.
  apply Nat.leb_gt. lia.
Qed.

Lemma Lower_lower s : forallb is_lower s = true -> Lower s = s.
Proof.
  induction s as [|c s IH]; [reflexivity|]. cbn [forallb Lower map].
  intros H. apply andb_prop in H as [Hc Hs].
  rewrite (wxTolower_lower c Hc). f_equal. now apply IH.
Qed.

Lemma Upper_region s :
  forallb (fun c => is_upper c || isdigit c) s = true -> Upper s = s.
Proof.
  induction s as [|c s IH]; [reflexivity|]. cbn [forallb Upper map].
  intros H. apply andb_prop in H as [Hc Hs]. f_equal; [|now apply IH].
  apply orb_prop in Hc as [Hc|Hc]; [now apply wxToupper_upper|now apply wxToupper_digit].
Qed.

Lemma Capitalize_script s : is_script_code s = true -> Capitalize s = s.
Proof.
  unfold is_script_code. destruct s as [|c s]; [discriminate|].
  intros H. apply andb_prop in H as [H Hs]. apply andb_prop in H as [_ Hc].
  cbn [Capitalize]. now rewrite (wxToupper_upper c Hc), (Lower_lower s Hs).
Qed.

Lemma upper_or_digit_alnum c :
  is_upper c || isdigit c = true -> Find validCharsAlnum c = true.
Proof.
  intros H. destruct c as [[] [] [] [] [] [] [] []]; try discriminate H; reflexivity.
Qed.

Lemma region_code_shape r : is_region_code r = true -> region_shape r = true.
Proof.
  unfold is_region_code, region_shape. rewrite only_chars_forallb.
  intros H. apply andb_prop in H as [Hlen Hall]. rewrite Hlen. cbn [andb].
  clear Hlen. induction r as [|c r IH]; [reflexivity|].
  cbn [forallb] in *. apply andb_prop in Hall as [Hc Hall].
  now rewrite (upper_or_digit_alnum c Hc), IH.
Qed.

Lemma language_code_shape l : is_language_code l = true -> language_shape l = true.
Proof.
  unfold is_language_code, language_shape. rewrite only_chars_forallb.
  intros H. apply andb_prop in H as [Hlen Hall]. rewrite Hlen. cbn [andb].
  clear Hlen. induction l as [|c l IH]; [reflexivity|].
  cbn [forallb] in *. apply andb_prop in Hall as [Hc Hall].
  now rewrite (lower_alpha c Hc), IH.
Qed.

(** The setters store a code as it is. *)
Lemma Script_code d l s : is_script_code s = true -> Script d l s = set_script l s.
Proof.
  intros H. unfold Script.
  pose proof (script_code_shape s H) as Hs. unfold script_shape in Hs.
  now rewrite Hs, (Capitalize_script s H).
Qed.

Lemma Region_code l r : is_region_code r = true -> Region l r = set_region l r.
Proof.
  intros H. unfold Region.
  pose proof (region_code_shape r H) as Hs. unfold region_shape in Hs.
  rewrite Hs. unfold is_region_code in H. apply andb_prop in H as [_ H].
  now rewrite (Upper_region r H).
Qed.

Lemma language_code_not_C l : is_language_code l = true -> IsDefaultCLocale l = false.
Proof.
  intros H. unfold is_language_code in H. apply andb_prop in H as [H _].
  apply shape_lengths in H. apply IsDefaultCLocale_length; lia.
Qed.

Lemma Language_code l lang :
  is_language_code lang = true -> Language l lang = set_language l lang.
Proof.
  intros H. unfold Language. rewrite (language_code_not_C lang H).
  pose proof (language_code_shape lang H) as Hs. unfold language_shape in Hs.
  rewrite Hs. unfold is_language_code in H. apply andb_prop in H as [_ H].
  now rewrite (Lower_lower lang H).
Qed.

Lemma script_code_nonempty s : is_script_code s = true -> s <> [].
Proof. destruct s; [discriminate|discriminate]. Qed.

Lemma region_code_nonempty r : is_region_code r = true -> r <> [].
Proof. destruct r; [discriminate|discriminate]. Qed.

(** What AddLikelySubtags returns, with a table of the expected form: the
    empty identifier; or its argument, for the C locale; or an identifier
    with the same language whose script and region are set, each being the
    one of the argument or a code from the table. *)
Lemma AddLikelySubtags_spec d l :
  likely_subtags_ok d ->
  let m := AddLikelySubtags d l in
  m = wxLocaleIdent_empty
  \/ (m = l /\ m_language l <> [] /\ IsDefaultCLocale (m_language l) = true)
  \/ (m_language l <> [] /\ IsDefaultCLocale (m_language l) = false
      /\ m_language m = m_language l /\ complete_ident m
      /\ (m_script m = m_script l \/ is_script_code (m_script m) = true)
      /\ (m_region m = m_region l \/ is_region_code (m_region m) = true)).
Proof.
  intros Hok. cbv zeta. unfold AddLikelySubtags.
  destruct (empty (m_language l)) eqn:El; [now left|].
  assert (Hl : m_language l <> []) by (intros H; rewrite H in El; discriminate).
  destruct (IsDefaultCLocale (m_language l)) eqn:EC; [right; left; auto|].
  set (s := if IsSameAs (m_script l) (wxS "Zzzz") true then [] else m_script l).
  set (r := if IsSameAs (m_region l) (wxS "ZZ") true then [] else m_region l).
  assert (Hs : s = [] \/ (s = m_script l /\ m_script l <> [] /\ m_script l <> wxS "Zzzz")).
  { subst s. destruct (IsSameAs (m_script l) (wxS "Zzzz") true) eqn:E; [now left|].
    destruct (m_script l) eqn:E'; [now left|]. right. repeat split; try discriminate.
    intros H. rewrite H in E. discriminate. }
  assert (Hr : r = [] \/ (r = m_region l /\ m_region l <> [] /\ m_region l <> wxS "ZZ")).
  { subst r. destruct (IsSameAs (m_region l) (wxS "ZZ") true) eqn:E; [now left|].
    destruct (m_region l) eqn:E'; [now left|]. right. repeat split; try discriminate.
    intros H. rewrite H in E. discriminate. }
  destruct (negb (empty s) && negb (empty r)) eqn:Eboth.
  { apply andb_prop in Eboth as [E1 E2].
    destruct Hs as [Hs | (Hs & Hs1 & Hs2)]; [rewrite Hs in E1; discriminate|].
    destruct Hr as [Hr | (Hr & Hr1 & Hr2)]; [rewrite Hr in E2; discriminate|].
    right; right. repeat split; auto. }
  set (t1 := if negb (empty s)
             then GetLikelySubtags d (m_language l ++ wxS "-" ++ s) else []).
  set (t2 := if empty t1 && negb (empty r)
             then GetLikelySubtags d (m_language l ++ wxS "-" ++ r) else t1).
  set (t3 := if empty t2 then GetLikelySubtags d (m_language l) else t2).
  assert (Ht3 : t3 = [] \/ exists key, t3 = GetLikelySubtags d key /\ t3 <> []).
  { destruct t3 as [|c t3'] eqn:E3; [now left|]. right.
    subst t3. destruct (empty t2) eqn:E2.
    { eexists. split; [symmetry; exact E3|discriminate]. }
    rewrite <- E3. subst t2.
    destruct (empty t1 && negb (empty r)) eqn:E1.
    { eexists. split; [reflexivity|]. intros H. rewrite H in E2. discriminate. }
    subst t1. destruct (negb (empty s)).
    { eexists. split; [reflexivity|]. intros H. rewrite H in E2. discriminate. }
    discriminate. }
  destruct Ht3 as [-> | (key & Hkey & Hne)]; [now left|].
  right; right. split; [exact Hl|]. split; [reflexivity|].
  rewrite (empty_false t3 Hne).
  destruct (Hok key) as [Hk | (lang & ts & tr & Hsplit & Hts & Hts' & Htr & Htr')].
  { rewrite <- Hkey in Hk. contradiction. }
  rewrite Hkey, Hsplit. cbn [nth].
  pose proof (script_code_nonempty ts Hts) as Hts0.
  pose proof (region_code_nonempty tr Htr) as Htr0.
  unfold complete_ident.
  destruct Hs as [Hs | (Hs & Hs1 & Hs2)]; destruct Hr as [Hr | (Hr & Hr1 & Hr2)];
    rewrite Hs, Hr in *; cbn [empty];
    rewrite ?(empty_false _ Hs1), ?(empty_false _ Hr1);
    rewrite ?Script_code, ?Region_code by assumption;
    cbn [m_language m_script m_region set_script set_region set_tag];
    repeat split; auto.
Qed.

(** An identifier with language, script and region is returned as it is. *)
Lemma AddLikelySubtags_complete d l :
  m_language l <> [] -> complete_ident l -> AddLikelySubtags d l = l.
Proof.
  intros Hl (Hs & Hs' & Hr & Hr'). unfold AddLikelySubtags.
  rewrite (empty_false _ Hl).
  destruct (IsDefaultCLocale (m_language l)); [reflexivity|].
  rewrite (IsSameAs_false _ _ Hs'), (IsSameAs_false _ _ Hr').
  now rewrite (empty_false _ Hs), (empty_false _ Hr).
Qed.

Lemma AddLikelySubtags_empty d : AddLikelySubtags d wxLocaleIdent_empty = wxLocaleIdent_empty.
Proof. reflexivity. Qed.

(** With a table of likely subtags of the expected form, AddLikelySubtags
    returns the empty identifier, or the C locale it was given, or an
    identifier with the language of its argument and with script and region
    set; and applied to its own result it changes nothing. *)
Theorem AddLikelySubtags_idempotent (d : wxLocaleData) (l : wxLocaleIdent) :
  likely_subtags_ok d ->
  let m := AddLikelySubtags d l in
  (IsEmpty m = true
   \/ (m = l /\ IsDefaultCLocale (m_language l) = true)
   \/ (m_language m = m_language l /\ complete_ident m))
  /\ AddLikelySubtags d m = m.
Proof.
  intros Hok. cbv zeta.
  destruct (AddLikelySubtags_spec d l Hok)
    as [H | [(H & Hl & HC) | (Hl & HC & Hlang & Hc & _)]]; split.
  - left. now rewrite H.
  - rewrite H. reflexivity.
  - right; left. auto.
  - now rewrite H at 1 2.
  - right; right. auto.
  - apply AddLikelySubtags_complete; [now rewrite Hlang|exact Hc].
Qed.

Lemma Script_clear d l : Script d l [] = set_script l [].
Proof. reflexivity. Qed.

Lemma Region_clear l : Region l [] = set_region l [].
Proof. reflexivity. Qed.

(** When the maximized identifier has the script and the region looked
    for, it has the three fields looked for. *)
Lemma AddLikelySubtags_same d t S R :
  likely_subtags_ok d -> S <> [] ->
  IsSameAs S (m_script (AddLikelySubtags d t)) true
  && IsSameAs R (m_region (AddLikelySubtags d t)) true = true ->
  main_fields (AddLikelySubtags d t) = (m_language t, S, R).
Proof.
  intros Hok HS H. apply andb_prop in H as [H1 H2].
  apply IsSameAs_true in H1. apply IsSameAs_true in H2.
  unfold main_fields. rewrite <- H1, <- H2.
  destruct (AddLikelySubtags_spec d t Hok)
    as [H | [(H & _) | (_ & _ & Hlang & _)]].
  - rewrite H in H1. cbn in H1. congruence.
  - now rewrite H.
  - now rewrite Hlang.
Qed.

(** With a table of likely subtags of the expected form and an identifier
    whose fields are codes: when the identifier can be maximized, the
    identifier that RemoveLikelySubtags returns (favouring the region or the
    script) is maximized to the same language, script and region. *)
Theorem RemoveLikelySubtags_AddLikelySubtags (d : wxLocaleData)
    (l : wxLocaleIdent) (subtagsFavour : wxSubtagsFavour) :
  likely_subtags_ok d ->
  canonical_ident l ->
  subtagsFavour <> wxSubtags_FavourOther ->
  IsEmpty (AddLikelySubtags d l) = false ->
  main_fields (AddLikelySubtags d (RemoveLikelySubtags d l subtagsFavour))
  = main_fields (AddLikelySubtags d l).
Proof.
  intros Hok (Hlang & Hscript & Hregion) Hfav Hne.
  pose proof (language_code_not_C _ Hlang) as HC.
  destruct (AddLikelySubtags_spec d l Hok)
    as [H | [(_ & _ & H) | (Hl & _ & HL & Hc & HS & HR)]];
    [rewrite H in Hne; discriminate|congruence|].
  unfold RemoveLikelySubtags. rewrite Hne.
  set (m := AddLikelySubtags d l) in *.
  destruct Hc as (Hs0 & Hs1 & Hr0 & Hr1).
  assert (HScode : is_script_code (m_script m) = true).
  { destruct HS as [HS|HS]; [|exact HS]. destruct Hscript as [E|E]; [congruence|].
    now rewrite HS. }
  assert (HRcode : is_region_code (m_region m) = true).
  { destruct HR as [HR|HR]; [|exact HR]. destruct Hregion as [E|E]; [congruence|].
    now rewrite HR. }
  rewrite HL, (Language_code l _ Hlang), Script_clear, Region_clear.
  set (trial0 := set_region (set_script (set_language l (m_language l)) []) []).
  assert (Hfields : main_fields m = (m_language l, m_script m, m_region m)).
  { unfold main_fields. now rewrite HL. }
  rewrite Hfields.
  destruct (IsSameAs (m_script m) (m_script (AddLikelySubtags d trial0)) true
            && IsSameAs (m_region m) (m_region (AddLikelySubtags d trial0)) true)
    eqn:E0.
  { now apply (AddLikelySubtags_same d trial0). }
  destruct subtagsFavour; [| |congruence].
  - (* the region first *)
    rewrite (Region_code trial0 _ HRcode).
    set (trial1 := set_region trial0 (m_region m)).
    destruct (IsSameAs (m_script m) (m_script (AddLikelySubtags d trial1)) true
              && IsSameAs (m_region m) (m_region (AddLikelySubtags d trial1)) true)
      eqn:E1.
    { now apply (AddLikelySubtags_same d trial1). }
    rewrite (Script_code d trial1 _ HScode).
    set (trial2 := set_script trial1 (m_script m)).
    assert (H2 : AddLikelySubtags d trial2 = trial2).
    { apply AddLikelySubtags_complete; [exact Hl|]. repeat split; assumption. }
    rewrite H2. cbn [m_script m_region trial2 trial1 set_script set_region].
    cbn [IsSameAs]. rewrite !wxString_eqb_refl. cbn [andb]. rewrite H2. reflexivity.
  - (* the script first *)
    rewrite (Script_code d trial0 _ HScode).
    set (trial1 := set_script trial0 (m_script m)).
    destruct (IsSameAs (m_script m) (m_script (AddLikelySubtags d trial1)) true
              && IsSameAs (m_region m) (m_region (AddLikelySubtags d trial1)) true)
      eqn:E1.
    { now apply (AddLikelySubtags_same d trial1). }
    rewrite (Region_code trial1 _ HRcode).
    set (trial2 := set_region trial1 (m_region m)).
    assert (H2 : AddLikelySubtags d trial2 = trial2).
    { apply AddLikelySubtags_complete; [exact Hl|]. repeat split; assumption. }
    rewrite H2. cbn [m_script m_region trial2 trial1 set_script set_region].
    cbn [IsSameAs]. rewrite !wxString_eqb_refl. cbn [andb]. rewrite H2. reflexivity.
Qed.

(* ------------------------------------------------------------------------- *)
(** ** FindLanguageInfo *)
(* ------------------------------------------------------------------------- *)

Lemma FindLanguageInfo_loop_first locale language languageOnly db infoRet :
  FindLanguageInfo_loop locale language languageOnly db infoRet
  = match List.find (exact_match locale language) db with
    | Some info => Some info
    | None =>
        match infoRet with
        | Some info => Some info
        | None => List.find (language_match locale languageOnly) db
        end
    end.
Proof.
  revert infoRet; induction db as [|info db IH]; intros infoRet.
  - destruct infoRet; reflexivity.
  - cbn [FindLanguageInfo_loop List.find]. unfold exact_match at 1.
    destruct (wxStricmp_eq locale (CanonicalName info)
              || wxStricmp_eq language (Description info)); [reflexivity|].
    rewrite IH. unfold language_match at 2.
    destruct (List.find (exact_match locale language) db); [reflexivity|].
    destruct (wxStricmp_eq locale (fst (BeforeFirst (CanonicalName info) "_"%char))
              || wxStricmp_eq languageOnly (Description info));
      destruct infoRet; reflexivity.
Qed.

Lemma FindLanguageInfo_ident_loop_first localeTag lang db infoRet :
  FindLanguageInfo_ident_loop localeTag lang db infoRet
  = match List.find (tag_match localeTag) db with
    | Some info => Some info
    | None =>
        match infoRet with
        | Some info => Some info
        | None => List.find (tag_language_match lang) db
        end
    end.
Proof.
  revert infoRet; induction db as [|info db IH]; intros infoRet.
  - destruct infoRet; reflexivity.
  - cbn [FindLanguageInfo_ident_loop List.find]. unfold tag_match at 1.
    destruct (wxStricmp_eq localeTag (LocaleTag info)); [reflexivity|].
    rewrite IH. unfold tag_language_match at 2.
    destruct (List.find (tag_match localeTag) db); [reflexivity|].
    destruct (wxStricmp_eq lang (fst (BeforeFirst (LocaleTag info) "-"%char)));
      destruct infoRet; reflexivity.
Qed.

Lemma first_match_In exact partial db info :
  first_match exact partial db = Some info ->
  In info db /\ (exact info = true \/ partial info = true).
Proof.
  unfold first_match. destruct (List.find exact db) as [i|] eqn:E.
  - intros H. inversion H; subst. apply find_some in E. tauto.
  - intros H. apply find_some in H. tauto.
Qed.

Lemma first_match_None exact partial db :
  first_match exact partial db = None ->
  forall info, In info db -> exact info = false /\ partial info = false.
Proof.
  unfold first_match. destruct (List.find exact db) as [i|] eqn:E; [discriminate|].
  intros H info Hin. split.
  - exact (find_none _ _ E info Hin).
  - exact (find_none _ _ H info Hin).
Qed.

(** The search of the language database by name.  An empty name finds
    nothing.  Otherwise the entry found is the first one that matches the
    whole locale, on its canonical name or on its description with the
    region; when there is none, the first one that matches the language
    alone; and nothing when no entry matches either way.  What is found is
    an entry of the database. *)
Theorem FindLanguageInfo_first_match (d : wxLocaleData) (localeOrig : wxString) :
  FindLanguageInfo d [] = None
  /\ (localeOrig <> [] ->
      let locale := if IsDefaultCLocale localeOrig then wxS "en_US" else localeOrig in
      let languageOnly := fst (BeforeFirst (fst (BeforeFirst locale "."%char)) "_"%char) in
      let region := snd (BeforeFirst (fst (BeforeFirst locale "."%char)) "_"%char) in
      let language :=
        if empty region then languageOnly
        else languageOnly ++ wxS " (" ++ region ++ wxS ")" in
      FindLanguageInfo d localeOrig
      = first_match (exact_match locale language)
                    (language_match locale languageOnly) (languagesDB d))
  /\ (forall info, FindLanguageInfo d localeOrig = Some info ->
                   In info (languagesDB d)).
Proof.
  split; [reflexivity|]. split.
  - intros Hne. cbv zeta. unfold FindLanguageInfo.
    destruct localeOrig as [|c s]; [congruence|]. cbn [empty].
    destruct (BeforeFirst (fst (BeforeFirst
                (if IsDefaultCLocale (c :: s) then wxS "en_US" else c :: s)
                "."%char)) "_"%char) as [languageOnly region].
    cbn [fst snd]. rewrite FindLanguageInfo_loop_first. unfold first_match.
    destruct (empty region); reflexivity.
  - intros info. unfold FindLanguageInfo.
    destruct (empty localeOrig); [discriminate|].
    destruct (BeforeFirst _ _) as [languageOnly region].
    rewrite FindLanguageInfo_loop_first. intros H.
    apply (first_match_In _ _ _ _ H).
Qed.

(** The search of the language database by identifier.  An empty identifier
    finds nothing.  Otherwise the entry found is the first one whose tag is,
    case apart, the BCP 47 tag of the identifier (en-US for the C locale);
    when there is none, the first one whose tag starts with its language (en
    for the C locale); and nothing when no entry matches either way.  What
    is found is an entry of the database. *)
Theorem FindLanguageInfo_ident_first_match (d : wxLocaleData)
    (locId : wxLocaleIdent) :
  (IsEmpty locId = true -> FindLanguageInfo_ident d locId = None)
  /\ (IsEmpty locId = false ->
      let isC := IsDefaultCLocale (m_language locId) in
      let lang := if isC then wxS "en" else m_language locId in
      let localeTag :=
        if isC then wxS "en-US" else GetTag d locId wxLOCALE_TAGTYPE_BCP47 in
      FindLanguageInfo_ident d locId
      = first_match (tag_match localeTag) (tag_language_match lang)
                    (languagesDB d))
  /\ (forall info, FindLanguageInfo_ident d locId = Some info ->
                   In info (languagesDB d)).
Proof.
  split; [|split].
  - intros H. unfold FindLanguageInfo_ident. now rewrite H.
  - intros H. cbv zeta. unfold FindLanguageInfo_ident. rewrite H.
    destruct (IsDefaultCLocale (m_language locId));
      rewrite FindLanguageInfo_ident_loop_first; reflexivity.
  - intros info. unfold FindLanguageInfo_ident.
    destruct (IsEmpty locId); [discriminate|].
    destruct (IsDefaultCLocale (m_language locId));
      rewrite FindLanguageInfo_ident_loop_first; intros H;
      apply (first_match_In _ _ _ _ H).
Qed.

(* ------------------------------------------------------------------------- *)
(** ** FromTag on POSIX tags *)
(* ------------------------------------------------------------------------- *)

Lemma modext_not_special c :
  Find validCharsModExt c = true -> Find (wxS "@._") c = false.
Proof.
  destruct c as [[] [] [] [] [] [] [] []]; intros H; vm_compute in H |- *;
    congruence.
Qed.

Lemma modext_free ch s :
  Find (wxS "@._") ch = true -> only_chars s validCharsModExt = true ->
  free_of [ch] s = true.
Proof.
  intros Hch. rewrite only_chars_forallb. unfold free_of.
  induction s as [|c s IH]; cbn [forallb]; auto.
  intros H. apply andb_prop in H as [Hc Hs]. rewrite IH by assumption.
  rewrite andb_true_r. apply negb_true_iff. rewrite Find_single.
  destruct (Ascii.eqb c ch) eqn:E; auto.
  apply Ascii.eqb_eq in E. subst c. apply modext_not_special in Hc. congruence.
Qed.

Lemma tag_part_free ch sep part :
  negb (Find [ch] sep) = true -> free_of [ch] part = true ->
  free_of [ch] (tag_part sep part) = true.
Proof.
  intros Hsep Hpart. unfold tag_part. destruct (negb (empty part)); [|reflexivity].
  rewrite free_of_cons. now rewrite Hsep, Hpart.
Qed.

Lemma BeforeFirst_tag_part a sep part :
  free_of [sep] a = true ->
  BeforeFirst (a ++ tag_part sep part) sep = (a, part).
Proof.
  intros Ha. unfold tag_part. destruct part as [|c part]; cbn [empty negb].
  - rewrite app_nil_r. now apply BeforeFirst_absent.
  - now apply BeforeFirst_hit.
Qed.

(** FromTag on a POSIX tag [language_region.charset@modifier], charset and
    modifier being optional: the language is stored in lower case and the
    region in upper case; the charset is stored; the modifier is stored,
    unless it is the alias of a script, in which case the script is stored
    instead; and the modifier [valencia] is copied to the extension. *)
Theorem FromTag_posix_tag (d : wxLocaleData) (lang region charset modifier : wxString) :
  language_shape lang = true ->
  region_shape region = true ->
  length region = 2 \/ isdigit (at_ region 0) = true ->
  only_chars charset validCharsModExt = true ->
  only_chars modifier validCharsModExt = true ->
  GetScriptNameFromAlias d modifier = []
  \/ is_script_code (GetScriptNameFromAlias d modifier) = true ->
  let tag := lang ++ "_"%char :: region ++ tag_part "."%char charset
                  ++ tag_part "@"%char modifier in
  let script := if empty modifier then [] else GetScriptNameFromAlias d modifier in
  let modifier' := if empty script then modifier else [] in
  FromTag d tag
  = mkLocaleIdent (Lower lang) (Upper region) script modifier' charset
                  (if IsSameAs modifier' (wxS "valencia") true then modifier' else [])
                  [] tag.
Proof.
  intros Hlang Hregion Hreg3 Hcs Hmod Halias. cbv zeta.
  pose proof Hlang as Hlang'. pose proof Hregion as Hregion'.
  apply andb_prop in Hlang as [Hllen Hlang]. apply shape_lengths in Hllen.
  apply andb_prop in Hregion as [Hrlen Hregion]. apply shape_lengths in Hrlen.
  apply only_alpha_plain in Hlang. apply only_alnum_plain in Hregion.
  assert (Hlne : lang <> []) by (intros ->; simpl in Hllen; lia).
  set (B := lang ++ "_"%char :: region).
  set (A := B ++ tag_part "."%char charset).
  set (tag := lang ++ "_"%char :: region ++ tag_part "."%char charset
                   ++ tag_part "@"%char modifier).
  assert (Etag : tag = A ++ tag_part "@"%char modifier).
  { subst tag A B. now rewrite <- !app_assoc. }
  assert (HB : forall ch, ch = "@"%char \/ ch = "."%char -> free_of [ch] B = true).
  { intros ch Hch. subst B. rewrite free_of_app, free_of_cons.
    rewrite !plain_free by (auto; destruct Hch; subst; reflexivity).
    destruct Hch; subst; reflexivity. }
  assert (HA : free_of ["@"%char] A = true).
  { subst A. rewrite free_of_app, HB by auto.
    apply tag_part_free; [reflexivity|]. now apply modext_free. }
  unfold FromTag.
  replace (IsDefaultCLocale tag) with false.
  2:{ symmetry. apply (IsDefaultCLocale_sep tag "_"%char); [now right|].
      subst tag. apply in_or_app. right. now left. }
  rewrite Etag at 1. rewrite (BeforeFirst_tag_part A "@"%char modifier HA).
  subst A. rewrite (BeforeFirst_tag_part B "."%char charset (HB _ (or_intror eq_refl))).
  subst B.
  cbv beta iota.
  rewrite (BeforeFirst_hit lang region "_"%char) by (apply plain_free; auto).
  cbv beta iota.
  replace (3 <? length lang) with false by (destruct Hllen as [H|H]; now rewrite H).
  cbn [andb].
  rewrite (BeforeLast_hit lang region "_"%char) by (apply plain_free; auto).
  cbv beta iota.
  replace (4 <? length region) with false by (destruct Hrlen as [H|H]; now rewrite H).
  rewrite andb_false_r. cbn [andb].
  change (wxS "_") with ["_"%char]. change (wxS "-") with ["-"%char].
  rewrite (wxSplit_parts2 lang region "_"%char) by auto.
  (* the identifier after the steps 1a and 1b *)
  set (l1 := if negb (empty modifier)
             then if negb (empty (GetScriptNameFromAlias d modifier))
                  then Script d wxLocaleIdent_empty (GetScriptNameFromAlias d modifier)
                  else Modifier wxLocaleIdent_empty modifier
             else wxLocaleIdent_empty).
  set (l2 := if negb (empty charset) then Charset l1 charset else l1).
  set (script := if empty modifier then [] else GetScriptNameFromAlias d modifier).
  set (modifier' := if empty script then modifier else []).
  assert (Hl1 : l1 = mkLocaleIdent [] [] script modifier' [] [] [] []).
  { subst l1 script modifier'. destruct modifier as [|c m]; [reflexivity|].
    cbn [empty negb].
    destruct Halias as [Ha|Ha].
    - rewrite Ha. cbn [empty negb]. unfold Modifier. now rewrite Hmod.
    - rewrite (empty_false _ (script_code_nonempty _ Ha)). cbn [negb].
      now rewrite (Script_code d _ _ Ha). }
  assert (Hl2 : l2 = mkLocaleIdent [] [] script modifier' charset [] [] []).
  { subst l2. rewrite Hl1. destruct charset as [|c cs]; [reflexivity|].
    cbn [empty negb]. unfold Charset. now rewrite Hcs. }
  rewrite Hl2. unfold FromTag_subtags.
  cbn [m_language set_language set_tag].
  replace (negb ((length (Lower lang) =? 2) || (length (Lower lang) =? 3))) with false
    by (unfold Lower; rewrite length_map; destruct Hllen as [H|H]; now rewrite H).
  cbn [FromTag_skip_extlangs].
  replace ((length region =? 3) && negb (isdigit (at_ region 0))) with false.
  2:{ destruct Hreg3 as [H|H]; [now rewrite H|]. now rewrite H, andb_false_r. }
  replace ((length region =? 2) || (length region =? 3)) with true
    by (destruct Hrlen as [H|H]; now rewrite H).
  unfold CheckLanguageVariant.
  cbn [m_modifier m_extension set_region set_language set_tag m_language m_region
       m_script m_charset m_sortorder m_tag].
  destruct (IsSameAs modifier' (wxS "valencia") true) eqn:Ev.
  - apply IsSameAs_true in Ev. unfold Extension. rewrite Ev. reflexivity.
  - reflexivity.
Qed.

(* ------------------------------------------------------------------------- *)
(** ** The locale functions on the sample data *)
(* ------------------------------------------------------------------------- *)

Lemma sample_data_likely_ok : likely_subtags_ok sample_data.
Proof.
  intros key. cbn [GetLikelySubtags sample_data].
  destruct (wxString_eqb key (wxS "en")).
  { right. exists (wxS "en"), (wxS "Latn"), (wxS "US").
    repeat split; try reflexivity; discriminate. }
  destruct (wxString_eqb key (wxS "de")).
  { right. exists (wxS "de"), (wxS "Latn"), (wxS "DE").
    repeat split; try reflexivity; discriminate. }
  destruct (wxString_eqb key (wxS "sr")).
  { right. exists (wxS "sr"), (wxS "Cyrl"), (wxS "RS").
    repeat split; try reflexivity; discriminate. }
  now left.
Qed.

(** Serbian: the likely script and region are added once. *)
Lemma AddLikelySubtags_idempotent_witness :
  let m := AddLikelySubtags sample_data (FromTag sample_data (wxS "sr")) in
  main_fields m = (wxS "sr", wxS "Cyrl", wxS "RS")
  /\ AddLikelySubtags sample_data m = m.
Proof.
  cbv zeta. split; [reflexivity|].
  exact (proj2 (AddLikelySubtags_idempotent sample_data
                  (FromTag sample_data (wxS "sr")) sample_data_likely_ok)).
Defined.

(** Serbian in Cyrillic script for Serbia is minimized to the language, and
    maximized again to the same three subtags. *)
Lemma RemoveLikelySubtags_AddLikelySubtags_witness :
  let l := FromTag sample_data (wxS "sr-Cyrl-RS") in
  main_fields (RemoveLikelySubtags sample_data l wxSubtags_FavourRegion)
  = (wxS "sr", [], [])
  /\ main_fields (AddLikelySubtags sample_data
                    (RemoveLikelySubtags sample_data l wxSubtags_FavourRegion))
     = main_fields (AddLikelySubtags sample_data l).
Proof.
  cbv zeta. split; [reflexivity|].
  apply RemoveLikelySubtags_AddLikelySubtags.
  - exact sample_data_likely_ok.
  - repeat split; try reflexivity; right; reflexivity.
  - discriminate.
  - reflexivity.
Defined.

(** Serbian for Serbia in Latin script, written as a POSIX locale name. *)
Lemma FromTag_posix_tag_witness :
  FromTag sample_data (wxS "sr_RS.UTF-8@latin")
  = mkLocaleIdent (wxS "sr") (wxS "RS") (wxS "Latn") [] (wxS "UTF-8") [] []
                  (wxS "sr_RS.UTF-8@latin").
Proof.
  apply (FromTag_posix_tag sample_data (wxS "sr") (wxS "RS") (wxS "UTF-8")
                           (wxS "latin")); try reflexivity.
  - now left.
  - right. reflexivity.
Defined.

(** The sample database: an exact match is found behind an entry that
    matches the language only, and an unknown name finds nothing. *)
Lemma FindLanguageInfo_first_match_witness :
  FindLanguageInfo sample_data (wxS "de_DE")
  = Some (mkLanguageInfo 2 (wxS "de-DE") (wxS "de_DE") (wxS "German"))
  /\ FindLanguageInfo sample_data (wxS "fr_FR") = None.
Proof.
  destruct (FindLanguageInfo_first_match sample_data (wxS "de_DE")) as (_ & H & _).
  destruct (FindLanguageInfo_first_match sample_data (wxS "fr_FR")) as (_ & H' & _).
  rewrite H, H' by discriminate. split; reflexivity.
Defined.

Lemma FindLanguageInfo_ident_first_match_witness :
  FindLanguageInfo_ident sample_data (FromTag sample_data (wxS "sr"))
  = Some (mkLanguageInfo 3 (wxS "sr-Latn-RS") (wxS "sr_RS@latin")
                         (wxS "Serbian (Latin)")).
Proof.
  destruct (FindLanguageInfo_ident_first_match sample_data
              (FromTag sample_data (wxS "sr"))) as (_ & H & _).
  rewrite H by reflexivity. reflexivity.
Defined.

(* ------------------------------------------------------------------------- *)
(** ** RemoveTrailingSeparatorsFromPath *)
(* ------------------------------------------------------------------------- *)

Lemma Find_DOS_seps c : Find (wxS "\/") c = IsDOSPathSep c.
Proof. unfold Find, IsDOSPathSep. cbn [wxS list_ascii_of_string existsb].
  now rewrite orb_false_r. Qed.

Lemma find_last_not_of_at_all s chars i :
  forallb (Find chars) s = true -> find_last_not_of_at s chars i = None.
Proof.
  revert i; induction s as [|c s IH]; intros i H; [reflexivity|].
  cbn [forallb] in H. apply andb_prop in H as [Hc Hs].
  cbn [find_last_not_of_at]. now rewrite IH, Hc.
Qed.

Lemma find_last_not_of_at_app a b chars i :
  forallb (Find chars) b = true ->
  find_last_not_of_at (a ++ b) chars i = find_last_not_of_at a chars i.
Proof.
  intros Hb. revert i; induction a as [|c a IH]; intros i.
  - now apply find_last_not_of_at_all.
  - cbn [app find_last_not_of_at]. now rewrite IH.
Qed.

Lemma find_last_not_of_at_snoc a x chars i :
  Find chars x = false ->
  find_last_not_of_at (a ++ [x]) chars i = Some (i + length a).
Proof.
  intros Hx. revert i; induction a as [|c a IH]; intros i.
  - cbn [app find_last_not_of_at]. rewrite Hx. f_equal. cbn [length]. lia.
  - cbn [app find_last_not_of_at]. rewrite IH. f_equal. cbn [length]. lia.
Qed.

(** Every string is a part without trailing separator followed by
    separators. *)
Lemma trailing_separators s :
  exists core tail, s = core ++ tail
    /\ forallb IsDOSPathSep tail = true /\ no_trailing_separator core.
Proof.
  induction s as [|x s IH] using rev_ind.
  - exists [], []. repeat split. now left.
  - destruct (IsDOSPathSep x) eqn:Ex.
    + destruct IH as (core & tail & -> & Ht & Hc).
      exists core, (tail ++ [x]). rewrite app_assoc. repeat split; auto.
      rewrite forallb_app, Ht. cbn [forallb]. now rewrite Ex.
    + exists (s ++ [x]), []. rewrite app_nil_r. repeat split.
      right. now exists s, x.
Qed.

Lemma forallb_ext' {A} (f g : A -> bool) l :
  (forall x, f x = g x) -> forallb f l = forallb g l.
Proof. intros H. induction l as [|x l IH]; cbn [forallb]; [reflexivity|]. now rewrite H, IH. Qed.

Lemma all_seps_find tail :
  forallb IsDOSPathSep tail = true -> forallb (Find (wxS "\/")) tail = true.
Proof. intros H. now rewrite (forallb_ext' _ IsDOSPathSep _ Find_DOS_seps). Qed.

(** Without trailing separator nothing is removed. *)
Lemma RemoveTrailingSeparatorsFromPath_fixed core :
  no_trailing_separator core -> RemoveTrailingSeparatorsFromPath core = core.
Proof.
  intros [-> | (s0 & x & -> & Hx)]; [reflexivity|].
  unfold RemoveTrailingSeparatorsFromPath.
  destruct (empty (s0 ++ [x])); [reflexivity|].
  unfold find_last_not_of. rewrite find_last_not_of_at_snoc
    by (now rewrite Find_DOS_seps).
  replace (0 + length s0 + 1 =? length (s0 ++ [x])) with true; [reflexivity|].
  symmetry. apply Nat.eqb_eq. rewrite length_app. reflexivity.
Qed.

Lemma StartsWith_app a b p :
  length p <= length a -> StartsWith (a ++ b) p = StartsWith a p.
Proof.
  revert a; induction p as [|x p IH]; intros a H;
    [destruct (a ++ b); destruct a; reflexivity|].
  destruct a as [|c a]; [cbn [length] in H; lia|].
  cbn [app StartsWith]. rewrite IH; [reflexivity|]. cbn [length] in H. lia.
Qed.

Lemma at_app_left' (a b : wxString) n : n < length a -> at_ (a ++ b) n = at_ a n.
Proof. intros H. unfold at_. now apply app_nth1. Qed.

Lemma IsUNCPath_app a b : 3 <= length a -> IsUNCPath (a ++ b) = IsUNCPath a.
Proof.
  intros H. unfold IsUNCPath. rewrite !at_app_left' by lia.
  replace (3 <=? length (a ++ b)) with true
    by (symmetry; apply Nat.leb_le; rewrite length_app; lia).
  replace (3 <=? length a) with true by (symmetry; now apply Nat.leb_le).
  reflexivity.
Qed.

Lemma all_seps_not_special s :
  forallb IsDOSPathSep s = true ->
  StartsWith s wxMSW_EXTENDED_PATH_PREFIX = false /\ IsUNCPath s = false.
Proof.
  intros H. change wxMSW_EXTENDED_PATH_PREFIX with ["\"%char; "\"%char; "?"%char; "\"%char].
  destruct s as [|a [|b [|c s]]];
    try (split; [cbn [StartsWith]; now rewrite ?andb_false_r|reflexivity]).
  cbn [forallb] in H. apply andb_prop in H as [Ha H]. apply andb_prop in H as [Hb H].
  apply andb_prop in H as [Hc _]. split.
  - cbn [StartsWith].
    replace (Ascii.eqb "?"%char c) with false; [now rewrite !andb_false_r|].
    symmetry. apply Ascii.eqb_neq. intros <-. discriminate.
  - unfold IsUNCPath. change (at_ (a :: b :: c :: s) 2) with c.
    now rewrite Hc, andb_false_r.
Qed.

Lemma find_last_of_all_seps c tail :
  forallb IsDOSPathSep (c :: tail) = true ->
  exists n, find_last_of (c :: tail) (wxS "\/") = Some n.
Proof.
  intros H. unfold find_last_of.
  destruct (find_last_of_at (c :: tail) (wxS "\/") 0) eqn:E; [now eexists|].
  apply find_last_of_at_none in E. rewrite free_of_cons in E.
  cbn [forallb] in H. apply andb_prop in H as [Hc _].
  rewrite Find_DOS_seps, Hc in E. discriminate.
Qed.

(** With trailing separators: all of them are removed, or all but one. *)
Lemma RemoveTrailingSeparatorsFromPath_trailing core c tail :
  no_trailing_separator core -> forallb IsDOSPathSep (c :: tail) = true ->
  RemoveTrailingSeparatorsFromPath (core ++ c :: tail)
  = if keeps_one_separator core then core ++ [c] else core.
Proof.
  intros Hcore Htail. pose proof (all_seps_find _ Htail) as Htail'.
  unfold RemoveTrailingSeparatorsFromPath.
  replace (empty (core ++ c :: tail)) with false by (destruct core; reflexivity).
  unfold find_last_not_of. rewrite find_last_not_of_at_app by assumption.
  destruct Hcore as [-> | (s0 & x & -> & Hx)].
  - cbn [app find_last_not_of_at length Nat.eqb keeps_one_separator find_last_of_from].
    destruct (find_last_of_all_seps c tail Htail) as (n & ->).
    destruct (all_seps_not_special _ Htail) as [-> ->].
    now rewrite !andb_false_r.
  - rewrite find_last_not_of_at_snoc by (now rewrite Find_DOS_seps).
    cbn [Nat.add].
    replace (length s0 + 1 =? length ((s0 ++ [x]) ++ c :: tail)) with false
      by (symmetry; apply Nat.eqb_neq; rewrite !length_app; cbn [length]; lia).
    unfold find_last_of_from.
    replace (S (length s0)) with (length (s0 ++ [x]))
      by (rewrite length_app; cbn [length]; lia).
    rewrite firstn_length_app.
    replace (length s0 + 1) with (length (s0 ++ [x]))
      by (rewrite length_app; reflexivity).
    rewrite firstn_length_app.
    replace (length (s0 ++ [x]) + 1) with (length ((s0 ++ [x]) ++ [c]))
      by (rewrite !length_app; reflexivity).
    replace ((s0 ++ [x]) ++ c :: tail) with (((s0 ++ [x]) ++ [c]) ++ tail)
      by (rewrite <- !app_assoc; reflexivity).
    rewrite firstn_length_app.
    unfold keeps_one_separator.
    destruct (s0 ++ [x]) as [|y core] eqn:Ecore; [destruct s0; discriminate|].
    rewrite <- Ecore.
    destruct (find_last_of (s0 ++ [x]) (wxS "\/")) as [n|] eqn:En; [|reflexivity].
    unfold find_last_of in En.
    destruct (find_last_of_at_some _ _ _ _ En) as (a & t & b & Hab & Hn & Ht & _).
    cbn [Nat.add] in Hn.
    assert (Hb : b <> []).
    { intros ->. change (a ++ [t]) with (a ++ [t]) in Hab.
      apply app_inj_tail in Hab as [_ Hxt]. subst t.
      rewrite Find_DOS_seps in Ht. congruence. }
    assert (Hlen : n + 2 <= length (s0 ++ [x])).
    { rewrite Hab, length_app. cbn [length]. destruct b; [congruence|]. cbn [length]. lia. }
    replace (StartsWith (((s0 ++ [x]) ++ [c]) ++ tail) wxMSW_EXTENDED_PATH_PREFIX)
      with (StartsWith ((s0 ++ [x]) ++ [c] ++ tail) wxMSW_EXTENDED_PATH_PREFIX)
      by (now rewrite <- !app_assoc).
    replace (IsUNCPath (((s0 ++ [x]) ++ [c]) ++ tail))
      with (IsUNCPath ((s0 ++ [x]) ++ [c] ++ tail))
      by (now rewrite <- !app_assoc).
    change (wxMSW_EXTENDED_PATH_PREFIX_LEN - 1) with 3.
    destruct (n =? 3) eqn:E3.
    + apply Nat.eqb_eq in E3. rewrite StartsWith_app
        by (change (length wxMSW_EXTENDED_PATH_PREFIX) with 4; lia).
      replace (n =? 1) with false by (symmetry; apply Nat.eqb_neq; lia).
      reflexivity.
    + destruct (n =? 1) eqn:E1; [|reflexivity].
      apply Nat.eqb_eq in E1. now rewrite IsUNCPath_app by lia.
Qed.

Lemma no_trailing_separator_snoc core c :
  IsDOSPathSep c = true -> no_trailing_separator (core ++ [c]) -> False.
Proof.
  intros Hc [H | (s0 & x & H & Hx)].
  - destruct core; discriminate.
  - apply app_inj_tail in H as [_ ->]. congruence.
Qed.

(** What RemoveTrailingSeparatorsFromPath returns is its argument without
    its trailing separators, or with the first of them only; an argument
    without trailing separator is returned as it is; the result is empty
    exactly when the argument holds nothing but separators; and the function
    applied to its own result changes nothing. *)
Theorem RemoveTrailingSeparatorsFromPath_properties (strPath : wxString) :
  let r := RemoveTrailingSeparatorsFromPath strPath in
  (exists core tail,
     strPath = core ++ tail /\ forallb IsDOSPathSep tail = true
     /\ no_trailing_separator core
     /\ (r = core \/ exists c tail', tail = c :: tail' /\ r = core ++ [c]))
  /\ (no_trailing_separator strPath -> r = strPath)
  /\ (r = [] <-> forallb IsDOSPathSep strPath = true)
  /\ RemoveTrailingSeparatorsFromPath r = r.
Proof.
  cbv zeta.
  destruct (trailing_separators strPath) as (core & tail & -> & Htail & Hcore).
  assert (Hr : RemoveTrailingSeparatorsFromPath (core ++ tail)
               = match tail with
                 | [] => core
                 | c :: _ => if keeps_one_separator core then core ++ [c] else core
                 end).
  { destruct tail as [|c tail].
    - rewrite app_nil_r. now apply RemoveTrailingSeparatorsFromPath_fixed.
    - now apply RemoveTrailingSeparatorsFromPath_trailing. }
  split; [|split; [|split]].
  - exists core, tail. repeat split; auto. rewrite Hr.
    destruct tail as [|c tail]; [now left|].
    destruct (keeps_one_separator core); [right; now exists c, tail|now left].
  - intros H. now apply RemoveTrailingSeparatorsFromPath_fixed.
  - rewrite Hr, forallb_app, Htail, andb_true_r. split.
    + intros H. destruct tail as [|c tail].
      * now subst core.
      * destruct (keeps_one_separator core) eqn:Ek.
        -- destruct core; discriminate.
        -- now subst core.
    + intros Hall. destruct Hcore as [-> | (s0 & x & -> & Hx)].
      * destruct tail; reflexivity.
      * rewrite forallb_app in Hall. apply andb_prop in Hall as [_ Hall].
        cbn [forallb] in Hall. rewrite Hx in Hall. discriminate.
  - rewrite Hr. destruct tail as [|c tail].
    + now apply RemoveTrailingSeparatorsFromPath_fixed.
    + destruct (keeps_one_separator core) eqn:Ek.
      * cbn [forallb] in Htail. apply andb_prop in Htail as [Hc _].
        rewrite (RemoveTrailingSeparatorsFromPath_trailing core c [] Hcore)
          by (cbn [forallb]; now rewrite Hc).
        now rewrite Ek.
      * now apply RemoveTrailingSeparatorsFromPath_fixed.
Qed.

(* ------------------------------------------------------------------------- *)
(** ** GetTempDir *)
(* ------------------------------------------------------------------------- *)

Lemma find_last_not_of_at_some s chars i j :
  find_last_not_of_at s chars i = Some j ->
  exists a t b, s = a ++ t :: b /\ j = i + length a
                /\ Find chars t = false /\ forallb (Find chars) b = true.
Proof.
  revert i j; induction s as [|c s IH]; intros i j H; [discriminate|].
  cbn [find_last_not_of_at] in H.
  destruct (find_last_not_of_at s chars (S i)) eqn:E.
  - inversion H; subst. destruct (IH _ _ E) as (a & t & b & -> & -> & Ht & Hb).
    exists (c :: a), t, b. cbn [app length]. repeat split; auto; lia.
  - destruct (Find chars c) eqn:Ec; [discriminate|]. inversion H; subst.
    exists [], c, s. cbn [app length]. split; [reflexivity|]. split; [lia|].
    split; [exact Ec|].
    clear -E. revert E. generalize (S j). induction s as [|x s IH]; intros n E;
      [reflexivity|].
    cbn [find_last_not_of_at] in E. cbn [forallb].
    destruct (find_last_not_of_at s chars (S n)) eqn:E'; [discriminate|].
    destruct (Find chars x); [|discriminate]. cbn [andb]. now apply (IH (S n)).
Qed.

(** The directory for temporary files is never the empty string, and it
    does not end with a path separator of the native format, unless it is one
    separator and nothing else. *)
Theorem GetTempDir_no_trailing_separator (p : wxPlatform) (unix_like : bool)
    (wxGetenv : wxString -> wxString) (DirExists : wxString -> bool)
    (GetTempPath : wxString) :
  let dir := GetTempDir p unix_like wxGetenv DirExists GetTempPath in
  dir <> []
  /\ (dir = [GetPathSeparator p wxPATH_NATIVE]
      \/ IsPathSeparator p (last dir wxUniChar_NUL) wxPATH_NATIVE = false).
Proof.
  cbv zeta. unfold GetTempDir.
  set (dir := if empty _ then match p with Platform_WINDOWS => _ | _ => _ end else _).
  destruct (empty dir) eqn:Edir; cbn [negb].
  - destruct unix_like.
    + unfold CheckIfDirExists. destruct (DirExists (wxS "/tmp")); cbn [empty wxS list_ascii_of_string].
      * split; [discriminate|]. right. destruct p; reflexivity.
      * split; [discriminate|]. destruct p; [right|left|right]; reflexivity.
    + rewrite Edir. split; [discriminate|].
      destruct p; [right|left|right]; reflexivity.
  - destruct (find_last_not_of dir (GetPathSeparators p wxPATH_NATIVE)) as [n|] eqn:En.
    + unfold find_last_not_of in En.
      destruct (find_last_not_of_at_some _ _ _ _ En) as (a & t & b & -> & -> & Ht & _).
      cbn [Nat.add].
      replace (length a + 1) with (length (a ++ [t]))
        by (rewrite length_app; reflexivity).
      replace (a ++ t :: b) with ((a ++ [t]) ++ b) by (now rewrite <- app_assoc).
      rewrite firstn_length_app. split; [destruct a; discriminate|].
      right. rewrite last_last. unfold IsPathSeparator. rewrite Ht.
      apply andb_false_r.
    + split; [discriminate|]. now left.
Qed.

(* ------------------------------------------------------------------------- *)
(** ** The directory components of an object *)
(* ------------------------------------------------------------------------- *)

Lemma set_dirs_set_dirs fn a b : set_dirs (set_dirs fn a) b = set_dirs fn b.
Proof. reflexivity. Qed.

Lemma set_dirs_m_dirs fn : set_dirs fn (m_dirs fn) = fn.
Proof. now destruct fn. Qed.

Lemma remove_inserted {A} (l : list A) (x : A) n :
  n <= length l ->
  firstn n (firstn n l ++ x :: skipn n l)
  ++ skipn (S n) (firstn n l ++ x :: skipn n l) = l.
Proof.
  intros H.
  assert (Hlen : length (firstn n l) = n) by (rewrite length_firstn; lia).
  rewrite <- Hlen at 1. rewrite firstn_length_app.
  replace (S n) with (length (firstn n l ++ [x]))
    by (rewrite length_app, Hlen; cbn [length]; lia).
  replace (firstn n l ++ x :: skipn n l) with ((firstn n l ++ [x]) ++ skipn n l)
    by (now rewrite <- app_assoc).
  rewrite skipn_length_app. apply firstn_skipn.
Qed.

Lemma IsValidDirComponent_unix dir :
  IsValidDirComponent Platform_UNIX dir
  = dir_component_ok [wxFILE_SEP_PATH_UNIX] dir.
Proof.
  unfold IsValidDirComponent, dir_component_ok.
  destruct (empty dir) eqn:E; [reflexivity|]. cbn [negb andb]. clear E.
  induction dir as [|c dir IH]; [reflexivity|].
  cbn [IsValidDirComponent_chars]. rewrite free_of_cons, <- IH.
  replace (wxString_eqb [c] (GetVolumeSeparator Platform_UNIX wxPATH_NATIVE))
    with false by reflexivity.
  cbn [orb]. rewrite native_separators_unix.
  change (GetPathTerminators Platform_UNIX (GetFormat Platform_UNIX wxPATH_NATIVE))
    with [wxFILE_SEP_PATH_UNIX].
  destruct (Find [wxFILE_SEP_PATH_UNIX] c); reflexivity.
Qed.

(** Changing the list of directories.  AppendDir and InsertDir refuse a
    component that IsValidDirComponent rejects and then leave the object as
    it is; otherwise they add the component at the end and before the given
    index.  So a list of valid components stays one under AppendDir,
    InsertDir, PrependDir and RemoveDir; RemoveDir undoes InsertDir,
    PrependDir and AppendDir; and on a Unix build an object that the Unix
    format writes and reads back is still one after AppendDir. *)
Theorem dir_components_operations (p : wxPlatform) (fn : wxFileName)
    (dir : wxString) (before : nat) :
  let valid := forallb (IsValidDirComponent p) in
  (IsValidDirComponent p dir = false ->
   AppendDir p fn dir = (false, fn) /\ InsertDir p fn before dir = (false, fn))
  /\ (IsValidDirComponent p dir = true ->
      fst (AppendDir p fn dir) = true
      /\ m_dirs (snd (AppendDir p fn dir)) = m_dirs fn ++ [dir]
      /\ RemoveDir (snd (AppendDir p fn dir)) (length (m_dirs fn)) = fn
      /\ RemoveDir (PrependDir p fn dir) 0 = fn
      /\ (before <= length (m_dirs fn) ->
          RemoveDir (snd (InsertDir p fn before dir)) before = fn))
  /\ (valid (m_dirs fn) = true ->
      valid (m_dirs (snd (AppendDir p fn dir))) = true
      /\ valid (m_dirs (snd (InsertDir p fn before dir))) = true
      /\ valid (m_dirs (PrependDir p fn dir)) = true
      /\ valid (m_dirs (RemoveDir fn before)) = true)
  /\ (p = Platform_UNIX -> unix_wellformed fn ->
      unix_wellformed (snd (AppendDir p fn dir))).
Proof.
  cbv zeta. split; [|split; [|split]].
  - intros H. unfold AppendDir, InsertDir. now rewrite H.
  - intros H. unfold PrependDir, AppendDir, InsertDir, RemoveDir. rewrite H.
    cbn [negb fst snd m_dirs set_dirs]. split; [reflexivity|]. split; [reflexivity|].
    split; [|split].
    + rewrite firstn_length_app.
      replace (S (length (m_dirs fn))) with (length (m_dirs fn ++ [dir]))
        by (rewrite length_app; cbn [length]; lia).
      rewrite skipn_all, app_nil_r. rewrite set_dirs_set_dirs. apply set_dirs_m_dirs.
    + cbn [firstn skipn app]. rewrite set_dirs_set_dirs. apply set_dirs_m_dirs.
    + intros Hb. rewrite set_dirs_set_dirs, remove_inserted by assumption.
      apply set_dirs_m_dirs.
  - intros Hv. unfold PrependDir, AppendDir, InsertDir, RemoveDir.
    destruct (IsValidDirComponent p dir) eqn:E; cbn [negb fst snd m_dirs set_dirs].
    + rewrite !forallb_app. cbn [forallb firstn skipn app]. rewrite E, Hv.
      rewrite <- (firstn_skipn before (m_dirs fn)) in Hv.
      rewrite forallb_app in Hv. apply andb_prop in Hv as [H1 H2].
      rewrite H1, H2. repeat split; try reflexivity.
      rewrite <- (firstn_skipn 1 (skipn before (m_dirs fn))) in H2.
      rewrite forallb_app in H2. apply andb_prop in H2 as [_ H2].
      rewrite skipn_skipn in H2. exact H2.
    + rewrite Hv. repeat split; try reflexivity.
      rewrite forallb_app.
      rewrite <- (firstn_skipn before (m_dirs fn)) in Hv.
      rewrite forallb_app in Hv. apply andb_prop in Hv as [H1 H2]. rewrite H1.
      rewrite <- (firstn_skipn 1 (skipn before (m_dirs fn))) in H2.
      rewrite forallb_app in H2. apply andb_prop in H2 as [_ H2].
      rewrite skipn_skipn in H2. exact H2.
  - intros -> (Hvol & Hdirs & Hfree & Hsplit). unfold AppendDir.
    destruct (IsValidDirComponent Platform_UNIX dir) eqn:E; cbn [negb snd].
    + rewrite IsValidDirComponent_unix in E.
      unfold unix_wellformed. destruct fn; cbn in *.
      repeat split; auto. rewrite forallb_app, Hdirs. cbn [forallb]. now rewrite E.
    + repeat split; assumption.
Qed.

(* ------------------------------------------------------------------------- *)
(** ** MakeRelativeTo and MakeAbsolute *)
(* ------------------------------------------------------------------------- *)

Lemma Normalize_dirs_pop flags relative A B X :
  has_flag flags wxPATH_NORM_DOTS = true ->
  ~ In (wxS "..") B ->
  Normalize_dirs flags relative (repeat (wxS "..") (length B) ++ X) (A ++ B)
  = Normalize_dirs flags relative X A.
Proof.
  intros Hflag. induction B as [|b B IH] using rev_ind; intros HB.
  - cbn [length repeat app]. now rewrite app_nil_r.
  - rewrite length_app. cbn [length].
    replace (length B + 1) with (S (length B)) by lia.
    cbn [repeat app Normalize_dirs]. rewrite Hflag. cbn [andb].
    change (wxString_eqb (wxS "..") (wxS ".")) with false.
    change (wxString_eqb (wxS "..") (wxS "..")) with true. cbv iota.
    rewrite app_assoc.
    replace (length ((A ++ B) ++ [b]) =? 0) with false
      by (symmetry; apply Nat.eqb_neq; rewrite length_app; cbn [length]; lia).
    rewrite last_last, removelast_last.
    assert (Hb : wxString_eqb b (wxS "..") = false).
    { destruct (wxString_eqb b (wxS "..")) eqn:E; [|reflexivity].
      apply wxString_eqb_eq in E. exfalso. apply HB. apply in_or_app. right.
      left. exact E. }
    rewrite Hb. cbn [negb]. apply IH.
    intros Hin. apply HB. apply in_or_app. now left.
Qed.

Lemma Normalize_paths_unix_absolute env fn flags cwd format :
  env_platform env = Platform_UNIX ->
  format = wxPATH_NATIVE \/ format = wxPATH_UNIX ->
  m_relative fn = false ->
  Normalize_paths env fn flags cwd format
  = set_dirs fn (Normalize_dirs flags false (m_dirs fn) []).
Proof.
  intros Hp Hf Hrel.
  assert (Hfmt : GetFormat (env_platform env) format = wxPATH_UNIX).
  { rewrite Hp. destruct Hf; subst; reflexivity. }
  unfold Normalize_paths. rewrite Hfmt.
  assert (Habs : IsAbsolute env fn wxPATH_UNIX = true).
  { unfold IsAbsolute. rewrite Hrel, Hp.
    destruct (_ && _); reflexivity. }
  rewrite Habs, Hrel. cbn [negb]. rewrite !andb_false_r.
  rewrite IsOk_Clear. cbv beta iota. now rewrite Hrel.
Qed.

Lemma AssignDir_unix_slashed env fn0 pre format :
  env_platform env = Platform_UNIX ->
  format = wxPATH_NATIVE \/ format = wxPATH_UNIX ->
  tokenizer_fields env ->
  Ascii.eqb (at_ (pre ++ [wxFILE_SEP_PATH_UNIX]) 0) "/"%char = true ->
  let rp := SplitPath (env_platform env) (pre ++ [wxFILE_SEP_PATH_UNIX]) format in
  Assign_parts env fn0 (sp_volume rp) (sp_path rp) [] [] false format
  = mkFileName [] (filter nonempty (fields_of [wxFILE_SEP_PATH_UNIX] pre []))
               [] [] false false (m_dontFollowLinks fn0).
Proof.
  intros Hp Hf Htok Hlead. cbv zeta.
  assert (Hfmt : GetFormat (env_platform env) format = wxPATH_UNIX).
  { rewrite Hp. destruct Hf; subst; reflexivity. }
  set (full := pre ++ [wxFILE_SEP_PATH_UNIX]) in *.
  assert (Hsv : SplitVolume (env_platform env) full
                  (GetFormat (env_platform env) format) = ([], full)).
  { rewrite Hfmt. reflexivity. }
  assert (Hterms : GetPathTerminators (env_platform env)
                     (GetFormat (env_platform env) format) = [wxFILE_SEP_PATH_UNIX]).
  { rewrite Hfmt, Hp. reflexivity. }
  assert (Hlc : last_component
                  (GetPathTerminators (env_platform env)
                     (GetFormat (env_platform env) format))
                  (snd (SplitVolume (env_platform env) full
                          (GetFormat (env_platform env) format))) full []).
  { rewrite Hsv, Hterms. split; [now rewrite app_nil_r|]. split; [reflexivity|].
    right. exists pre, wxFILE_SEP_PATH_UNIX. split; reflexivity. }
  pose proof (SplitPath_path _ _ format full [] Hlc) as Hpath.
  pose proof (SplitPath_volume (env_platform env) full format) as Hvol.
  cbv zeta in Hpath. rewrite Hsv in Hvol. cbn [fst] in Hvol.
  unfold Assign_parts. rewrite Hvol, Hpath. clear Hpath Hvol Hlc Hsv.
  rewrite (DoSetPath_PathOnly_unix env fn0 _ format Hfmt Htok).
  subst full. rewrite match_snoc, removelast_last, last_last, Hfmt.
  unfold dir_part. destruct pre as [|c pre].
  - reflexivity.
  - cbn [empty]. rewrite at_app_left in Hlead by (cbn [length]; lia).
    rewrite Hlead. reflexivity.
Qed.

Lemma AssignDir_unix_dirs env fn0 bdirs format :
  env_platform env = Platform_UNIX ->
  format = wxPATH_NATIVE \/ format = wxPATH_UNIX ->
  tokenizer_fields env ->
  forallb (dir_component_ok [wxFILE_SEP_PATH_UNIX]) bdirs = true ->
  AssignDir env fn0
    (wxFILE_SEP_PATH_UNIX :: flat_map (fun d => d ++ [wxFILE_SEP_PATH_UNIX]) bdirs)
    format
  = mkFileName [] bdirs [] [] false false (m_dontFollowLinks fn0).
Proof.
  intros Hp Hf Htok Hok.
  pose proof (unix_prefix_cases false bdirs Hok) as Hcases. cbv zeta in Hcases.
  cbn [app] in Hcases.
  destruct Hcases as [(HP & _) | (pre & HP & Hlead & Hfields & Hpre)];
    [discriminate|].
  unfold AssignDir, Assign_dir_name.
  assert (Hname : SplitPath (env_platform env) [] format = mkSplit [] [] [] [] false).
  { rewrite Hp. destruct Hf; subst; reflexivity. }
  rewrite Hname. cbn [sp_name sp_ext sp_hasExt].
  assert (Hsep : GetPathSeparator (env_platform env) format = wxFILE_SEP_PATH_UNIX).
  { rewrite Hp. destruct Hf; subst; reflexivity. }
  rewrite Hsep.
  destruct (negb (empty _) && negb (wxEndsWithPathSeparator env _)).
  - rewrite (AssignDir_unix_slashed env fn0 _ format Hp Hf Htok) by reflexivity.
    rewrite Hfields. reflexivity.
  - rewrite HP.
    rewrite (AssignDir_unix_slashed env fn0 _ format Hp Hf Htok)
      by (rewrite <- HP; reflexivity).
    rewrite HP in Hfields. rewrite fields_of_snoc in Hfields by reflexivity.
    rewrite Hfields. reflexivity.
Qed.

Lemma remove_common_dirs_equal dirs baseDirs :
  exists common,
    dirs = common ++ fst (remove_common_dirs true dirs baseDirs)
    /\ baseDirs = common ++ snd (remove_common_dirs true dirs baseDirs).
Proof.
  destruct (remove_common_dirs_spec true dirs baseDirs)
    as (common & commonBase & Hd & Hb & Hsame & _).
  exists common. split; [exact Hd|].
  replace common with commonBase at 1; [exact Hb|].
  clear -Hsame. induction Hsame as [|a b l l' Hab _ IH]; [reflexivity|].
  apply IsSameAs_true in Hab. now subst.
Qed.

Lemma not_In_app_r {A} (x : A) l1 l2 : ~ In x (l1 ++ l2) -> ~ In x l2.
Proof. intros H Hin. apply H. apply in_or_app. now right. Qed.

(** The directories of the relative path, resolved against the directories
    of the base, are the directories the relative path was computed from. *)
Lemma relative_dirs_resolve flags dirs bdirs :
  has_flag flags wxPATH_NORM_DOTS = true ->
  ~ In (wxS ".") dirs -> ~ In (wxS "..") dirs ->
  let nb := Normalize_dirs flags false bdirs [] in
  let rel := fst (remove_common_dirs true dirs nb) in
  let baseRest := snd (remove_common_dirs true dirs nb) in
  forall tail, tail = [] \/ tail = [wxS "."] ->
  Normalize_dirs flags false
    (bdirs ++ (insert_dotdots (length baseRest) rel) ++ tail) []
  = dirs.
Proof.
  intros Hflag Hdot Hdotdot. cbv zeta. intros tail Htail.
  destruct (Normalize_dirs_shape flags false bdirs Hflag)
    as (k & rest & Hnb & Hr1 & Hr2 & Hk).
  rewrite (Hk eq_refl) in Hnb. cbn [repeat app] in Hnb.
  destruct (remove_common_dirs_equal dirs (Normalize_dirs flags false bdirs []))
    as (common & Hd & Hb).
  remember (fst (remove_common_dirs true dirs (Normalize_dirs flags false bdirs [])))
    as rel eqn:Erel.
  remember (snd (remove_common_dirs true dirs (Normalize_dirs flags false bdirs [])))
    as baseRest eqn:Ebase.
  clear Erel Ebase.
  rewrite Normalize_dirs_app, Hb, insert_dotdots_repeat, <- app_assoc.
  rewrite Normalize_dirs_pop; [|exact Hflag|].
  2:{ rewrite Hnb in Hb. rewrite Hb in Hr2. exact (not_In_app_r _ _ _ Hr2). }
  rewrite Normalize_dirs_app.
  rewrite (Normalize_dirs_plain _ _ rel common).
  2:{ rewrite Hd in Hdot. exact (not_In_app_r _ _ _ Hdot). }
  2:{ rewrite Hd in Hdotdot. exact (not_In_app_r _ _ _ Hdotdot). }
  rewrite <- Hd.
  destruct Htail as [-> | ->]; [reflexivity|].
  cbn [Normalize_dirs]. rewrite Hflag. reflexivity.
Qed.

(** On a Unix build, for an absolute path without [.], [..] and without a
    directory that starts with a tilde, and a base given as an absolute
    directory path with its final slash: MakeRelativeTo succeeds and leaves
    a relative path, and MakeAbsolute with the same base as the working
    directory gives the path back. *)
Theorem MakeRelativeTo_MakeAbsolute_unix (env : wxEnv) (fn : wxFileName)
    (bdirs : list wxString) (format : wxPathFormat) :
  env_platform env = Platform_UNIX ->
  format = wxPATH_NATIVE \/ format = wxPATH_UNIX ->
  tokenizer_fields env ->
  m_relative fn = false ->
  m_volume fn = [] ->
  ~ In (wxS ".") (m_dirs fn) ->
  ~ In (wxS "..") (m_dirs fn) ->
  (forall d, In d (m_dirs fn) -> Ascii.eqb (at_ d 0) "~"%char = false) ->
  forallb (dir_component_ok [wxFILE_SEP_PATH_UNIX]) bdirs = true ->
  let pathBase :=
    wxFILE_SEP_PATH_UNIX :: flat_map (fun d => d ++ [wxFILE_SEP_PATH_UNIX]) bdirs in
  let r := MakeRelativeTo env fn pathBase format in
  fst r = true
  /\ m_relative (snd r) = true
  /\ MakeAbsolute env (snd r) pathBase format = fn.
Proof.
  intros Hp Hf Htok Hrel Hvol Hdot Hdotdot Htilde Hok. cbv zeta.
  assert (Hfmt : GetFormat (env_platform env) format = wxPATH_UNIX).
  { rewrite Hp. destruct Hf; subst; reflexivity. }
  assert (Hflag : has_flag MakeAbsolute_flags wxPATH_NORM_DOTS = true) by reflexivity.
  set (pathBase := wxFILE_SEP_PATH_UNIX
                   :: flat_map (fun d => d ++ [wxFILE_SEP_PATH_UNIX]) bdirs).
  (* the two paths in canonical form *)
  assert (Hcanon : forall g, m_relative g = false ->
            MakeRelativeTo_canonical env g format
            = set_dirs g (Normalize_dirs MakeAbsolute_flags false (m_dirs g) [])).
  { intros g Hg. unfold MakeRelativeTo_canonical.
    rewrite Normalize_LONG, Hp.
    rewrite (Normalize_unix_MakeAbsolute env g _ format Hp).
    now apply Normalize_paths_unix_absolute. }
  assert (Hbase : forall f0 fmt, fmt = wxPATH_NATIVE \/ fmt = wxPATH_UNIX ->
            AssignDir env f0 pathBase fmt
            = mkFileName [] bdirs [] [] false false (m_dontFollowLinks f0)).
  { intros f0 fmt Hfm. now apply AssignDir_unix_dirs. }
  pose proof (relative_dirs_resolve MakeAbsolute_flags (m_dirs fn) bdirs
                Hflag Hdot Hdotdot) as Hres. cbv zeta in Hres.
  unfold MakeRelativeTo. unfold DirName. rewrite (Hbase Clear format Hf).
  rewrite (Hcanon fn Hrel).
  rewrite (Hcanon (mkFileName [] bdirs [] [] false false (m_dontFollowLinks Clear))
                  eq_refl).
  rewrite (Normalize_dirs_plain _ _ (m_dirs fn) []) by assumption.
  cbn [app]. rewrite set_dirs_same.
  cbn [m_volume m_dirs set_dirs]. rewrite Hvol.
  replace (IsCaseSensitive (env_platform env) format) with true
    by (unfold IsCaseSensitive; now rewrite Hfmt).
  change (IsSameAs [] [] true) with true. cbn [negb].
  replace (SetVolume fn []) with fn by (destruct fn; cbn in *; now subst).
  destruct (remove_common_dirs_equal (m_dirs fn)
              (Normalize_dirs MakeAbsolute_flags false bdirs []))
    as (common & Hd & _).
  destruct (remove_common_dirs true (m_dirs fn)
              (Normalize_dirs MakeAbsolute_flags false bdirs []))
    as [rel baseRest] eqn:Ercd.
  cbn [fst snd] in Hres, Hd. rewrite Hfmt. cbn [m_dirs set_dirs m_volume].
  set (rd := insert_dotdots (length baseRest) rel) in *.
  replace (IsDir (set_dirs fn rd)) with (IsDir fn) by reflexivity.
  set (tail := if (length rd =? 0) && IsDir fn then [wxS "."] else []).
  assert (Htail : tail = [] \/ tail = [wxS "."]).
  { subst tail. destruct (_ && _); auto. }
  assert (Hr : set_relative
                 (if (length rd =? 0) && IsDir fn
                  then set_dirs (set_dirs fn rd) (rd ++ [wxS "."])
                  else set_dirs fn rd) true
               = mkFileName [] (rd ++ tail) (m_name fn) (m_ext fn) true
                            (m_hasExt fn) (m_dontFollowLinks fn)).
  { subst tail. unfold set_relative, set_dirs.
    destruct (_ && _); cbn [m_volume m_dirs m_name m_ext m_hasExt m_dontFollowLinks];
      rewrite Hvol, ?app_nil_r; reflexivity. }
  rewrite Hr. cbn [fst snd m_relative].
  split; [reflexivity|]. split; [reflexivity|].
  (* back to the absolute path *)
  rewrite (Normalize_unix_MakeAbsolute env _ _ format Hp).
  set (r := mkFileName [] (rd ++ tail) (m_name fn) (m_ext fn) true
                       (m_hasExt fn) (m_dontFollowLinks fn)).
  assert (Hfirst : match rd ++ tail with
                   | dir :: _ => negb (empty dir) && Ascii.eqb (at_ dir 0) "~"%char
                   | [] => false
                   end = false).
  { destruct (rd ++ tail) as [|dir l] eqn:E; [reflexivity|].
    assert (Hdir : dir = wxS ".." \/ dir = wxS "." \/ In dir (m_dirs fn)).
    { subst rd. rewrite insert_dotdots_repeat in E.
      destruct baseRest as [|b baseRest].
      - cbn [length repeat app] in E. destruct rel as [|x rel].
        + cbn [app] in E. destruct Htail as [Ht | Ht]; rewrite Ht in E;
            [discriminate|]. inversion E. auto.
        + inversion E; subst. right. right. rewrite Hd. apply in_or_app.
          right. now left.
      - cbn [length repeat app] in E. inversion E. auto. }
    destruct Hdir as [-> | [-> | Hin]]; [reflexivity|reflexivity|].
    rewrite (Htilde _ Hin). apply andb_false_r. }
  unfold Normalize_paths. rewrite Hfmt.
  assert (Habs : IsAbsolute env r wxPATH_UNIX = false).
  { unfold IsAbsolute. subst r. cbn [m_dirs m_relative]. rewrite Hfirst.
    reflexivity. }
  rewrite Habs. cbn [negb].
  replace (has_flag MakeAbsolute_flags wxPATH_NORM_ABSOLUTE) with true by reflexivity.
  replace (has_flag MakeAbsolute_flags wxPATH_NORM_TILDE) with true by reflexivity.
  cbn [andb]. replace (empty pathBase) with false by reflexivity.
  rewrite (Hbase Clear wxPATH_NATIVE (or_introl eq_refl)).
  replace (m_dirs r) with (rd ++ tail) by reflexivity.
  replace (m_relative r) with true by reflexivity.
  replace (wxPathFormat_eqb wxPATH_UNIX wxPATH_UNIX) with true by reflexivity.
  cbn [andb].
  assert (Hsel : (match rd ++ tail with
                  | [] => (mkFileName [] bdirs [] [] false false
                                      (m_dontFollowLinks Clear), rd ++ tail)
                  | dir :: rest =>
                      if negb (empty dir) && Ascii.eqb (at_ dir 0) "~"%char
                      then (AssignDir env
                              (mkFileName [] bdirs [] [] false false
                                          (m_dontFollowLinks Clear))
                              (wxGetUserHome env (skipn 1 dir)) wxPATH_NATIVE, rest)
                      else (mkFileName [] bdirs [] [] false false
                                       (m_dontFollowLinks Clear), rd ++ tail)
                  end)
                 = (mkFileName [] bdirs [] [] false false (m_dontFollowLinks Clear),
                    rd ++ tail)).
  { destruct (rd ++ tail) as [|dir l]; [reflexivity|]. now rewrite Hfirst. }
  rewrite Hsel.
  replace (IsOk (mkFileName [] bdirs [] [] false false (m_dontFollowLinks Clear)))
    with true by (symmetry; now apply IsOk_absolute).
  rewrite andb_false_r. cbv beta iota.
  cbn [m_relative m_dirs negb]. cbv beta iota.
  subst r. cbn [set_relative set_dirs m_relative m_volume
                m_dirs m_name m_ext m_hasExt m_dontFollowLinks].
  rewrite (Hres tail Htail).
  destruct fn; cbn in *; now subst.
Qed.

(** /usr/lib/libfoo.so relative to /usr/local/bin/ is ../../lib/libfoo.so,
    and from there it is /usr/lib/libfoo.so again. *)
Lemma MakeRelativeTo_MakeAbsolute_unix_witness :
  let fn := mkFileName [] [wxS "usr"; wxS "lib"] (wxS "libfoo") (wxS "so")
                       false true false in
  let pathBase := wxS "/usr/local/bin/" in
  let r := snd (MakeRelativeTo unix_env fn pathBase wxPATH_NATIVE) in
  GetFullPath unix_env r wxPATH_NATIVE = wxS "../../lib/libfoo.so"
  /\ MakeAbsolute unix_env r pathBase wxPATH_NATIVE = fn.
Proof.
  cbv zeta. split; [reflexivity|].
  apply (MakeRelativeTo_MakeAbsolute_unix unix_env
           (mkFileName [] [wxS "usr"; wxS "lib"] (wxS "libfoo") (wxS "so")
                       false true false)
           [wxS "usr"; wxS "local"; wxS "bin"] wxPATH_NATIVE).
  - reflexivity.
  - now left.
  - exact unix_env_tokenizer_fields.
  - reflexivity.
  - reflexivity.
  - intros [H | [H | []]]; discriminate.
  - intros [H | [H | []]]; discriminate.
  - intros d [<- | [<- | []]]; reflexivity.
  - reflexivity.
Defined.

(* ------------------------------------------------------------------------- *)
(** ** SplitPath: the whole decomposition *)
(* ------------------------------------------------------------------------- *)







(* ------------------------------------------------------------------------- *)
(** ** MakeRelativeTo: the volumes compared *)
(* ------------------------------------------------------------------------- *)










